(** * balerion-data: backfill, merge and update of 1-minute bars

    A shallow embedding of [scripts/mt5_utils.py], [scripts/config.py],
    [scripts/update_weekly_data.py], [scripts/collect_historical_data.py]
    and [scripts/check_data.py], and of the tests on the rows of a
    dataset in [tests/test_bar_quality.py].

    Conventions
    - a [pandas.DataFrame] is the list of its rows, in index order;
    - timestamps are whole seconds since the epoch ([Z]); the vendor's
      [time] field already is one, and [pd.to_datetime(.., unit="s")] is
      the identity on that representation;
    - prices are binary64 floats, as in the vendor's structured array;
    - the vendor terminal, the clock and the file system are explicit
      state, threaded by a small state-and-exception monad. *)

From Stdlib Require Import ZArith Floats String Ascii.
From stdpp Require Import base list sorting gmap strings.

Open Scope Z_scope.

(** ** Rows *)

(** One element of the structured array returned by [mt5.copy_rates_*]. *)
Record Rate := mkRate {
  time : Z;
  r_open : float;
  r_high : float;
  r_low : float;
  r_close : float;
  tick_volume : Z;
  r_spread : Z;
  r_real_volume : Z
}.

(** One row of a persisted dataset, in the column order
    [OUTPUT_COLUMNS + OPTIONAL_COLUMNS]. *)
Record Bar := mkBar {
  timestamp : Z;
  open : float;
  high : float;
  low : float;
  close : float;
  volume : Z;
  spread : Z;
  real_volume : Z
}.

(** ** The pandas operations used by the scripts *)

Inductive Keep := KeepFirst | KeepLast.

Section Frames.
Context {A : Type} (key : A → Z).

(** [df.drop_duplicates(subset=[key], keep="first")]: a row is dropped
    when its key was met in an earlier row; row order is preserved. *)
Fixpoint drop_first_from (seen : list Z) (l : list A) : list A :=
  match l with
  | [] => []
  | x :: r =>
      if bool_decide (key x ∈ seen) then drop_first_from seen r
      else x :: drop_first_from (key x :: seen) r
  end.

(** [keep="last"]: a row is dropped when its key occurs in a later row. *)
Fixpoint drop_duplicates_last (l : list A) : list A :=
  match l with
  | [] => []
  | x :: r =>
      if bool_decide (key x ∈ key <$> r) then drop_duplicates_last r
      else x :: drop_duplicates_last r
  end.

Definition drop_duplicates (keep : Keep) (l : list A) : list A :=
  match keep with
  | KeepFirst => drop_first_from [] l
  | KeepLast => drop_duplicates_last l
  end.

(** [df.sort_values(key).reset_index(drop=True)].  pandas sorts with an
    unstable quicksort by default; every call site sorts a frame whose
    keys are already unique, where all ascending arrangements coincide
    (lemma [sorted_permutation_unique] below), so an insertion sort is
    as good a model as any. *)
Fixpoint insert_by (x : A) (l : list A) : list A :=
  match l with
  | [] => [x]
  | y :: r =>
      if bool_decide (key x ≤ key y) then x :: l else y :: insert_by x r
  end.

Definition sort_values (l : list A) : list A := foldr insert_by [] l.

(** Ascending with unique keys. *)
Definition ascending (l : list A) : Prop :=
  StronglySorted (λ a b, key a < key b) l.

(** The rows at a given key, in frame order. *)
Definition rows_at (T : Z) (l : list A) : list A :=
  filter (λ a, key a = T) l.

(** [s.min()] and [s.max()] of the key column; [None] stands for the
    [NaT]/[nan] pandas returns on an empty column. *)
Definition key_min (l : list A) : option Z :=
  match l with
  | [] => None
  | x :: r => Some (foldr (λ a m, Z.min (key a) m) (key x) r)
  end.

Definition key_max (l : list A) : option Z :=
  match l with
  | [] => None
  | x :: r => Some (foldr (λ a m, Z.max (key a) m) (key x) r)
  end.
End Frames.

(** [mt5_utils.append_new_data] (the printed report is left out). *)
Definition append_new_data (existing_df new_df : list Bar) : list Bar :=
  let combined := existing_df ++ new_df in
  let combined := drop_duplicates timestamp KeepLast combined in
  sort_values timestamp combined.

(** The counts [append_new_data] prints:
    existing, new, duplicates removed, total. *)
Definition merge_report (existing_df new_df : list Bar) : nat * nat * nat * nat :=
  let combined := existing_df ++ new_df in
  let deduped := drop_duplicates timestamp KeepLast combined in
  (length existing_df, length new_df,
   (length combined - length deduped)%nat,
   length (sort_values timestamp deduped)).


(** ** scripts/config.py *)

Module config.
Local Open Scope string_scope.

Definition DATA_DIR : string := "data".
Definition FX_DIR : string := DATA_DIR +:+ "/fx".
Definition INDICES_DIR : string := DATA_DIR +:+ "/indices".

Definition FX_SYMBOLS : list string :=
  ["EURUSD"; "USDJPY"; "GBPUSD"; "EURGBP"; "USDCAD"; "AUDNZD"].

Definition INDEX_SYMBOLS : list string := ["US30"; "XAUUSD"].

Definition SYMBOL_ALTERNATIVES : gmap string (list string) :=
  list_to_map
    [("EURUSD", ["EURUSD"; "EURUSD.a"; "EURUSDm"; "EURUSD."]);
     ("USDJPY", ["USDJPY"; "USDJPY.a"; "USDJPYm"; "USDJPY."]);
     ("GBPUSD", ["GBPUSD"; "GBPUSD.a"; "GBPUSDm"; "GBPUSD."]);
     ("EURGBP", ["EURGBP"; "EURGBP.a"; "EURGBPm"; "EURGBP."]);
     ("USDCAD", ["USDCAD"; "USDCAD.a"; "USDCADm"; "USDCAD."]);
     ("AUDNZD", ["AUDNZD"; "AUDNZD.a"; "AUDNZDm"; "AUDNZD."]);
     ("US30", ["US30"; "US30.cash"; "US30Cash"; "USA30"; "DJ30"; "US30."]);
     ("XAUUSD", ["XAUUSD"; "XAUUSD.a"; "XAUUSDm"; "GOLD"; "XAUUSD."])].

Definition TIMEFRAME : string := "M1".
Definition MAX_BARS_PER_REQUEST : Z := 99999.
Definition MAX_HISTORICAL_ATTEMPTS : nat := 10.

Definition REMOVE_DUPLICATES : bool := true.
Definition SAVE_FORMAT : string := "parquet".

Definition OUTPUT_COLUMNS : list string :=
  ["timestamp"; "open"; "high"; "low"; "close"; "volume"].
Definition OPTIONAL_COLUMNS : list string := ["spread"; "real_volume"].
End config.

(** ** The vendor terminal, the clock and the file system *)

(** The [mt5.TIMEFRAME_*] constants. *)
Inductive Timeframe :=
  | TIMEFRAME_M1 | TIMEFRAME_M5 | TIMEFRAME_M15 | TIMEFRAME_M30
  | TIMEFRAME_H1 | TIMEFRAME_H4 | TIMEFRAME_D1 | TIMEFRAME_W1 | TIMEFRAME_MN1.

(** What the scripts read of [mt5.symbol_info(..)]. *)
Record SymbolInfo := mkSymbolInfo {
  si_name : string;
  si_description : string;
  si_visible : bool
}.

(** The vendor API as a capability interface over a session state of its
    own: nothing is assumed about what it answers. *)
Record Vendor := mkVendor {
  vstate : Type;
  symbol_info : string → vstate → option SymbolInfo * vstate;
  symbol_select : string → bool → vstate → bool * vstate;
  copy_rates_from_pos :
    string → Timeframe → Z → Z → vstate → option (list Rate) * vstate;
  copy_rates_from :
    string → Timeframe → Z → Z → vstate → option (list Rate) * vstate
}.

(** What can be found at a path. *)
Inductive File :=
  | Parquet (df : list Bar)
  | Csv (df : list Bar)
  | Garbage.

(** How the next write to disk goes: through, or raising before anything
    is created, or raising with a truncated file left behind. *)
Inductive WriteFault := WriteOk | WriteFailsClean | WriteFailsPartial.

(** [Path.rename] replaces an existing target on POSIX and raises
    [FileExistsError] on Windows. *)
Inductive Platform := Posix | Windows.

(** Calls to the vendor and changes to the file system, as they happen. *)
Inductive Event :=
  | EvSymbolInfo (symbol : string)
  | EvSymbolSelect (symbol : string)
  | EvCopyRatesFromPos (symbol : string) (tf : Timeframe) (start count : Z)
  | EvCopyRatesFrom (symbol : string) (tf : Timeframe) (date_from count : Z)
  | EvRename (src dst : string) (ok : bool)
  | EvWrite (path : string) (res : WriteFault)
  | EvUnlink (path : string).

Definition is_rates_call (e : Event) : bool :=
  match e with
  | EvCopyRatesFromPos _ _ _ _ | EvCopyRatesFrom _ _ _ _ => true
  | _ => false
  end.

Definition is_vendor_call (e : Event) : bool :=
  match e with
  | EvSymbolInfo _ | EvSymbolSelect _
  | EvCopyRatesFromPos _ _ _ _ | EvCopyRatesFrom _ _ _ _ => true
  | _ => false
  end.

Definition is_fs_event (e : Event) : bool := negb (is_vendor_call e).

(** Number of bar requests among the events. *)
Definition rates_calls (evs : list Event) : nat :=
  length (List.filter is_rates_call evs).

Definition fs_events (evs : list Event) : list Event :=
  List.filter is_fs_event evs.

(** The environment of a run: [env_clock n] is what the [n]-th call of
    [datetime.now()] returns, in microseconds of naive local time. *)
Record Env := mkEnv {
  env_clock : nat → Z;
  env_platform : Platform
}.

Record World (V : Vendor) := mkWorld {
  w_vendor : vstate V;
  w_fs : gmap string File;
  w_faults : list WriteFault;
  w_ticks : nat;
  w_log : list Event
}.
Arguments mkWorld {V} _ _ _ _ _.
Arguments w_vendor {V} _.
Arguments w_fs {V} _.
Arguments w_faults {V} _.
Arguments w_ticks {V} _.
Arguments w_log {V} _.

Inductive Exn :=
  | AttributeError
  | ReadError
  | WriteError
  | FileExistsError
  | FileNotFoundError
  | UnboundLocalError.

Inductive Result (A : Type) :=
  | Ok (a : A)
  | Raise (e : Exn).
Arguments Ok {A} _.
Arguments Raise {A} _.

(** State and exceptions: a raise keeps the state reached so far. *)
Definition M (V : Vendor) (A : Type) : Type := World V → Result A * World V.

Definition ret {V A} (a : A) : M V A := λ w, (Ok a, w).

Definition raise {V A} (e : Exn) : M V A := λ w, (Raise e, w).

Definition bind {V A B} (m : M V A) (k : A → M V B) : M V B :=
  λ w, match m w with
       | (Ok a, w1) => k a w1
       | (Raise e, w1) => (Raise e, w1)
       end.

Notation "x <- m ;; k" := (bind m (λ x, k))
  (at level 100, m at next level, right associativity).
Notation "m ;;; k" := (bind m (λ _, k))
  (at level 100, right associativity).

Section Primitives.
Context {V : Vendor} (env : Env).

(** *** Vendor calls *)

Definition call_vendor {A} (e : Event) (f : vstate V → A * vstate V) : M V A :=
  λ w, let '(a, v) := f (w_vendor w) in
       (Ok a, mkWorld v (w_fs w) (w_faults w) (w_ticks w) (w_log w ++ [e])).

Definition mt5_symbol_info (s : string) : M V (option SymbolInfo) :=
  call_vendor (EvSymbolInfo s) (symbol_info V s).

Definition mt5_symbol_select (s : string) (enable : bool) : M V bool :=
  call_vendor (EvSymbolSelect s) (symbol_select V s enable).

Definition mt5_copy_rates_from_pos (s : string) (tf : Timeframe)
    (start count : Z) : M V (option (list Rate)) :=
  call_vendor (EvCopyRatesFromPos s tf start count)
              (copy_rates_from_pos V s tf start count).

Definition mt5_copy_rates_from (s : string) (tf : Timeframe)
    (date_from count : Z) : M V (option (list Rate)) :=
  call_vendor (EvCopyRatesFrom s tf date_from count)
              (copy_rates_from V s tf date_from count).

(** *** [datetime.now()] *)

Definition now : M V Z :=
  λ w, (Ok (env_clock env (w_ticks w)),
        mkWorld (w_vendor w) (w_fs w) (w_faults w) (S (w_ticks w)) (w_log w)).

(** *** The file system *)

Definition path_exists (p : string) : M V bool :=
  λ w, (Ok (bool_decide (is_Some (w_fs w !! p))), w).

Definition read_parquet (p : string) : M V (list Bar) :=
  λ w, match w_fs w !! p with
       | Some (Parquet df) => (Ok df, w)
       | Some _ => (Raise ReadError, w)
       | None => (Raise FileNotFoundError, w)
       end.

Definition rename (src dst : string) : M V unit :=
  λ w, match w_fs w !! src with
       | None => (Raise FileNotFoundError, w)
       | Some f =>
           match env_platform env, w_fs w !! dst with
           | Windows, Some _ =>
               (Raise FileExistsError,
                mkWorld (w_vendor w) (w_fs w) (w_faults w) (w_ticks w)
                        (w_log w ++ [EvRename src dst false]))
           | _, _ =>
               (Ok tt,
                mkWorld (w_vendor w) (<[dst := f]> (delete src (w_fs w)))
                        (w_faults w) (w_ticks w)
                        (w_log w ++ [EvRename src dst true]))
           end
       end.

Definition write_file (p : string) (f : File) : M V unit :=
  λ w, let fault := default WriteOk (head (w_faults w)) in
       let log := w_log w ++ [EvWrite p fault] in
       match fault with
       | WriteOk =>
           (Ok tt, mkWorld (w_vendor w) (<[p := f]> (w_fs w))
                           (tail (w_faults w)) (w_ticks w) log)
       | WriteFailsClean =>
           (Raise WriteError, mkWorld (w_vendor w) (w_fs w)
                                      (tail (w_faults w)) (w_ticks w) log)
       | WriteFailsPartial =>
           (Raise WriteError, mkWorld (w_vendor w) (<[p := Garbage]> (w_fs w))
                                      (tail (w_faults w)) (w_ticks w) log)
       end.

Definition unlink (p : string) : M V unit :=
  λ w, match w_fs w !! p with
       | None => (Raise FileNotFoundError, w)
       | Some _ =>
           (Ok tt, mkWorld (w_vendor w) (delete p (w_fs w)) (w_faults w)
                           (w_ticks w) (w_log w ++ [EvUnlink p]))
       end.
End Primitives.

(** ** scripts/mt5_utils.py *)

Definition timeframe_map : gmap string Timeframe :=
  list_to_map
    [("M1", TIMEFRAME_M1); ("M5", TIMEFRAME_M5); ("M15", TIMEFRAME_M15);
     ("M30", TIMEFRAME_M30); ("H1", TIMEFRAME_H1); ("H4", TIMEFRAME_H4);
     ("D1", TIMEFRAME_D1); ("W1", TIMEFRAME_W1); ("MN1", TIMEFRAME_MN1)]%string.

Definition get_timeframe_constant (timeframe_str : string) : Timeframe :=
  default TIMEFRAME_M1 (timeframe_map !! timeframe_str).

(** [rates is None or len(rates) == 0] *)
Definition no_rates (rates : option (list Rate)) : bool :=
  match rates with
  | None | Some [] => true
  | Some (_ :: _) => false
  end.

(** [df["time"].min()] of a chunk known to hold a row. *)
Definition min_time (r0 : Rate) (rs : list Rate) : Z :=
  foldr (λ a m, Z.min (time a) m) (time r0) rs.

(** The rename of [time] to [timestamp] and of [tick_volume] to [volume],
    and the selection of the output columns, on one row. *)
Definition to_bar (r : Rate) : Bar :=
  mkBar (time r) (r_open r) (r_high r) (r_low r) (r_close r)
        (tick_volume r) (r_spread r) (r_real_volume r).

(** The same steps on the column names of the frame built from the
    vendor's array, as [collect_maximum_data] performs them. *)
Definition rates_columns : list string :=
  ["time"; "open"; "high"; "low"; "close"; "tick_volume"; "spread";
   "real_volume"]%string.

Definition with_timestamp_column (cols : list string) : list string :=
  if bool_decide ("time"%string ∈ cols)
  then filter (λ c, c ≠ "time"%string) cols ++ ["timestamp"%string]
  else cols ++ ["timestamp"%string].

Definition rename_column (old new : string) (cols : list string) : list string :=
  (λ c, if bool_decide (c = old) then new else c) <$> cols.

Definition select_output_columns (cols : list string) : list string :=
  let columns_to_keep :=
    config.OUTPUT_COLUMNS
    ++ (if bool_decide ("spread"%string ∈ cols)
           && bool_decide ("spread"%string ∈ config.OPTIONAL_COLUMNS)
        then ["spread"%string] else [])
    ++ (if bool_decide ("real_volume"%string ∈ cols)
           && bool_decide ("real_volume"%string ∈ config.OPTIONAL_COLUMNS)
        then ["real_volume"%string] else []) in
  let existing_cols := filter (λ c, c ∈ cols) columns_to_keep in
  if bool_decide (5 ≤ length existing_cols)%nat then existing_cols else cols.

Definition final_columns : list string :=
  select_output_columns
    (rename_column "tick_volume" "volume" (with_timestamp_column rates_columns)).

(** Lines 156-198 of [collect_maximum_data]: from the accumulated rates to
    the frame that is returned. *)
Definition finalize (all_rates : list Rate) : list Bar :=
  let df := all_rates in
  let df := if config.REMOVE_DUPLICATES
            then drop_duplicates time KeepFirst df else df in
  let df := sort_values time df in
  to_bar <$> df.

(** [str.lower] and the paths of the data files, for symbol names that
    are plain ASCII and a single path component, as the configured ones
    are: there [str.lower] changes the letters A to Z only, and joining
    the file name to the directory with [pathlib] is the concatenation
    [path_str] writes out.  (A name with a separator in it, or with
    letters outside ASCII, is outside this model; the statements that
    compare the paths of arbitrary names are restricted to plain
    names.) *)
Definition lower_ascii (c : ascii) : ascii :=
  let n := nat_of_ascii c in
  if ((65 <=? n) && (n <=? 90))%nat then ascii_of_nat (n + 32) else c.

Fixpoint lower (s : string) : string :=
  match s with
  | EmptyString => EmptyString
  | String c r => String (lower_ascii c) (lower r)
  end.

(** A [pathlib.Path], split the way [with_suffix] looks at it. *)
Record Path := mkPath {
  parent : string;
  stem : string;
  suffix : string
}.

Definition path_str (p : Path) : string :=
  parent p +:+ "/" +:+ stem p +:+ suffix p.

Definition with_suffix (s : string) (p : Path) : Path :=
  mkPath (parent p) (stem p) s.

Definition get_symbol_category (symbol : string) : string :=
  if bool_decide (symbol ∈ config.FX_SYMBOLS) then "fx"
  else if bool_decide (symbol ∈ config.INDEX_SYMBOLS) then "indices"
  else "fx".

Definition get_data_filepath (symbol : string) (category : option string) : Path :=
  let category := default (get_symbol_category symbol) category in
  let base_dir := if bool_decide (category = "fx"%string)
                  then config.FX_DIR else config.INDICES_DIR in
  mkPath base_dir (lower symbol +:+ "_1m") ".parquet".

Section Scripts.
Context {V : Vendor} (env : Env).

(** The loop of [find_symbol] over the alternatives still to try. *)
Fixpoint find_symbol_in (alternatives : list string) : M V (option string) :=
  match alternatives with
  | [] => ret None
  | alt_symbol :: rest =>
      symbol_info <- mt5_symbol_info alt_symbol ;;
      match symbol_info with
      | None => find_symbol_in rest
      | Some info =>
          if negb (si_visible info) then
            selected <- mt5_symbol_select alt_symbol true ;;
            if selected then ret (Some alt_symbol) else find_symbol_in rest
          else ret (Some alt_symbol)
      end
  end.

Definition find_symbol (symbol : string) : M V (option string) :=
  find_symbol_in (default [symbol] (config.SYMBOL_ALTERNATIVES !! symbol)).

(** Step 2 of [collect_maximum_data]: the [for attempt in range(..)] loop,
    by the attempts that are left. *)
Fixpoint backfill_loop (attempts : nat) (actual_symbol : string)
    (timeframe : Timeframe) (earliest_time : Z) (all_rates : list Rate)
    : M V (list Rate) :=
  match attempts with
  | O => ret all_rates
  | S attempts' =>
      let earlier_datetime := earliest_time - 60 in
      earlier_rates <- mt5_copy_rates_from actual_symbol timeframe
                         earlier_datetime config.MAX_BARS_PER_REQUEST ;;
      match earlier_rates with
      | None | Some [] => ret all_rates
      | Some (r0 :: rs) =>
          let new_earliest_time := min_time r0 rs in
          if bool_decide (earliest_time ≤ new_earliest_time) then ret all_rates
          else
            let new_data := filter (λ r, time r < earliest_time) (r0 :: rs) in
            backfill_loop attempts' actual_symbol timeframe new_earliest_time
                          (new_data ++ all_rates)
      end
  end.

(** Lines 86-153: symbol resolution, the initial request and the loop;
    the value is the accumulated [all_rates]. *)
Definition collect_rates (symbol : string) (timeframe : Timeframe)
    : M V (option (list Rate)) :=
  actual_symbol <- find_symbol symbol ;;
  match actual_symbol with
  | None => ret None
  | Some actual_symbol =>
      symbol_info <- mt5_symbol_info actual_symbol ;;
      match symbol_info with
      | None => raise AttributeError
      | Some _ =>
          rates <- mt5_copy_rates_from_pos actual_symbol timeframe 0
                     config.MAX_BARS_PER_REQUEST ;;
          match rates with
          | None | Some [] => ret None
          | Some (r0 :: rs) =>
              all_rates <- backfill_loop config.MAX_HISTORICAL_ATTEMPTS
                             actual_symbol timeframe (min_time r0 rs)
                             (r0 :: rs) ;;
              ret (Some all_rates)
          end
      end
  end.

Definition collect_maximum_data (symbol : string) (timeframe : Timeframe)
    : M V (option (list Bar)) :=
  all_rates <- collect_rates symbol timeframe ;;
  ret (finalize <$> all_rates).

(** [save_dataframe]; the directories of the data tree are taken to
    exist, so that [mkdir(parents=True, exist_ok=True)] does nothing. *)
Definition save_dataframe (df : list Bar) (filepath : Path)
    (save_format : string) : M V unit :=
  (if bool_decide (save_format ∈ ["parquet"; "both"]%string)
   then write_file (path_str (with_suffix ".parquet" filepath)) (Parquet df)
   else ret tt) ;;;
  (if bool_decide (save_format ∈ ["csv"; "both"]%string)
   then write_file (path_str (with_suffix ".csv" filepath)) (Csv df)
   else ret tt).

Definition load_existing_data (filepath : Path) : M V (option (list Bar)) :=
  found <- path_exists (path_str filepath) ;;
  if found then
    df <- read_parquet (path_str filepath) ;;
    ret (Some df)
  else ret None.

(** ** scripts/update_weekly_data.py *)

(** [int(x)] of a finite binary64 value, and the conversion Python
    applies to an [int] operand of a float product. *)
Definition int_of_float (x : float) : Z :=
  match Prim2SF x with
  | S754_finite s m e =>
      let v := if e <? 0 then Z.pos m / 2 ^ (- e) else Z.pos m * 2 ^ e in
      if s then - v else v
  | _ => 0
  end.

Definition float_of_int (n : Z) : float :=
  SF2Prim (binary_normalize prec emax n 0 false).

(** [int(days * 24 * 60 * 0.7) + 100], in binary64 as Python computes it
    (for day counts whose minutes fit a double). *)
Definition bars_to_fetch (days : Z) : Z :=
  int_of_float (float_of_int (days * 24 * 60) * 0x1.6666666666666p-1) + 100.

Definition microseconds (seconds : Z) : Z := seconds * 1000000.

Definition collect_recent_data (symbol : string) (timeframe : Timeframe)
    (days : Z) : M V (option (list Bar)) :=
  actual_symbol <- find_symbol symbol ;;
  match actual_symbol with
  | None => ret None
  | Some actual_symbol =>
      t <- now env ;;
      let from_date := t - microseconds (days * 86400) in
      _ <- now env ;;
      rates <- mt5_copy_rates_from_pos actual_symbol timeframe 0
                 (bars_to_fetch days) ;;
      match rates with
      | None | Some [] => ret None
      | Some rates =>
          let df := filter (λ r, from_date ≤ microseconds (time r)) rates in
          ret (Some (to_bar <$> df))
      end
  end.

(** Lines 133-140: is the dataset fresh enough to skip the update?
    [hours_since_update < 12], with the age in microseconds; the maximum
    of an empty column is [NaT], for which the comparison is false. *)
Definition is_recent (t : Z) (existing_df : list Bar) : bool :=
  match key_max timestamp existing_df with
  | Some latest_timestamp =>
      bool_decide (t - microseconds latest_timestamp < microseconds (12 * 3600))
  | None => false
  end.

(** Lines 162-175: the backup, the save and the removal of the backup.
    The local [backup_path] is bound only when the file exists. *)
Definition persist (merged_df : list Bar) (filepath : Path) : M V bool :=
  found <- path_exists (path_str filepath) ;;
  backup_path <-
    (if found then
       let backup_path := with_suffix ".parquet.backup" filepath in
       rename env (path_str filepath) (path_str backup_path) ;;;
       ret (Some backup_path)
     else ret None) ;;
  save_dataframe merged_df filepath config.SAVE_FORMAT ;;;
  match backup_path with
  | None => raise UnboundLocalError
  | Some backup_path =>
      still <- path_exists (path_str backup_path) ;;
      (if still then unlink (path_str backup_path) else ret tt) ;;;
      ret true
  end.

Definition update_symbol (symbol category : string) (timeframe : Timeframe)
    (days : Z) (force : bool) : M V bool :=
  let filepath := get_data_filepath symbol (Some category) in
  existing_df <- load_existing_data filepath ;;
  match existing_df with
  | None => ret false
  | Some existing_df =>
      skip <- (if negb force then
                 t <- now env ;;
                 ret (is_recent t existing_df)
               else ret false) ;;
      if skip then ret true
      else
        new_df <- collect_recent_data symbol timeframe days ;;
        match new_df with
        | None | Some [] => ret false
        | Some new_df =>
            let merged_df := append_new_data existing_df new_df in
            let new_rows :=
              Z.of_nat (length merged_df) - Z.of_nat (length existing_df) in
            if bool_decide (new_rows ≤ 0) then ret true
            else persist merged_df filepath
        end
  end.
End Scripts.

(** ** scripts/check_data.py *)

Module check_data.

(** A row as the checker may find it on disk: any cell can be missing
    ([NaT] for the timestamp, [nan] for a price, a null for a count). *)
Record Row := mkRow {
  c_timestamp : option Z;
  c_open : float;
  c_high : float;
  c_low : float;
  c_close : float;
  c_volume : option Z;
  c_spread : option Z;
  c_real_volume : option Z
}.

(** What [pd.read_parquet] returns: the columns that the file holds, and
    its rows.  The cells of a column that is not held are not looked at.
    The columns that are held are taken to have the types the collectors
    write (timestamps, floats, integers). *)
Record Frame := mkFrame {
  columns : list string;
  rows : list Row
}.

(** A file on disk: its size and, when it parses as parquet, its frame. *)
Record Stored := mkStored {
  st_size : Z;
  st_frame : option Frame
}.

(** The lines of the report. *)
Inductive Line :=
  | NotFound
  | Header
  | Rows (n : nat)
  | DateRange (first last : option Z)
  | TimeSpan (days : option Z)
  | WarnDuplicates (n : nat)
  | WarnMissing (n : nat)
  | InfoLargeGaps (n : nat)
  | FileSize (bytes : Z)
  | PriceRange (lowest highest : option float)
  | Blank
  | ErrorReading.

Definition has_column (c : string) (df : Frame) : bool :=
  bool_decide (c ∈ columns df).

(** [s.min()], [s.max()] of a timestamp column: nulls are skipped. *)
Definition ts_min (ts : list (option Z)) : option Z :=
  key_min id (omap id ts).

Definition ts_max (ts : list (option Z)) : option Z :=
  key_max id (omap id ts).

(** [(max - min).days] *)
Definition span_days (ts : list (option Z)) : option Z :=
  match ts_min ts, ts_max ts with
  | Some lo, Some hi => Some ((hi - lo) / 86400)
  | _, _ => None
  end.

(** [s.duplicated().sum()]: the rows whose value was met before; nulls
    count as equal to each other. *)
Fixpoint duplicated_count (seen ts : list (option Z)) : nat :=
  match ts with
  | [] => 0
  | t :: r =>
      if bool_decide (t ∈ seen) then S (duplicated_count seen r)
      else duplicated_count (t :: seen) r
  end.

Definition is_null_float (x : float) : bool := PrimFloat.is_nan x.

Definition is_null_cell (x : option Z) : bool :=
  match x with None => true | Some _ => false end.

(** The nulls of one row, over the columns the frame holds. *)
Definition null_cells (df : Frame) (r : Row) : nat :=
  let cell (c : string) (null : bool) : nat :=
    if has_column c df && null then 1%nat else 0%nat in
  (cell "timestamp" (is_null_cell (c_timestamp r))
   + cell "open" (is_null_float (c_open r))
   + cell "high" (is_null_float (c_high r))
   + cell "low" (is_null_float (c_low r))
   + cell "close" (is_null_float (c_close r))
   + cell "volume" (is_null_cell (c_volume r))
   + cell "spread" (is_null_cell (c_spread r))
   + cell "real_volume" (is_null_cell (c_real_volume r)))%nat.

(** [df.isnull().sum().sum()] *)
Definition missing_count (df : Frame) : nat :=
  foldr (λ r n, (null_cells df r + n)%nat) 0%nat (rows df).

(** The differences above two hours between neighbours of the sorted
    column; a difference with a null is null and compares false. *)
Fixpoint large_gaps (sorted : list Z) : nat :=
  match sorted with
  | a :: (b :: _) as rest =>
      ((if bool_decide (2 * 3600 < b - a)%Z then 1 else 0) + large_gaps rest)%nat
  | _ => 0%nat
  end.

Definition large_gap_count (ts : list (option Z)) : nat :=
  large_gaps (sort_values id (omap id ts)).

(** [s.min()] and [s.max()] of a price column, [nan] cells skipped. *)
Definition float_min (xs : list float) : option float :=
  foldr (λ x m, if is_null_float x then m
                else match m with
                     | None => Some x
                     | Some y => Some (if PrimFloat.ltb x y then x else y)
                     end) None xs.

Definition float_max (xs : list float) : option float :=
  foldr (λ x m, if is_null_float x then m
                else match m with
                     | None => Some x
                     | Some y => Some (if PrimFloat.ltb y x then x else y)
                     end) None xs.

(** [check_file]: the verdict and what is printed.  Everything from
    [pd.read_parquet] to the price line runs inside one [try]; a lookup
    of a column the frame does not hold raises [KeyError] there. *)
Definition check_file (file : option Stored) : bool * list Line :=
  match file with
  | None => (false, [NotFound])
  | Some st =>
      match st_frame st with
      | None => (false, [ErrorReading; Blank])
      | Some df =>
          let out := [Header; Rows (length (rows df))] in
          if negb (has_column "timestamp" df)
          then (false, out ++ [ErrorReading; Blank])
          else
            let ts := c_timestamp <$> rows df in
            let out := out ++ [DateRange (ts_min ts) (ts_max ts);
                               TimeSpan (span_days ts)] in
            let duplicates := duplicated_count [] ts in
            let out := out ++ (if bool_decide (0 < duplicates)%nat
                               then [WarnDuplicates duplicates] else []) in
            let missing := missing_count df in
            let out := out ++ (if bool_decide (0 < missing)%nat
                               then [WarnMissing missing] else []) in
            let gaps := large_gap_count ts in
            let out := out ++ (if bool_decide (0 < gaps)%nat
                               then [InfoLargeGaps gaps] else []) in
            let out := out ++ [FileSize (st_size st)] in
            if negb (has_column "low" df && has_column "high" df)
            then (false, out ++ [ErrorReading; Blank])
            else
              (true,
               out ++ [PriceRange (float_min (c_low <$> rows df))
                                  (float_max (c_high <$> rows df));
                       Blank])
      end
  end.

(** The path [check_all_data] builds for a symbol. *)
Definition data_file (base_dir symbol : string) : string :=
  base_dir +:+ "/" +:+ lower symbol +:+ "_1m.parquet".

(** The tally of one loop of [check_all_data]: checked, ok. *)
Definition tally (disk : gmap string Stored) (base_dir : string)
    (symbols : list string) : nat * nat :=
  foldl (λ '(checked, ok) symbol,
           (S checked,
            if fst (check_file (disk !! data_file base_dir symbol))
            then S ok else ok))
        (0%nat, 0%nat) symbols.

(** [check_all_data]: the two tallies, FX then indices. *)
Definition check_all_data (disk : gmap string Stored) : (nat * nat) * (nat * nat) :=
  (tally disk config.FX_DIR config.FX_SYMBOLS,
   tally disk config.INDICES_DIR config.INDEX_SYMBOLS).


(** The columns the collectors write. *)
Definition canonical_columns : list string :=
  config.OUTPUT_COLUMNS ++ config.OPTIONAL_COLUMNS.


(** A row with one value in every price cell, for examples. *)
Definition sample_row (t : option Z) (c : float) : Row :=
  mkRow t c c c c (Some 1) (Some 0) (Some 0).

End check_data.

(** ** A simulated vendor *)

(** A terminal that knows every symbol and answers the bar requests from
    a script, one entry per request, whatever is asked; past the end of
    the script it answers [None]. *)
Definition scripted_vendor : Vendor :=
  mkVendor (list (option (list Rate)))
    (λ s st, (Some (mkSymbolInfo s "" true), st))
    (λ s enable st, (true, st))
    (λ s tf start count st, (mjoin (head st), tail st))
    (λ s tf date_from count st, (mjoin (head st), tail st)).

Definition initial_world {V : Vendor} (v : vstate V) (fs : gmap string File)
    (faults : list WriteFault) : World V :=
  mkWorld v fs faults 0 [].

(** A bar and a rate with given time and close, for examples. *)
Definition bar_at (t : Z) (c : float) : Bar := mkBar t c c c c 1 0 0.
Definition rate_at (t : Z) (c : float) : Rate := mkRate t c c c c 1 0 0.

(** ** Scenarios for the backfill *)

(** Every bar of a chunk is older than the earliest bar held so far, chunk
    after chunk; no chunk is empty. *)
Fixpoint older_chain (earliest : Z) (chunks : list (list Rate)) : bool :=
  match chunks with
  | [] => true
  | [] :: _ => false
  | (r0 :: rs) :: rest =>
      forallb (λ r, bool_decide (time r < earliest)) (r0 :: rs)
      && older_chain (min_time r0 rs) rest
  end.

(** Progressively older, non-overlapping, non-empty chunks. *)
Definition progressively_older (chunks : list (list Rate)) : bool :=
  match chunks with
  | [] => true
  | [] :: _ => false
  | (r0 :: rs) :: rest => older_chain (min_time r0 rs) rest
  end.

(** Two bars a minute apart per chunk, each chunk two minutes before the
    one before it. *)
Definition sample_chunk (i : nat) : list Rate :=
  [rate_at (1000 - 120 * Z.of_nat i) 1.5; rate_at (1060 - 120 * Z.of_nat i) 2.5].

Definition sample_chunks (k : nat) : list (list Rate) :=
  sample_chunk <$> seq 0 k.

(** The backfill of EURUSD against [k] sample chunks and then an empty
    answer. *)
Definition sample_run (k : nat)
    : Result (option (list Bar)) * World scripted_vendor :=
  collect_maximum_data (V:=scripted_vendor) "EURUSD" TIMEFRAME_M1
    (initial_world (V:=scripted_vendor)
       ((Some <$> sample_chunks k) ++ [Some []]) ∅ []).

(** A chunk that repeats a timestamp, then nothing more. *)
Definition repeated_answers : list (option (list Rate)) :=
  [Some [rate_at 1000 1.5; rate_at 1000 2.5; rate_at 1060 3.5]; Some []].

Definition repeated_world : World scripted_vendor :=
  initial_world (V:=scripted_vendor) repeated_answers ∅ [].

(** ** Predicates on runs *)

(** A property of the pairs (state before, state after) that every run of
    a computation satisfies. *)
Definition preserves {V A} (R : relation (World V)) (m : M V A) : Prop :=
  ∀ w r w', m w = (r, w') → R w w'.

(** The state after is the state before with vendor calls only: the
    file system and the pending write faults are untouched, and the log
    grows by calls to the vendor. *)
Definition vendor_step {V} : relation (World V) := λ w w',
  w_fs w' = w_fs w ∧ w_faults w' = w_faults w ∧
  ∃ evs, w_log w' = w_log w ++ evs ∧ fs_events evs = [].

(** The primary path of a symbol and the path of its backup. *)
Definition primary_path (symbol category : string) : string :=
  path_str (get_data_filepath symbol (Some category)).

Definition backup_path (symbol category : string) : string :=
  path_str (with_suffix ".parquet.backup"
              (get_data_filepath symbol (Some category))).

(** What a run of [update_symbol] from [w] to [w'] with result [r] and
    new events [evs] did to the dataset file, case by case. *)
Inductive Persisted {V} (symbol category : string) (w w' : World V)
    (r : Result bool) (evs : list Event) : Prop :=
  | NothingWritten :
      fs_events evs = [] → w_fs w' = w_fs w →
      Persisted symbol category w w' r evs
  | RenameRefused :
      fs_events evs
        = [EvRename (primary_path symbol category)
                    (backup_path symbol category) false] →
      w_fs w' = w_fs w → r = Raise FileExistsError →
      Persisted symbol category w w' r evs
  | Replaced (E new_df : list Bar) :
      w_fs w !! primary_path symbol category = Some (Parquet E) →
      fs_events evs
        = [EvRename (primary_path symbol category)
                    (backup_path symbol category) true;
           EvWrite (primary_path symbol category) WriteOk;
           EvUnlink (backup_path symbol category)] →
      r = Ok true →
      w_fs w' !! primary_path symbol category
      = Some (Parquet (append_new_data E new_df)) →
      w_fs w' !! backup_path symbol category = None →
      Persisted symbol category w w' r evs
  | WriteFailed (E : list Bar) (fault : WriteFault) :
      w_fs w !! primary_path symbol category = Some (Parquet E) →
      fault ≠ WriteOk →
      fs_events evs
        = [EvRename (primary_path symbol category)
                    (backup_path symbol category) true;
           EvWrite (primary_path symbol category) fault] →
      r = Raise WriteError →
      w_fs w' !! backup_path symbol category = Some (Parquet E) →
      Persisted symbol category w w' r evs.

(** ** Scenarios for the update *)

Definition day : Z := 86400.

(** A clock that stands ten days after the epoch. *)
Definition sample_env (platform : Platform) : Env :=
  mkEnv (λ _, microseconds (10 * day)) platform.

(** A dataset whose last bar is two days old on that clock, and one
    whose last bar is an hour old. *)
Definition stored_dataset : list Bar :=
  [bar_at (8 * day) 1; bar_at (8 * day + 60) 1].

Definition fresh_dataset : list Bar :=
  [bar_at (10 * day - 3660) 1; bar_at (10 * day - 3600) 1].

Definition sample_disk (dataset : list Bar) : gmap string File :=
  {[ primary_path "EURUSD" "fx" := Parquet dataset ]}.

Definition update_world (dataset : list Bar)
    (answers : list (option (list Rate))) (faults : list WriteFault)
    : World scripted_vendor :=
  initial_world (V:=scripted_vendor) answers (sample_disk dataset) faults.

(** ** The terminal session and the batch scripts *)

(** The calls that open and close a session.  They are not part of the
    data path, so they are kept apart from [Vendor] and leave no event. *)
Record Session (V : Vendor) := mkSession {
  initialize : vstate V → bool * vstate V;
  last_error : vstate V → Z * vstate V;
  account_info : vstate V → option (string * Z) * vstate V;
  shutdown : vstate V → unit * vstate V
}.
Arguments initialize {V} _ _.
Arguments last_error {V} _ _.
Arguments account_info {V} _ _.
Arguments shutdown {V} _ _.

(** What a batch run prints at its end. *)
Record Summary := mkSummary {
  fx_success : list string;
  fx_failed : list string;
  idx_success : list string;
  idx_failed : list string
}.

Definition total_success (s : Summary) : nat :=
  (length (fx_success s) + length (idx_success s))%nat.

Definition total_symbols : nat :=
  (length config.FX_SYMBOLS + length config.INDEX_SYMBOLS)%nat.

Section Batches.
Context {V : Vendor} (env : Env) (session : Session V).

Definition call_session {A} (f : vstate V → A * vstate V) : M V A :=
  λ w, let '(a, v) := f (w_vendor w) in
       (Ok a, mkWorld v (w_fs w) (w_faults w) (w_ticks w) (w_log w)).

(** [mt5_utils.initialize_mt5] and [mt5_utils.shutdown_mt5] *)
Definition initialize_mt5 : M V bool :=
  ok <- call_session (initialize session) ;;
  if negb ok then
    _ <- call_session (last_error session) ;;
    ret false
  else ret true.

Definition shutdown_mt5 : M V unit := call_session (shutdown session).

(** [try: .. except Exception: ..] around the work on one symbol: the
    symbol counts as failed. *)
Definition attempt (m : M V bool) : M V bool :=
  λ w, match m w with
       | (Ok b, w1) => (Ok b, w1)
       | (Raise _, w1) => (Ok false, w1)
       end.

(** [try: .. except Exception: ..] around the whole batch. *)
Definition guarded {A} (m : M V (option A)) : M V (option A) :=
  λ w, match m w with
       | (Ok a, w1) => (Ok a, w1)
       | (Raise _, w1) => (Ok None, w1)
       end.

(** [try: .. finally: ..] *)
Definition finally {A} (m : M V A) (f : M V unit) : M V A :=
  λ w, let '(r, w1) := m w in
       match f w1 with
       | (Ok _, w2) => (r, w2)
       | (Raise e, w2) => (Raise e, w2)
       end.

(** The [for symbol in ..] loops of the two batch scripts, with the
    lists they append to. *)
Fixpoint for_each_symbol (step : string → M V bool) (symbols : list string)
    (success failed : list string) : M V (list string * list string) :=
  match symbols with
  | [] => ret (success, failed)
  | symbol :: rest =>
      ok <- attempt (step symbol) ;;
      if ok then for_each_symbol step rest (success ++ [symbol]) failed
      else for_each_symbol step rest success (failed ++ [symbol])
  end.

(** *** scripts/collect_historical_data.py *)

(** The body of the loops of [collect_all_symbols], lines 56-64. *)
Definition collect_symbol (symbol category : string) (timeframe : Timeframe)
    : M V bool :=
  df <- collect_maximum_data symbol timeframe ;;
  match df with
  | Some (b :: rest) =>
      let filepath := get_data_filepath symbol (Some category) in
      save_dataframe (b :: rest) filepath config.SAVE_FORMAT ;;;
      ret true
  | _ => ret false
  end.

(** [collect_all_symbols]; the value is the summary it prints, [None]
    when the session cannot be opened. *)
Definition collect_all_symbols : M V (option Summary) :=
  _ <- now env ;;
  ok <- initialize_mt5 ;;
  if negb ok then ret None
  else
    finally
      (guarded
         (_ <- call_session (account_info session) ;;
          let timeframe := get_timeframe_constant config.TIMEFRAME in
          fx <- for_each_symbol (λ symbol, collect_symbol symbol "fx" timeframe)
                  config.FX_SYMBOLS [] [] ;;
          idx <- for_each_symbol
                   (λ symbol, collect_symbol symbol "indices" timeframe)
                   config.INDEX_SYMBOLS [] [] ;;
          _ <- now env ;;
          ret (Some (mkSummary (fst fx) (snd fx) (fst idx) (snd idx)))))
      shutdown_mt5.

(** *** scripts/update_weekly_data.py *)

Definition update_all_symbols (days : Z) (force : bool)
    : M V (option Summary) :=
  _ <- now env ;;
  ok <- initialize_mt5 ;;
  if negb ok then ret None
  else
    finally
      (guarded
         (_ <- call_session (account_info session) ;;
          let timeframe := get_timeframe_constant config.TIMEFRAME in
          fx <- for_each_symbol
                  (λ symbol, update_symbol env symbol "fx" timeframe days force)
                  config.FX_SYMBOLS [] [] ;;
          idx <- for_each_symbol
                   (λ symbol,
                      update_symbol env symbol "indices" timeframe days force)
                   config.INDEX_SYMBOLS [] [] ;;
          _ <- now env ;;
          ret (Some (mkSummary (fst fx) (snd fx) (fst idx) (snd idx)))))
      shutdown_mt5.
End Batches.

(** ** tests/test_bar_quality.py *)

Module test_bar_quality.

(** [TestSchema.test_required_columns_present], on the column names. *)
Definition required_columns : list string :=
  ["timestamp"; "open"; "high"; "low"; "close"; "volume"]%string.

Definition test_required_columns_present (cols : list string) : bool :=
  forallb (λ c, bool_decide (c ∈ cols)) required_columns.

(** [TestSchema.test_volume_non_negative_integer_like] *)
Definition test_volume_non_negative_integer_like (df : list Bar) : bool :=
  forallb (λ b, bool_decide (0 ≤ volume b)) df.

(** [df["timestamp"].duplicated().sum()] *)
Fixpoint duplicated_sum (seen ts : list Z) : nat :=
  match ts with
  | [] => 0
  | t :: r =>
      if bool_decide (t ∈ seen) then S (duplicated_sum seen r)
      else duplicated_sum (t :: seen) r
  end.

(** [TestTimestamps.test_no_duplicate_timestamps] *)
Definition test_no_duplicate_timestamps (df : list Bar) : bool :=
  bool_decide (duplicated_sum [] (timestamp <$> df) = 0%nat).

(** [Series.is_monotonic_increasing]: no value below the one before. *)
Fixpoint is_monotonic_increasing (ts : list Z) : bool :=
  match ts with
  | a :: (b :: _) as rest => bool_decide (a ≤ b) && is_monotonic_increasing rest
  | _ => true
  end.

(** [TestTimestamps.test_timestamps_are_sorted] *)
Definition test_timestamps_are_sorted (df : list Bar) : bool :=
  is_monotonic_increasing (timestamp <$> df).

(** [len(df[df[a] < df[b]]) == 0] *)
Definition none_below (a b : Bar → float) (df : list Bar) : bool :=
  bool_decide (length (List.filter (λ r, PrimFloat.ltb (a r) (b r)) df) = 0%nat).

(** [TestOHLCSanity]: the five price relations. *)
Definition test_high_gte_low : list Bar → bool := none_below high low.
Definition test_high_gte_open : list Bar → bool := none_below high open.
Definition test_high_gte_close : list Bar → bool := none_below high close.
Definition test_low_lte_open : list Bar → bool := none_below open low.
Definition test_low_lte_close : list Bar → bool := none_below close low.

(** [TestOHLCSanity.test_no_zero_prices] and [test_no_negative_prices] *)
Definition count_cells (p : float → bool) (col : Bar → float)
    (df : list Bar) : nat :=
  length (List.filter (λ r, p (col r)) df).

Definition test_no_zero_prices (df : list Bar) : bool :=
  forallb (λ col, bool_decide (count_cells (λ x, PrimFloat.eqb x 0) col df = 0%nat))
          [open; high; low; close].

Definition test_no_negative_prices (df : list Bar) : bool :=
  forallb (λ col, bool_decide (count_cells (λ x, PrimFloat.ltb x 0) col df = 0%nat))
          [open; high; low; close].

End test_bar_quality.

(** ** Symbol resolution and names, for the statements below *)

(** The alternatives [find_symbol] walks through. *)
Definition alternatives (symbol : string) : list string :=
  default [symbol] (config.SYMBOL_ALTERNATIVES !! symbol).

(** A lookup or a selection of one of [names]. *)
Definition is_lookup_of (names : list string) (e : Event) : Prop :=
  match e with
  | EvSymbolInfo s | EvSymbolSelect s => s ∈ names
  | _ => False
  end.

(** The test [find_symbol] applies to one alternative, against a symbol
    table [info] and the outcome [select] of adding a hidden symbol to
    the Market Watch. *)
Definition resolves (info : string → option SymbolInfo)
    (select : string → bool) (alt_symbol : string) : bool :=
  match info alt_symbol with
  | Some i => if negb (si_visible i) then select alt_symbol else true
  | None => false
  end.

(** The terminal answers lookups from [info] and selections from
    [select], whatever its state, and they leave the state alone. *)
Definition stable_terminal (V : Vendor) (info : string → option SymbolInfo)
    (select : string → bool) : Prop :=
  (∀ s st, symbol_info V s st = (info s, st)) ∧
  (∀ s st, symbol_select V s true st = (select s, st)).

(** A terminal that answers lookups from a table and holds no bars. *)
Definition table_vendor (info : string → option SymbolInfo)
    (select : string → bool) : Vendor :=
  mkVendor unit
    (λ s st, (info s, st)) (λ s enable st, (select s, st))
    (λ s tf start count st, (None, st))
    (λ s tf date_from count st, (None, st)).

(** Symbol names made of ASCII letters, digits, dots, underscores and
    hyphens, as the configured ones are.  For these the file name
    [get_data_filepath] builds is a single path component, so that
    joining it to the directory with [pathlib] is the concatenation of
    [path_str], and [str.lower] is [lower]. *)
Definition plain_char (c : ascii) : bool :=
  let n := nat_of_ascii c in
  ((48 <=? n) && (n <=? 57) || (65 <=? n) && (n <=? 90)
   || (97 <=? n) && (n <=? 122)
   || bool_decide (c ∈ ["."; "_"; "-"]%char))%nat.

Fixpoint plain_name (s : string) : bool :=
  match s with
  | EmptyString => true
  | String c r => plain_char c && plain_name r
  end.

(** The names [get_timeframe_constant] knows. *)
Definition timeframe_names : list string :=
  ["M1"; "M5"; "M15"; "M30"; "H1"; "H4"; "D1"; "W1"; "MN1"]%string.

(** The tests of [tests/test_bar_quality.py] that look at one row at a
    time. *)
Definition row_tests : list (list Bar → bool) :=
  [test_bar_quality.test_volume_non_negative_integer_like;
   test_bar_quality.test_high_gte_low;
   test_bar_quality.test_high_gte_open;
   test_bar_quality.test_high_gte_close;
   test_bar_quality.test_low_lte_open;
   test_bar_quality.test_low_lte_close;
   test_bar_quality.test_no_zero_prices;
   test_bar_quality.test_no_negative_prices].

(** ** What a batch run leaves behind *)

(** The primary path of a symbol holds a dataset that parses. *)
Definition has_dataset {V} (symbol category : string) (w : World V) : Prop :=
  ∃ D, w_fs w !! primary_path symbol category = Some (Parquet D).

(** ... and the dataset is not empty and satisfies the invariant. *)
Definition has_clean_dataset {V} (symbol category : string) (w : World V)
    : Prop :=
  ∃ df, w_fs w !! primary_path symbol category = Some (Parquet df) ∧
        df ≠ [] ∧ ascending timestamp df.

(** A batch run from [w] never raises.  When the session does not open
    it touches nothing; otherwise every configured symbol is reported
    exactly once, as a success or as a failure, and every success is
    [good] on the disk the run leaves. *)
Definition accounts_for_every_symbol {V} (session : Session V)
    (good : string → string → World V → Prop) (w : World V)
    (run : Result (option Summary) * World V) : Prop :=
  ∃ s w', run = (Ok s, w') ∧
    match s with
    | None =>
        fst (initialize session (w_vendor w)) = false ∧
        w_fs w' = w_fs w ∧ w_faults w' = w_faults w ∧ w_log w' = w_log w
    | Some s =>
        fst (initialize session (w_vendor w)) = true ∧
        fx_success s ++ fx_failed s ≡ₚ config.FX_SYMBOLS ∧
        idx_success s ++ idx_failed s ≡ₚ config.INDEX_SYMBOLS ∧
        (total_success s + length (fx_failed s) + length (idx_failed s)
         = total_symbols)%nat ∧
        (∀ symbol, symbol ∈ fx_success s → good symbol "fx"%string w') ∧
        (∀ symbol, symbol ∈ idx_success s → good symbol "indices"%string w')
    end.

(** A session that opens or refuses to, over the scripted vendor. *)
Definition scripted_session (opens : bool) : Session scripted_vendor :=
  mkSession scripted_vendor
    (λ st, (opens, st)) (λ st, (-10003, st))
    (λ st, (Some ("Demo"%string, 1), st)) (λ st, (tt, st)).

(** The disk with a backup left behind by an earlier run. *)
Definition disk_with_backup (dataset backup : list Bar) : gmap string File :=
  <[backup_path "EURUSD" "fx" := Parquet backup]> (sample_disk dataset).
(** ** Facts about the frame operations *)

Section FrameFacts.
Context {A : Type} (key : A → Z).

Lemma rows_at_cons T x l :
  rows_at key T (x :: l) =
    if decide (key x = T) then x :: rows_at key T l else rows_at key T l.
Proof. unfold rows_at. rewrite filter_cons. reflexivity. Qed.

Lemma rows_at_nil_iff T l : rows_at key T l = [] ↔ T ∉ key <$> l.
Proof.
  induction l as [|x l IH].
  - split; [intros _; apply not_elem_of_nil | reflexivity].
  - rewrite rows_at_cons, fmap_cons, not_elem_of_cons.
    destruct (decide (key x = T)) as [e|n].
    + split; [intros ?; discriminate | intros [? _]; congruence].
    + rewrite IH. split; [intros ?; split; congruence | tauto].
Qed.

Lemma rows_at_elem T l x : x ∈ rows_at key T l ↔ x ∈ l ∧ key x = T.
Proof. unfold rows_at. rewrite list_elem_of_filter. tauto. Qed.

(** *** keep="first" *)

Lemma drop_first_from_rows_at seen T l :
  rows_at key T (drop_first_from key seen l) =
    if decide (T ∈ seen) then [] else take 1 (rows_at key T l).
Proof.
  revert seen. induction l as [|x l IH]; intros seen; simpl.
  - destruct (decide (T ∈ seen)); reflexivity.
  - case_bool_decide as Hx.
    + rewrite IH, rows_at_cons.
      destruct (decide (T ∈ seen)) as [i|ni]; [reflexivity|].
      destruct (decide (key x = T)); [congruence | reflexivity].
    + rewrite !rows_at_cons, IH.
      destruct (decide (key x = T)) as [e|n].
      * subst T. rewrite decide_True by apply list_elem_of_here.
        rewrite decide_False by assumption. reflexivity.
      * destruct (decide (T ∈ seen)) as [i|ni].
        -- rewrite decide_True by (apply list_elem_of_further; assumption).
           reflexivity.
        -- rewrite decide_False; [reflexivity|].
           rewrite elem_of_cons. intros [?|?]; congruence.
Qed.

Lemma drop_first_from_keys seen l :
  NoDup (key <$> drop_first_from key seen l) ∧
  ∀ k, k ∈ key <$> drop_first_from key seen l ↔ k ∈ key <$> l ∧ k ∉ seen.
Proof.
  revert seen. induction l as [|x l IH]; intros seen; simpl.
  - split; [constructor|]. intros k. rewrite elem_of_nil. tauto.
  - case_bool_decide as Hx.
    + destruct (IH seen) as [Hnd Hin]. split; [assumption|].
      intros k. rewrite Hin, elem_of_cons.
      split; [tauto|]. intros [[->|?] ?]; tauto.
    + destruct (IH (key x :: seen)) as [Hnd Hin]. split.
      * simpl. constructor; [|assumption].
        rewrite Hin, elem_of_cons. tauto.
      * intros k. simpl. rewrite !elem_of_cons, Hin, elem_of_cons.
        destruct (decide (k = key x)) as [->|]; tauto.
Qed.

Lemma drop_first_from_sublist seen l : sublist (drop_first_from key seen l) l.
Proof.
  revert seen. induction l as [|x l IH]; intros seen; simpl.
  - constructor.
  - case_bool_decide; [apply sublist_cons | apply sublist_skip]; apply IH.
Qed.

(** *** keep="last" *)

Lemma drop_duplicates_last_rows_at T l :
  rows_at key T (drop_duplicates_last key l) =
    option_list (last (rows_at key T l)).
Proof.
  induction l as [|x l IH]; simpl; [reflexivity|].
  rewrite rows_at_cons. case_bool_decide as Hx.
  - rewrite IH. destruct (decide (key x = T)) as [e|n]; [|reflexivity].
    subst T. destruct (rows_at key (key x) l) as [|y ys] eqn:E.
    + apply rows_at_nil_iff in E. contradiction.
    + rewrite last_cons_cons. reflexivity.
  - rewrite rows_at_cons, IH.
    destruct (decide (key x = T)) as [e|n]; [|reflexivity].
    subst T. apply (proj2 (rows_at_nil_iff _ _)) in Hx. rewrite Hx.
    reflexivity.
Qed.

Lemma drop_duplicates_last_keys l :
  NoDup (key <$> drop_duplicates_last key l) ∧
  ∀ k, k ∈ key <$> drop_duplicates_last key l ↔ k ∈ key <$> l.
Proof.
  induction l as [|x l [Hnd Hin]]; simpl.
  - split; [constructor | tauto].
  - case_bool_decide as Hx.
    + split; [assumption|]. intros k. rewrite Hin, elem_of_cons.
      split; [tauto|]. intros [->|?]; assumption.
    + split.
      * simpl. constructor; [rewrite Hin|]; assumption.
      * intros k. simpl. rewrite !elem_of_cons, Hin. tauto.
Qed.

Lemma drop_duplicates_last_sublist l : sublist (drop_duplicates_last key l) l.
Proof.
  induction l as [|x l IH]; simpl; [constructor|].
  case_bool_decide; [apply sublist_cons | apply sublist_skip]; apply IH.
Qed.

Lemma drop_duplicates_last_id l :
  NoDup (key <$> l) → drop_duplicates_last key l = l.
Proof.
  induction l as [|x l IH]; simpl; [reflexivity|].
  rewrite NoDup_cons. intros [Hx Hl].
  rewrite bool_decide_eq_false_2 by assumption. f_equal. auto.
Qed.

Lemma drop_first_from_id seen l :
  NoDup (key <$> l) → (∀ k, k ∈ key <$> l → k ∉ seen) →
  drop_first_from key seen l = l.
Proof.
  revert seen. induction l as [|x l IH]; intros seen; simpl; [reflexivity|].
  rewrite NoDup_cons. intros [Hx Hl] Hs.
  rewrite bool_decide_eq_false_2 by (apply Hs, list_elem_of_here).
  f_equal. apply IH; [assumption|]. intros k Hk.
  rewrite elem_of_cons. intros [->|?]; [contradiction|].
  eapply Hs; [apply list_elem_of_further|]; eassumption.
Qed.
End FrameFacts.

(** *** sort_values *)

Section SortFacts.
Context {A : Type} (key : A → Z).

Local Abbreviation key_le := (λ a b : A, key a ≤ key b).
Local Abbreviation key_lt := (λ a b : A, key a < key b).

Lemma insert_by_perm x l : insert_by key x l ≡ₚ x :: l.
Proof.
  induction l as [|y l IH]; simpl; [reflexivity|].
  case_bool_decide; [reflexivity|].
  rewrite IH. apply Permutation_swap.
Qed.

Lemma sort_values_perm l : sort_values key l ≡ₚ l.
Proof.
  induction l as [|x l IH]; simpl; [reflexivity|].
  rewrite insert_by_perm, IH. reflexivity.
Qed.

Lemma sort_values_length l : length (sort_values key l) = length l.
Proof. apply Permutation_length, sort_values_perm. Qed.

Lemma sort_values_elem l x : x ∈ sort_values key l ↔ x ∈ l.
Proof. rewrite sort_values_perm. reflexivity. Qed.

Lemma insert_by_sorted x l :
  StronglySorted key_le l → StronglySorted key_le (insert_by key x l).
Proof.
  induction 1 as [|y l Hl IH Hy]; simpl.
  - constructor; constructor.
  - case_bool_decide as Hxy.
    + constructor; [constructor; assumption|].
      constructor; [assumption|].
      eapply Forall_impl; [exact Hy|]. simpl. intros; lia.
    + constructor; [assumption|].
      rewrite insert_by_perm. constructor; [lia | assumption].
Qed.

Lemma sort_values_sorted l : StronglySorted key_le (sort_values key l).
Proof.
  induction l as [|x l IH]; simpl; [constructor|].
  apply insert_by_sorted, IH.
Qed.

Lemma sorted_nodup_ascending l :
  StronglySorted key_le l → NoDup (key <$> l) → ascending key l.
Proof.
  induction 1 as [|x l Hl IH Hx]; [constructor|].
  rewrite fmap_cons, NoDup_cons. intros [Hnx Hnd].
  constructor; [apply IH; assumption|].
  rewrite Forall_forall in Hx |- *. intros b Hb.
  specialize (Hx b Hb). simpl in Hx.
  assert (key x ≠ key b); [|lia].
  intros E. apply Hnx. rewrite E. apply list_elem_of_fmap_2, Hb.
Qed.

Lemma ascending_nodup l : ascending key l → NoDup (key <$> l).
Proof.
  induction 1 as [|x l Hl IH Hx]; [constructor|].
  rewrite fmap_cons, NoDup_cons. split; [|assumption].
  rewrite list_elem_of_fmap. intros (b & E & Hb).
  rewrite Forall_forall in Hx. specialize (Hx b Hb). simpl in Hx. lia.
Qed.

Lemma ascending_sorted l : ascending key l → StronglySorted key_le l.
Proof.
  induction 1 as [|x l Hl IH Hx]; constructor; [assumption|].
  eapply Forall_impl; [exact Hx|]. simpl. intros; lia.
Qed.

(** A frame that is already ascending is left as it is. *)
Lemma sort_values_id l : StronglySorted key_le l → sort_values key l = l.
Proof.
  induction 1 as [|x l Hl IH Hx]; simpl; [reflexivity|].
  rewrite IH. destruct l as [|y l']; simpl; [reflexivity|].
  inversion Hx; subst. rewrite bool_decide_eq_true_2 by assumption.
  reflexivity.
Qed.

(** Two ascending arrangements of the same rows are the same frame:
    with unique keys the result of a sort does not depend on the sorting
    algorithm. *)
Lemma sorted_permutation_unique l1 l2 :
  ascending key l1 → ascending key l2 → l1 ≡ₚ l2 → l1 = l2.
Proof.
  intros H1. revert l2. induction H1 as [|x l1 Hl1 IH Hx]; intros l2 H2 HP.
  - apply Permutation_nil_l. assumption.
  - destruct H2 as [|y l2 Hl2 Hy].
    + apply Permutation_nil_r in HP. discriminate.
    + assert (x = y) as ->.
      { assert (Hxin : x ∈ y :: l2) by (rewrite <- HP; apply list_elem_of_here).
        assert (Hyin : y ∈ x :: l1) by (rewrite HP; apply list_elem_of_here).
        rewrite elem_of_cons in Hxin, Hyin.
        destruct Hxin as [?|Hxin]; [assumption|].
        destruct Hyin as [?|Hyin]; [congruence|].
        rewrite Forall_forall in Hx, Hy.
        specialize (Hx _ Hyin). specialize (Hy _ Hxin). simpl in *. lia. }
      f_equal. apply IH; [assumption|].
      eapply Permutation_cons_inv. exact HP.
Qed.

Lemma sort_values_unique l l' :
  NoDup (key <$> l) → l' ≡ₚ l → StronglySorted key_le l' →
  l' = sort_values key l.
Proof.
  intros Hnd HP Hs. apply sorted_permutation_unique.
  - apply sorted_nodup_ascending; [assumption|]. rewrite HP. assumption.
  - apply sorted_nodup_ascending; [apply sort_values_sorted|].
    rewrite sort_values_perm. assumption.
  - rewrite HP, sort_values_perm. reflexivity.
Qed.

Lemma rows_at_perm T l l' : l ≡ₚ l' → rows_at key T l ≡ₚ rows_at key T l'.
Proof. intros HP. unfold rows_at. rewrite HP. reflexivity. Qed.

(** Where a key occurs at most once, sorting does not change the rows
    found at that key. *)
Lemma rows_at_sort_values T l :
  (length (rows_at key T l) ≤ 1)%nat →
  rows_at key T (sort_values key l) = rows_at key T l.
Proof.
  intros Hlen.
  pose proof (rows_at_perm T _ _ (sort_values_perm l)) as HP.
  destruct (rows_at key T l) as [|b [|c r]] eqn:E.
  - apply Permutation_nil_r. assumption.
  - apply Permutation_singleton_r. assumption.
  - simpl in Hlen. lia.
Qed.

Lemma foldr_min_spec z r :
let m := foldr (λ a m, Z.min (key a) m) z r in
m ≤ z ∧ Forall (λ a, m ≤ key a) r ∧ (m = z ∨ m ∈ key <$> r).
Proof.
induction r as [|y r (Hz & Hr & Hin)]; cbn [foldr].
- split; [lia|]. split; [constructor | left; reflexivity].
- set (m := foldr (λ a m, Z.min (key a) m) z r) in *. cbv zeta.
  split; [lia|]. split.
  + constructor; [lia|]. eapply Forall_impl; [exact Hr|].
    cbv beta. intros; lia.
  + rewrite fmap_cons, elem_of_cons.
    destruct (Z.min_spec (key y) m) as [[_ ->]|[_ ->]]; tauto.
Qed.


Lemma key_min_spec l m :
key_min key l = Some m → m ∈ key <$> l ∧ Forall (λ a, m ≤ key a) l.
Proof.
destruct l as [|x r]; [discriminate|]. intros [= <-].
destruct (foldr_min_spec (key x) r) as (Hz & Hr & Hin).
rewrite fmap_cons, elem_of_cons. split; [tauto|].
constructor; assumption.
Qed.

End SortFacts.

(** ** Reasoning about runs *)

Section RunFacts.
Context {V : Vendor}.
Implicit Types w : World V.

Lemma bind_ok {A B} (m : M V A) (k : A → M V B) w a w1 :
  m w = (Ok a, w1) → bind m k w = k a w1.
Proof. unfold bind. intros ->. reflexivity. Qed.

Lemma bind_raise {A B} (m : M V A) (k : A → M V B) w e w1 :
  m w = (Raise e, w1) → bind m k w = (Raise e, w1).
Proof. unfold bind. intros ->. reflexivity. Qed.

Lemma bind_inv {A B} (m : M V A) (k : A → M V B) w r w' :
  bind m k w = (r, w') →
  (∃ a w1, m w = (Ok a, w1) ∧ k a w1 = (r, w')) ∨
  (∃ e, m w = (Raise e, w') ∧ r = Raise e).
Proof.
  unfold bind. destruct (m w) as [[a|e] w1]; intros H.
  - left. eauto.
  - right. injection H as <- <-. eauto.
Qed.

Lemma preserves_ret {A} (R : relation (World V)) `{!Reflexive R} (a : A) :
  preserves R (ret a).
Proof. intros w r w' [= _ <-]. reflexivity. Qed.

Lemma preserves_raise {A} (R : relation (World V)) `{!Reflexive R} e :
  preserves R (raise (A:=A) e).
Proof. intros w r w' [= _ <-]. reflexivity. Qed.

Lemma preserves_bind {A B} (R : relation (World V)) `{!Transitive R}
    (m : M V A) (k : A → M V B) :
  preserves R m → (∀ a, preserves R (k a)) → preserves R (bind m k).
Proof.
  intros Hm Hk w r w' H. apply bind_inv in H as [(a & w1 & H1 & H2)|(e & H1 & _)].
  - etransitivity; [eapply Hm | eapply Hk]; eassumption.
  - eapply Hm; eassumption.
Qed.

#[global] Instance vendor_step_refl : Reflexive (@vendor_step V).
Proof.
  intros w. split; [reflexivity|]. split; [reflexivity|].
  exists []. rewrite app_nil_r. split; reflexivity.
Qed.

#[global] Instance vendor_step_trans : Transitive (@vendor_step V).
Proof.
  intros w1 w2 w3 (Hf1 & Hq1 & evs1 & Hl1 & He1) (Hf2 & Hq2 & evs2 & Hl2 & He2).
  split; [congruence|]. split; [congruence|].
  exists (evs1 ++ evs2). split.
  - rewrite Hl2, Hl1, app_assoc. reflexivity.
  - unfold fs_events in *. rewrite List.filter_app, He1, He2. reflexivity.
Qed.

Lemma preserves_call_vendor {A} (e : Event) (f : vstate V → A * vstate V) :
  is_vendor_call e = true → preserves vendor_step (call_vendor e f).
Proof.
  intros He w r w'. unfold call_vendor. destruct (f (w_vendor w)) as [a v].
  intros [= _ <-]. split; [reflexivity|]. split; [reflexivity|].
  exists [e]. split; [reflexivity|].
  unfold fs_events, is_fs_event. simpl. rewrite He. reflexivity.
Qed.

Lemma preserves_now env : preserves vendor_step (now (V:=V) env).
Proof.
  intros w r w' [= _ <-]. split; [reflexivity|]. split; [reflexivity|].
  exists []. simpl. rewrite app_nil_r. split; reflexivity.
Qed.

Lemma find_symbol_in_vendor_step alternatives :
  preserves vendor_step (find_symbol_in (V:=V) alternatives).
Proof.
  induction alternatives as [|alt rest IH]; simpl.
  - apply preserves_ret; apply _.
  - apply preserves_bind; [apply _ | apply preserves_call_vendor; reflexivity |].
    intros [info|]; [|exact IH].
    destruct (negb (si_visible info)); [|apply preserves_ret; apply _].
    apply preserves_bind;
      [apply _ | apply preserves_call_vendor; reflexivity |].
    intros [|]; [apply preserves_ret; apply _ | exact IH].
Qed.

Lemma find_symbol_vendor_step symbol :
  preserves vendor_step (find_symbol (V:=V) symbol).
Proof. apply find_symbol_in_vendor_step. Qed.

Lemma backfill_loop_vendor_step attempts actual_symbol timeframe earliest acc :
  preserves vendor_step
    (backfill_loop (V:=V) attempts actual_symbol timeframe earliest acc).
Proof.
  revert earliest acc.
  induction attempts as [|n IH]; intros earliest acc; simpl.
  - apply preserves_ret; apply _.
  - apply preserves_bind;
      [apply _ | apply preserves_call_vendor; reflexivity |].
    intros [[|r0 rs]|]; try (apply preserves_ret; apply _).
    case_bool_decide; [apply preserves_ret; apply _ | apply IH].
Qed.

Lemma collect_rates_vendor_step symbol timeframe :
  preserves vendor_step (collect_rates (V:=V) symbol timeframe).
Proof.
  unfold collect_rates.
  apply preserves_bind; [apply _ | apply find_symbol_vendor_step |].
  intros [actual|]; [|apply preserves_ret; apply _].
  apply preserves_bind; [apply _ | apply preserves_call_vendor; reflexivity |].
  intros [info|]; [|apply preserves_raise; apply _].
  apply preserves_bind; [apply _ | apply preserves_call_vendor; reflexivity |].
  intros [[|r0 rs]|]; try (apply preserves_ret; apply _).
  apply preserves_bind; [apply _ | apply backfill_loop_vendor_step |].
  intros all_rates. apply preserves_ret; apply _.
Qed.

Lemma collect_maximum_data_vendor_step symbol timeframe :
  preserves vendor_step (collect_maximum_data (V:=V) symbol timeframe).
Proof.
  unfold collect_maximum_data.
  apply preserves_bind; [apply _ | apply collect_rates_vendor_step |].
  intros all_rates. apply preserves_ret; apply _.
Qed.

Lemma collect_recent_data_vendor_step env symbol timeframe days :
  preserves vendor_step (collect_recent_data (V:=V) env symbol timeframe days).
Proof.
  unfold collect_recent_data.
  apply preserves_bind; [apply _ | apply find_symbol_vendor_step |].
  intros [actual|]; [|apply preserves_ret; apply _].
  apply preserves_bind; [apply _ | apply preserves_now |]. intros t.
  apply preserves_bind; [apply _ | apply preserves_now |]. intros _.
  apply preserves_bind; [apply _ | apply preserves_call_vendor; reflexivity |].
  intros [[|r0 rs]|]; apply preserves_ret; apply _.
Qed.

(** [collect_recent_data] never raises. *)
Lemma find_symbol_in_total alternatives w :
  ∃ a w1, find_symbol_in (V:=V) alternatives w = (Ok a, w1).
Proof.
  revert w. induction alternatives as [|alt rest IH]; intros w; simpl.
  - eexists _, _. reflexivity.
  - unfold bind at 1, mt5_symbol_info, call_vendor.
    destruct (symbol_info V alt (w_vendor w)) as [[info|] v]; [|apply IH].
    destruct (negb (si_visible info)); [|eexists _, _; reflexivity].
    unfold bind at 1, mt5_symbol_select, call_vendor. simpl.
    destruct (symbol_select V alt true v) as [[|] v'];
      [eexists _, _; reflexivity | apply IH].
Qed.

Lemma collect_recent_data_total env symbol timeframe days w :
  ∃ new_df w1,
    collect_recent_data env symbol timeframe days w = (Ok new_df, w1).
Proof.
  unfold collect_recent_data.
  destruct (find_symbol_in_total
              (default [symbol] (config.SYMBOL_ALTERNATIVES !! symbol)) w)
    as (a & w1 & Ha).
  rewrite (bind_ok _ _ _ _ _ Ha).
  destruct a as [actual|]; [|eexists _, _; reflexivity].
  unfold bind, now, mt5_copy_rates_from_pos, call_vendor. simpl.
  destruct (copy_rates_from_pos V actual timeframe 0 (bars_to_fetch days)
              (w_vendor w1)) as [[[|r0 rs]|] v]; eexists _, _; reflexivity.
Qed.
End RunFacts.

(** ** The merge step and the end of the backfill *)

Section DedupThenSort.
Context {A : Type} (key : A → Z).

Lemma drop_duplicates_nodup keep (l : list A) :
  NoDup (key <$> drop_duplicates key keep l).
Proof.
  destruct keep; simpl.
  - apply drop_first_from_keys.
  - apply drop_duplicates_last_keys.
Qed.

Lemma drop_duplicates_keys keep (l : list A) k :
  k ∈ key <$> drop_duplicates key keep l ↔ k ∈ key <$> l.
Proof.
  destruct keep; simpl.
  - destruct (drop_first_from_keys key [] l) as [_ H]. rewrite H.
    split; [tauto|]. intros ?; split; [assumption | apply not_elem_of_nil].
  - apply drop_duplicates_last_keys.
Qed.

Lemma drop_duplicates_id keep (l : list A) :
  NoDup (key <$> l) → drop_duplicates key keep l = l.
Proof.
  intros Hnd. destruct keep; simpl.
  - apply drop_first_from_id; [assumption|]. intros; apply not_elem_of_nil.
  - apply drop_duplicates_last_id. assumption.
Qed.

Lemma drop_duplicates_rows_at_length keep T (l : list A) :
  (length (rows_at key T (drop_duplicates key keep l)) ≤ 1)%nat.
Proof.
  destruct keep; simpl.
  - rewrite drop_first_from_rows_at.
    rewrite decide_False by apply not_elem_of_nil.
    rewrite length_take. lia.
  - rewrite drop_duplicates_last_rows_at.
    destruct (last (rows_at key T l)); simpl; lia.
Qed.

(** Deduplicating and then sorting yields an ascending frame. *)
Lemma sort_drop_duplicates_ascending keep (l : list A) :
  ascending key (sort_values key (drop_duplicates key keep l)).
Proof.
  apply sorted_nodup_ascending; [apply sort_values_sorted|].
  rewrite sort_values_perm. apply drop_duplicates_nodup.
Qed.

Lemma sort_drop_duplicates_rows_at keep T (l : list A) :
  rows_at key T (sort_values key (drop_duplicates key keep l)) =
    match keep with
    | KeepFirst => take 1 (rows_at key T l)
    | KeepLast => option_list (last (rows_at key T l))
    end.
Proof.
  rewrite rows_at_sort_values by apply drop_duplicates_rows_at_length.
  destruct keep; simpl.
  - rewrite drop_first_from_rows_at.
    rewrite decide_False by apply not_elem_of_nil. reflexivity.
  - apply drop_duplicates_last_rows_at.
Qed.

(** On a frame that is ascending already, both steps do nothing. *)
Lemma sort_drop_duplicates_id keep (l : list A) :
  ascending key l → sort_values key (drop_duplicates key keep l) = l.
Proof.
  intros Hl. rewrite drop_duplicates_id by (apply ascending_nodup; assumption).
  apply sort_values_id, ascending_sorted. assumption.
Qed.
End DedupThenSort.

Lemma append_new_data_rows_at E N T :
  rows_at timestamp T (append_new_data E N) =
    option_list (last (rows_at timestamp T (E ++ N))).
Proof. apply (sort_drop_duplicates_rows_at timestamp KeepLast). Qed.

Lemma append_new_data_ascending E N :
  ascending timestamp (append_new_data E N).
Proof. apply (sort_drop_duplicates_ascending timestamp KeepLast). Qed.

Lemma append_new_data_timestamps E N T :
  T ∈ timestamp <$> append_new_data E N ↔
  T ∈ timestamp <$> E ∨ T ∈ timestamp <$> N.
Proof.
  unfold append_new_data. rewrite sort_values_perm, drop_duplicates_keys.
  rewrite fmap_app, elem_of_app. reflexivity.
Qed.

(** The merge never has more rows than there are distinct timestamps in
    the existing frame, when the new frame brings no timestamp of its
    own. *)
Lemma append_new_data_no_new_rows E N :
  (∀ b, b ∈ N → timestamp b ∈ timestamp <$> E) →
  (length (append_new_data E N) ≤ length E)%nat.
Proof.
  intros Hsub. unfold append_new_data. rewrite sort_values_length.
  rewrite <- (length_fmap timestamp (drop_duplicates _ _ _)).
  rewrite <- (length_fmap timestamp E).
  apply submseteq_length, NoDup_submseteq.
  - apply drop_duplicates_nodup.
  - intros T. rewrite drop_duplicates_keys, fmap_app, elem_of_app.
    intros [?|HT]; [assumption|].
    apply list_elem_of_fmap in HT as (b & -> & Hb). auto.
Qed.

(** An ascending dataset gains exactly the bars whose timestamps it does
    not hold yet. *)
Lemma append_new_data_length_ge E N :
  NoDup (timestamp <$> E) →
  (length E ≤ length (append_new_data E N))%nat.
Proof.
  intros Hnd. unfold append_new_data. rewrite sort_values_length.
  rewrite <- (length_fmap timestamp (drop_duplicates _ _ _)).
  rewrite <- (length_fmap timestamp E).
  apply submseteq_length, NoDup_submseteq; [assumption|].
  intros T HT. rewrite drop_duplicates_keys, fmap_app, elem_of_app. tauto.
Qed.

(** The counts of the report add up. *)
Lemma merge_report_counts E N :
  let '(existing, new, removed, total) := merge_report E N in
  existing = length E ∧ new = length N ∧
  total = length (append_new_data E N) ∧
  (total + removed = existing + new)%nat.
Proof.
  unfold merge_report, append_new_data. cbv zeta.
  repeat split. rewrite sort_values_length, length_app.
  pose proof (sublist_length _ _
                (drop_duplicates_last_sublist timestamp (E ++ N))) as H.
  simpl drop_duplicates. rewrite length_app in H. lia.
Qed.

Lemma rows_at_to_bar T (l : list Rate) :
  rows_at timestamp T (to_bar <$> l) = to_bar <$> rows_at time T l.
Proof.
  induction l as [|r l IH]; [reflexivity|].
  rewrite fmap_cons, !rows_at_cons, IH. simpl.
  destruct (decide (time r = T)); reflexivity.
Qed.

Lemma finalize_unfold all_rates :
  finalize all_rates =
    to_bar <$> sort_values time (drop_duplicates time KeepFirst all_rates).
Proof. reflexivity. Qed.

Lemma finalize_ascending all_rates : ascending timestamp (finalize all_rates).
Proof.
  rewrite finalize_unfold. unfold ascending.
  eapply StronglySorted_fmap;
    [|apply (sort_drop_duplicates_ascending time KeepFirst)].
  intros x y Hxy. exact Hxy.
Qed.

Lemma finalize_rows_at all_rates T :
  rows_at timestamp T (finalize all_rates) =
    to_bar <$> take 1 (rows_at time T all_rates).
Proof.
  rewrite finalize_unfold, rows_at_to_bar.
  rewrite (sort_drop_duplicates_rows_at time KeepFirst). reflexivity.
Qed.

Lemma finalize_timestamps all_rates T :
  T ∈ timestamp <$> finalize all_rates ↔ T ∈ time <$> all_rates.
Proof.
  rewrite finalize_unfold, <- list_fmap_compose.
  change (timestamp ∘ to_bar) with time.
  rewrite sort_values_perm. apply drop_duplicates_keys.
Qed.

(** With no timestamp repeated, the backfill keeps every accumulated
    rate. *)
Lemma finalize_perm all_rates :
  NoDup (time <$> all_rates) → finalize all_rates ≡ₚ to_bar <$> all_rates.
Proof.
  intros Hnd. rewrite finalize_unfold, sort_values_perm.
  rewrite drop_duplicates_id by assumption. reflexivity.
Qed.

Lemma final_columns_canonical :
  final_columns = config.OUTPUT_COLUMNS ++ config.OPTIONAL_COLUMNS.
Proof. vm_compute. reflexivity. Qed.

(** What [collect_maximum_data] returns is the finalised accumulation of
    [collect_rates]. *)
Lemma collect_maximum_data_inv {V} symbol timeframe (w w' : World V) df :
  collect_maximum_data symbol timeframe w = (Ok (Some df), w') →
  ∃ all_rates,
    collect_rates symbol timeframe w = (Ok (Some all_rates), w') ∧
    df = finalize all_rates.
Proof.
  unfold collect_maximum_data. intros H.
  apply bind_inv in H as [(a & w1 & H1 & H2)|(e & _ & ?)]; [|discriminate].
  destruct a as [all_rates|]; simpl in H2; [|discriminate].
  injection H2 as <- <-. eauto.
Qed.

(** ** C1 *)

(** C1 (merge precedence, last write wins).  For every existing frame
    [E], new frame [N] and timestamp [T] present in both, the merged
    frame holds exactly one row at [T], the one from [N] (the last one,
    should [N] repeat [T]); every row of [E] at [T] that differs from it
    is gone. *)
Theorem merge_precedence (E N : list Bar) (T : Z) :
  T ∈ timestamp <$> E → T ∈ timestamp <$> N →
  ∃ b, last (rows_at timestamp T N) = Some b ∧ b ∈ N ∧
       rows_at timestamp T (append_new_data E N) = [b] ∧
       ∀ e, e ∈ E → timestamp e = T → e ≠ b → e ∉ append_new_data E N.
Proof.
  intros _ HN.
  destruct (last (rows_at timestamp T N)) as [b|] eqn:Hlast.
  2:{ apply last_None, rows_at_nil_iff in Hlast. contradiction. }
  exists b. split; [reflexivity|].
  assert (Hrows : rows_at timestamp T (append_new_data E N) = [b]).
  { rewrite append_new_data_rows_at. unfold rows_at at 1.
    rewrite filter_app, last_app. fold (rows_at timestamp T N).
    rewrite Hlast. reflexivity. }
  split; [|split; [exact Hrows|]].
  - apply last_Some_elem_of in Hlast. apply rows_at_elem in Hlast. tauto.
  - intros e _ He Hne Hin.
    assert (e ∈ rows_at timestamp T (append_new_data E N)) as Hin'
      by (apply rows_at_elem; auto).
    rewrite Hrows in Hin'. apply list_elem_of_singleton in Hin'. contradiction.
Qed.

Lemma merge_precedence_witness :
  ∃ b, last (rows_at timestamp 60 [bar_at 60 2; bar_at 120 2]) = Some b ∧
       b ∈ [bar_at 60 2; bar_at 120 2] ∧
       rows_at timestamp 60
         (append_new_data [bar_at 0 1; bar_at 60 1]
                          [bar_at 60 2; bar_at 120 2]) = [b] ∧
       ∀ e, e ∈ [bar_at 0 1; bar_at 60 1] → timestamp e = 60 → e ≠ b →
            e ∉ append_new_data [bar_at 0 1; bar_at 60 1]
                                [bar_at 60 2; bar_at 120 2].
Proof.
  apply (merge_precedence [bar_at 0 1; bar_at 60 1]
                          [bar_at 60 2; bar_at 120 2] 60).
  - apply list_elem_of_further, list_elem_of_here.
  - apply list_elem_of_here.
Defined.

(** ** C4 *)

(** C4 (merge idempotence).  For every dataset [D], that is, every bar
    collection with the data model's invariant (timestamps unique and
    ascending), merging [D] with an empty collection of new bars yields
    [D] itself. *)
Theorem merge_idempotence (D : list Bar) :
  ascending timestamp D → append_new_data D [] = D.
Proof.
  intros HD. unfold append_new_data. rewrite app_nil_r.
  apply sort_drop_duplicates_id. assumption.
Qed.

Lemma merge_idempotence_witness :
  append_new_data [bar_at 0 1; bar_at 60 2; bar_at 120 3] []
  = [bar_at 0 1; bar_at 60 2; bar_at 120 3].
Proof.
  apply merge_idempotence.
  repeat (constructor; [|repeat constructor; simpl; lia]). constructor.
Defined.

(** The invariant is what the equation needs: a frame that the merge with
    nothing leaves alone is ascending. *)
Lemma merge_empty_fixpoint (D : list Bar) :
  append_new_data D [] = D → ascending timestamp D.
Proof. intros <-. apply append_new_data_ascending. Qed.

(** ** C5 *)

(** C5 (dataset invariant).  Whatever the two input frames, the frame
    [append_new_data] returns has pairwise distinct timestamps and is
    sorted ascending by them; and so is every frame that
    [collect_maximum_data] returns, whatever the vendor answers. *)
Theorem dataset_invariant {V} (symbol : string) (timeframe : Timeframe)
    (w : World V) (E N : list Bar) :
  ascending timestamp (append_new_data E N) ∧
  NoDup (timestamp <$> append_new_data E N) ∧
  ∀ df w', collect_maximum_data symbol timeframe w = (Ok (Some df), w') →
           ascending timestamp df ∧ NoDup (timestamp <$> df).
Proof.
  split; [apply append_new_data_ascending|].
  split; [apply ascending_nodup, append_new_data_ascending|].
  intros df w' H. apply collect_maximum_data_inv in H as (all_rates & _ & ->).
  split; [|apply ascending_nodup]; apply finalize_ascending.
Qed.

(** ** The backfill *)

(** ** The watermark *)

(** The loop never raises, and what it adds in front of the bars it holds
    is strictly older than the watermark it was entered with: no bar that
    is already held is taken in again. *)
Lemma backfill_loop_prepends {V} attempts actual_symbol timeframe :
  ∀ earliest acc (w w' : World V) r,
    backfill_loop attempts actual_symbol timeframe earliest acc w = (r, w') →
    ∃ older, r = Ok (older ++ acc) ∧ Forall (λ x, time x < earliest) older.
Proof.
  induction attempts as [|n IH]; intros earliest acc w w' r H.
  - injection H as <- _. exists []. split; [reflexivity | constructor].
  - cbn [backfill_loop] in H.
    apply bind_inv in H as [(rates & w1 & H1 & H2)|(e & H1 & _)].
    2:{ unfold mt5_copy_rates_from, call_vendor in H1.
        destruct (copy_rates_from V _ _ _ _ _); discriminate. }
    assert (Hstop : (r, w') = (Ok acc, w1) →
              ∃ older, r = Ok (older ++ acc)
                       ∧ Forall (λ x, time x < earliest) older).
    { intros [= -> _]. exists []. split; [reflexivity | constructor]. }
    destruct rates as [[|r0 rs]|]; try (apply Hstop; symmetry; exact H2).
    cbv zeta in H2. case_bool_decide as Hprog;
      [apply Hstop; symmetry; exact H2|].
    apply IH in H2 as (older & -> & Hold).
    exists (older ++ filter (λ x, time x < earliest) (r0 :: rs)).
    split; [rewrite <- app_assoc; reflexivity|].
    apply Forall_app. split.
    + eapply Forall_impl; [exact Hold|]. simpl. intros x Hx. lia.
    + apply Forall_forall. intros x Hx.
      apply list_elem_of_filter in Hx as [Hx _]. exact Hx.
Qed.

(** Hence the rows found at a timestamp that was already held are the
    ones that were held: the first of them is the first the vendor gave
    for it. *)
Lemma backfill_loop_rows_at {V} attempts actual_symbol timeframe earliest acc
    (w w' : World V) all_rates T :
  backfill_loop attempts actual_symbol timeframe earliest acc w
  = (Ok all_rates, w') →
  earliest ≤ T → rows_at time T all_rates = rows_at time T acc.
Proof.
  intros H HT. apply backfill_loop_prepends in H as (older & [= ->] & Hold).
  unfold rows_at. rewrite filter_app.
  replace (filter (λ a, time a = T) older) with (@nil Rate); [reflexivity|].
  symmetry. apply (proj2 (rows_at_nil_iff time T older)).
  intros Hin. apply list_elem_of_fmap in Hin as (x & -> & Hx).
  rewrite Forall_forall in Hold. specialize (Hold x Hx). simpl in Hold. lia.
Qed.

(** ** C6 *)

(** C6 (the backfill keeps the first occurrence).  When
    [collect_maximum_data] returns a frame, that frame holds, at every
    timestamp, the first of the accumulated rates with that timestamp and
    no other; it is sorted ascending and has the canonical output
    columns.  The merge of the update path keeps the last row at every
    timestamp instead. *)
Theorem backfill_keeps_first {V} (symbol : string) (timeframe : Timeframe)
    (w w' : World V) (df : list Bar) :
  collect_maximum_data symbol timeframe w = (Ok (Some df), w') →
  ∃ all_rates,
    collect_rates symbol timeframe w = (Ok (Some all_rates), w') ∧
    (∀ T, rows_at timestamp T df
          = to_bar <$> option_list (head (rows_at time T all_rates))) ∧
    ascending timestamp df ∧
    final_columns = config.OUTPUT_COLUMNS ++ config.OPTIONAL_COLUMNS ∧
    (∀ E N T, rows_at timestamp T (append_new_data E N)
              = option_list (last (rows_at timestamp T (E ++ N)))).
Proof.
  intros H. apply collect_maximum_data_inv in H as (all_rates & Hrun & ->).
  exists all_rates. split; [exact Hrun|]. split; [|split; [|split]].
  - intros T. rewrite finalize_rows_at.
    destruct (rows_at time T all_rates) as [|r rs]; reflexivity.
  - apply finalize_ascending.
  - apply final_columns_canonical.
  - intros E N T. apply append_new_data_rows_at.
Qed.

(** ** Runs against the scripted vendor *)

Lemma rates_calls_app evs1 evs2 :
  rates_calls (evs1 ++ evs2) = (rates_calls evs1 + rates_calls evs2)%nat.
Proof. unfold rates_calls. rewrite List.filter_app, length_app. reflexivity. Qed.

Lemma min_time_lt earliest r0 rs :
  forallb (λ r, bool_decide (time r < earliest)) (r0 :: rs) = true →
  min_time r0 rs < earliest ∧
  filter (λ r, time r < earliest) (r0 :: rs) = r0 :: rs.
Proof.
  intros H. pose proof (proj1 (forallb_forall _ _) H) as H'.
  assert (HF : Forall (λ r, time r < earliest) (r0 :: rs)).
  { apply Forall_forall. intros r Hr. apply list_elem_of_In in Hr.
    apply H' in Hr. apply bool_decide_eq_true in Hr. exact Hr. }
  clear H'.
  split.
  - destruct (foldr_min_spec time (time r0) rs) as (Hle & _ & _).
    inversion HF; subst. unfold min_time. lia.
  - clear H. induction HF as [|x l Hx Hl IH]; [reflexivity|].
    rewrite filter_cons_True by assumption. f_equal. exact IH.
Qed.

(** The loop against a script of progressively older chunks followed by
    an empty answer: it asks once per chunk and once more, or stops when
    the attempts are used up, whichever comes first. *)
Lemma backfill_loop_scripted attempts :
  ∀ chunks stop rest actual_symbol timeframe earliest acc fs faults ticks log,
    older_chain earliest chunks = true →
    no_rates stop = true →
    ∃ evs,
      backfill_loop (V:=scripted_vendor) attempts actual_symbol timeframe
        earliest acc
        (@mkWorld scripted_vendor ((Some <$> chunks) ++ stop :: rest)
                  fs faults ticks log)
      = (Ok (concat (rev (take attempts chunks)) ++ acc),
         @mkWorld scripted_vendor
           (drop (attempts `min` S (length chunks))
                 ((Some <$> chunks) ++ stop :: rest))
           fs faults ticks (log ++ evs)) ∧
      rates_calls evs = (attempts `min` S (length chunks))%nat.
Proof.
  induction attempts as [|n IH];
    intros chunks stop rest a tf earliest acc fs faults ticks log Hchain Hstop.
  - exists []. rewrite app_nil_r. split; reflexivity.
  - destruct chunks as [|[|r0 rs] cs]; [| discriminate |].
    + exists [EvCopyRatesFrom a tf (earliest - 60) config.MAX_BARS_PER_REQUEST].
      destruct stop as [[|x xs]|]; [| discriminate |];
        cbn; rewrite Nat.min_0_r; split; reflexivity.
    + simpl in Hchain. apply andb_prop in Hchain as [Hold Hchain].
      destruct (min_time_lt _ _ _ Hold) as [Hmin Hfilter].
      cbn [backfill_loop]. unfold bind at 1.
      unfold mt5_copy_rates_from, call_vendor. cbn.
      rewrite bool_decide_eq_false_2 by lia.
      change (if decide (time r0 < earliest) is left _ then _ else _)
        with (filter (λ r, time r < earliest) (r0 :: rs)).
      rewrite Hfilter.
      set (ev := EvCopyRatesFrom a tf (earliest - 60)
                   config.MAX_BARS_PER_REQUEST).
      destruct (IH cs stop rest a tf (min_time r0 rs) ((r0 :: rs) ++ acc) fs
                   faults ticks (log ++ [ev]) Hchain Hstop)
        as (evs & Hrun & Hcalls).
      exists (ev :: evs). split.
      * rewrite Hrun, concat_app. simpl.
        rewrite app_nil_r, <- !app_assoc. reflexivity.
      * change (ev :: evs) with ([ev] ++ evs).
        rewrite rates_calls_app, Hcalls. reflexivity.
Qed.

Lemma alternatives_nonempty symbol :
  ∃ a rest, default [symbol] (config.SYMBOL_ALTERNATIVES !! symbol) = a :: rest.
Proof.
  destruct (config.SYMBOL_ALTERNATIVES !! symbol) as [l|] eqn:E; simpl;
    [|eauto].
  apply elem_of_list_to_map_2 in E.
  repeat (apply elem_of_cons in E as [[= _ ->]|E]; [eauto|]).
  apply elem_of_nil in E. contradiction.
Qed.

(** Steps 1 and 2 against the script. *)
Lemma collect_rates_scripted chunks stop rest symbol timeframe fs faults ticks
    log :
  progressively_older chunks = true →
  no_rates stop = true →
  ∃ evs,
    collect_rates (V:=scripted_vendor) symbol timeframe
      (@mkWorld scripted_vendor ((Some <$> chunks) ++ stop :: rest)
                fs faults ticks log)
    = (Ok (match chunks with
           | [] => None
           | _ :: _ =>
               Some (concat (rev (take (S config.MAX_HISTORICAL_ATTEMPTS)
                                       chunks)))
           end),
       @mkWorld scripted_vendor
         (drop (S config.MAX_HISTORICAL_ATTEMPTS `min` S (length chunks))
               ((Some <$> chunks) ++ stop :: rest))
         fs faults ticks (log ++ evs)) ∧
    rates_calls evs
    = (S config.MAX_HISTORICAL_ATTEMPTS `min` S (length chunks))%nat.
Proof.
  intros Hchunks Hstop. unfold collect_rates, find_symbol.
  destruct (alternatives_nonempty symbol) as (a & alts & ->).
  destruct chunks as [|[|r0 rs] cs]; [| discriminate |].
  - exists [EvSymbolInfo a; EvSymbolInfo a;
             EvCopyRatesFromPos a timeframe 0 config.MAX_BARS_PER_REQUEST].
    destruct stop as [[|x xs]|]; [| discriminate |];
      cbn; rewrite <- !app_assoc; split; reflexivity.
  - simpl in Hchunks.
    set (evs0 := [EvSymbolInfo a; EvSymbolInfo a;
             EvCopyRatesFromPos a timeframe 0 config.MAX_BARS_PER_REQUEST]).
    destruct (backfill_loop_scripted config.MAX_HISTORICAL_ATTEMPTS cs stop
                rest a timeframe (min_time r0 rs) (r0 :: rs) fs faults ticks
                (log ++ evs0) Hchunks Hstop)
      as (evs & Hrun & Hcalls).
    exists (evs0 ++ evs).
    split.
    + cbn [find_symbol_in]. unfold bind at 1 2 3 4.
      unfold mt5_symbol_info, mt5_copy_rates_from_pos, call_vendor.
      cbn -[backfill_loop config.MAX_HISTORICAL_ATTEMPTS].
      rewrite <- !app_assoc. cbn [app]. fold evs0.
      unfold bind. rewrite Hrun. unfold ret.
      rewrite concat_app, <- !app_assoc. simpl. rewrite app_nil_r.
      reflexivity.
    + rewrite rates_calls_app, Hcalls. reflexivity.
Qed.

Lemma drop_script {A} (xs : list A) (x : A) (rest : list A) n :
  n = S (length xs) → drop n (xs ++ x :: rest) = rest.
Proof.
  intros ->. induction xs as [|y xs IH]; [reflexivity|]. exact IH.
Qed.

(** ** C2 *)

(** C2 (backfill termination and completeness), as amended.  For every
    [k] up to the attempt budget [MAX_HISTORICAL_ATTEMPTS], against a
    vendor that returns [k] progressively older, non-overlapping chunks
    and then no rates, [collect_maximum_data] returns after exactly
    [k+1] bar requests; for [k = 0] it returns [None], and otherwise its
    frame is the accumulation of the [k] chunks, deduplicated by
    timestamp and ascending: it holds every timestamp of every chunk, and
    every bar of every chunk when no timestamp is repeated. *)
Theorem backfill_termination (chunks : list (list Rate))
    (stop : option (list Rate))
    (rest : list (option (list Rate))) (symbol : string)
    (timeframe : Timeframe) (fs : gmap string File)
    (faults : list WriteFault) (ticks : nat) (log : list Event) :
  progressively_older chunks = true →
  no_rates stop = true →
  (length chunks ≤ config.MAX_HISTORICAL_ATTEMPTS)%nat →
  ∃ evs,
    collect_maximum_data (V:=scripted_vendor) symbol timeframe
      (@mkWorld scripted_vendor ((Some <$> chunks) ++ stop :: rest)
                fs faults ticks log)
    = (Ok (match chunks with
           | [] => None
           | _ :: _ => Some (finalize (concat (rev chunks)))
           end),
       @mkWorld scripted_vendor rest fs faults ticks (log ++ evs)) ∧
    rates_calls evs = S (length chunks) ∧
    ascending timestamp (finalize (concat (rev chunks))) ∧
    (∀ c r, c ∈ chunks → r ∈ c →
            time r ∈ timestamp <$> finalize (concat (rev chunks))) ∧
    (NoDup (time <$> concat (rev chunks)) →
     ∀ c r, c ∈ chunks → r ∈ c → to_bar r ∈ finalize (concat (rev chunks))).
Proof.
  intros Hchunks Hstop Hk.
  destruct (collect_rates_scripted chunks stop rest symbol timeframe fs faults
              ticks log Hchunks Hstop) as (evs & Hrun & Hcalls).
  assert (Hmin : (S config.MAX_HISTORICAL_ATTEMPTS `min` S (length chunks))%nat
                 = S (length chunks)) by lia.
  rewrite Hmin in Hrun, Hcalls.
  rewrite drop_script in Hrun by (rewrite length_fmap; reflexivity).
  rewrite take_ge in Hrun by lia.
  assert (Hin : ∀ c r, c ∈ chunks → r ∈ c → r ∈ concat (rev chunks)).
  { intros c r Hc Hr. apply list_elem_of_In, in_concat. exists c.
    split; [rewrite <- in_rev|]; apply list_elem_of_In; assumption. }
  exists evs. split; [|split; [exact Hcalls|split; [|split]]].
  - unfold collect_maximum_data. rewrite (bind_ok _ _ _ _ _ Hrun).
    destruct chunks; reflexivity.
  - apply finalize_ascending.
  - intros c r Hc Hr. apply finalize_timestamps.
    apply list_elem_of_fmap_2. eauto.
  - intros Hnd c r Hc Hr. rewrite (finalize_perm _ Hnd).
    apply list_elem_of_fmap_2. eauto.
Qed.

Lemma backfill_termination_witness :
  ∃ evs,
    sample_run 3
    = (Ok (Some (finalize (concat (rev (sample_chunks 3))))),
       @mkWorld scripted_vendor [] ∅ [] 0 ([] ++ evs)) ∧
    rates_calls evs = 4%nat ∧
    ascending timestamp (finalize (concat (rev (sample_chunks 3)))) ∧
    (∀ c r, c ∈ sample_chunks 3 → r ∈ c →
            time r ∈ timestamp <$> finalize (concat (rev (sample_chunks 3)))) ∧
    (NoDup (time <$> concat (rev (sample_chunks 3))) →
     ∀ c r, c ∈ sample_chunks 3 → r ∈ c →
            to_bar r ∈ finalize (concat (rev (sample_chunks 3)))).
Proof.
  apply (backfill_termination (sample_chunks 3) (Some []) [] "EURUSD"
           TIMEFRAME_M1 ∅ [] 0%nat []).
  - vm_compute. reflexivity.
  - reflexivity.
  - vm_compute. lia.
Defined.

(** Past the budget C2 fails as stated: against 11 chunks the
    backfill stops after 11 requests, not 12, and against 12 chunks the
    bars of the twelfth are missing from the result. *)
Lemma backfill_budget_counterexample :
  progressively_older (sample_chunks 11) = true ∧
  rates_calls (w_log (snd (sample_run 11))) = 11%nat ∧
  S (length (sample_chunks 11)) = 12%nat ∧
  progressively_older (sample_chunks 12) = true ∧
  (∃ df, fst (sample_run 12) = Ok (Some df) ∧
         Forall (λ r, time r ∉ timestamp <$> df) (sample_chunk 11)).
Proof.
  split; [vm_compute; reflexivity|]. split; [vm_compute; reflexivity|].
  split; [reflexivity|]. split; [vm_compute; reflexivity|].
  eexists. split; [vm_compute; reflexivity|].
  repeat constructor; intros H; apply list_elem_of_In in H;
    vm_compute in H; intuition discriminate.
Qed.

(** ** Witnesses for C5 and C6 *)

Lemma dataset_invariant_witness :
  let E := [bar_at 0 1; bar_at 60 1] in
  let N := [bar_at 60 2; bar_at 30 2] in
  let df := [bar_at 1000 1.5; bar_at 1060 3.5] in
  ascending timestamp (append_new_data E N) ∧
  NoDup (timestamp <$> append_new_data E N) ∧
  ascending timestamp df ∧ NoDup (timestamp <$> df).
Proof.
  intros E N df.
  destruct (dataset_invariant (V:=scripted_vendor) "EURUSD" TIMEFRAME_M1
              repeated_world E N) as (H1 & H2 & H3).
  split; [exact H1|]. split; [exact H2|].
  apply (H3 df (snd (collect_maximum_data "EURUSD" TIMEFRAME_M1
                       repeated_world))).
  vm_compute. reflexivity.
Defined.

Lemma backfill_keeps_first_witness :
  let df := [bar_at 1000 1.5; bar_at 1060 3.5] in
  let w' := snd (collect_maximum_data "EURUSD" TIMEFRAME_M1 repeated_world) in
  ∃ all_rates,
    collect_rates "EURUSD" TIMEFRAME_M1 repeated_world
    = (Ok (Some all_rates), w') ∧
    (∀ T, rows_at timestamp T df
          = to_bar <$> option_list (head (rows_at time T all_rates))) ∧
    ascending timestamp df ∧
    final_columns = config.OUTPUT_COLUMNS ++ config.OPTIONAL_COLUMNS ∧
    (∀ E N T, rows_at timestamp T (append_new_data E N)
              = option_list (last (rows_at timestamp T (E ++ N)))).
Proof.
  intros df w'.
  apply (backfill_keeps_first "EURUSD" TIMEFRAME_M1 repeated_world w' df).
  vm_compute. reflexivity.
Defined.

(** The run of the witness: of the two rates at 1000 the first is kept;
    the merge of the update path keeps the last. *)
Example first_against_last :
  fst (collect_maximum_data "EURUSD" TIMEFRAME_M1 repeated_world)
  = Ok (Some [bar_at 1000 1.5; bar_at 1060 3.5]) ∧
  append_new_data [bar_at 1000 1.5] [bar_at 1000 2.5; bar_at 1060 3.5]
  = [bar_at 1000 2.5; bar_at 1060 3.5].
Proof. vm_compute. split; reflexivity. Qed.

(** ** The update path *)

Lemma append_inj_r (s a b : string) : s +:+ a = s +:+ b → a = b.
Proof. induction s as [|c s IH]; simpl; [auto|]. intros [= H]. auto. Qed.

Lemma path_str_with_suffix_same (s : string) (p : Path) :
  suffix p = s → path_str (with_suffix s p) = path_str p.
Proof. intros <-. reflexivity. Qed.

Lemma path_str_with_suffix_ne (s : string) (p : Path) :
  suffix p ≠ s → path_str p ≠ path_str (with_suffix s p).
Proof.
  intros Hne H. apply Hne. unfold path_str, with_suffix in H. simpl in H.
  repeat apply append_inj_r in H. exact H.
Qed.

Lemma primary_ne_backup symbol category :
  primary_path symbol category ≠ backup_path symbol category.
Proof. apply path_str_with_suffix_ne. discriminate. Qed.

(** States that differ only in the number of clock readings taken. *)
Lemma now_inv {V} env (w : World V) :
  w_fs (snd (now env w)) = w_fs w ∧ w_log (snd (now env w)) = w_log w ∧
  w_faults (snd (now env w)) = w_faults w ∧
  w_vendor (snd (now env w)) = w_vendor w.
Proof. repeat split. Qed.

Section UpdateFacts.
Context {V : Vendor} (env : Env).
Implicit Types w : World V.

Lemma load_existing_data_parquet fp w df :
  w_fs w !! path_str fp = Some (Parquet df) →
  load_existing_data fp w = (Ok (Some df), w).
Proof.
  intros H. unfold load_existing_data, bind, path_exists, read_parquet.
  rewrite H. rewrite bool_decide_eq_true_2 by eauto. cbv beta iota.
  rewrite H. reflexivity.
Qed.

Lemma load_existing_data_missing fp w :
  w_fs w !! path_str fp = None → load_existing_data fp w = (Ok None, w).
Proof.
  intros H. unfold load_existing_data, bind, path_exists.
  rewrite H. rewrite bool_decide_eq_false_2 by (intros [? ?]; discriminate).
  reflexivity.
Qed.

Lemma load_existing_data_inv fp w r w' :
  load_existing_data fp w = (r, w') →
  w' = w ∧
  match r with
  | Ok (Some df) => w_fs w !! path_str fp = Some (Parquet df)
  | Ok None => w_fs w !! path_str fp = None
  | Raise e => e = ReadError
  end.
Proof.
  unfold load_existing_data, bind, path_exists, read_parquet.
  destruct (w_fs w !! path_str fp) as [[df| |]|] eqn:E.
  - rewrite bool_decide_eq_true_2 by eauto. cbv beta iota. rewrite E.
    intros [= <- <-]. auto.
  - rewrite bool_decide_eq_true_2 by eauto. cbv beta iota. rewrite E.
    intros [= <- <-]. auto.
  - rewrite bool_decide_eq_true_2 by eauto. cbv beta iota. rewrite E.
    intros [= <- <-]. auto.
  - rewrite bool_decide_eq_false_2 by (intros [? ?]; discriminate).
    intros [= <- <-]. auto.
Qed.

Lemma save_dataframe_parquet df fp :
  save_dataframe (V:=V) df fp config.SAVE_FORMAT
  = (write_file (path_str (with_suffix ".parquet" fp)) (Parquet df) ;;; ret tt).
Proof. reflexivity. Qed.

(** What the persistence step does to a dataset file that exists. *)
Lemma persist_spec merged_df fp w f :
  suffix fp = ".parquet"%string →
  w_fs w !! path_str fp = Some f →
  let p := path_str fp in
  let b := path_str (with_suffix ".parquet.backup" fp) in
  persist env merged_df fp w =
    match env_platform env, w_fs w !! b with
    | Windows, Some _ =>
        (Raise FileExistsError,
         mkWorld (w_vendor w) (w_fs w) (w_faults w) (w_ticks w)
                 (w_log w ++ [EvRename p b false]))
    | _, _ =>
        let renamed := <[b := f]> (delete p (w_fs w)) in
        match default WriteOk (head (w_faults w)) with
        | WriteOk =>
            (Ok true,
             mkWorld (w_vendor w)
                     (delete b (<[p := Parquet merged_df]> renamed))
                     (tail (w_faults w)) (w_ticks w)
                     (w_log w ++ [EvRename p b true; EvWrite p WriteOk;
                                  EvUnlink b]))
        | WriteFailsClean =>
            (Raise WriteError,
             mkWorld (w_vendor w) renamed (tail (w_faults w)) (w_ticks w)
                     (w_log w ++ [EvRename p b true;
                                  EvWrite p WriteFailsClean]))
        | WriteFailsPartial =>
            (Raise WriteError,
             mkWorld (w_vendor w) (<[p := Garbage]> renamed)
                     (tail (w_faults w)) (w_ticks w)
                     (w_log w ++ [EvRename p b true;
                                  EvWrite p WriteFailsPartial]))
        end
    end.
Proof.
  intros Hsuf Hf. cbv zeta.
  assert (Hpb : path_str fp ≠ path_str (with_suffix ".parquet.backup" fp)).
  { apply path_str_with_suffix_ne. rewrite Hsuf. discriminate. }
  unfold persist. rewrite save_dataframe_parquet.
  rewrite (path_str_with_suffix_same ".parquet") by assumption.
  set (p := path_str fp) in *.
  set (b := path_str (with_suffix ".parquet.backup" fp)) in *.
  unfold bind at 1. unfold path_exists at 1.
  rewrite bool_decide_eq_true_2 by (rewrite Hf; eauto).
  unfold bind at 1 2. unfold rename. rewrite Hf.
  assert (Hcase : (env_platform env = Windows ∧ is_Some (w_fs w !! b)) ∨
                  (env_platform env = Posix ∨ w_fs w !! b = None)).
  { destruct (env_platform env); [right; left; reflexivity|].
    destruct (w_fs w !! b); [left; eauto | right; right; reflexivity]. }
  destruct Hcase as [[-> [f' ->]]|Hok]; [reflexivity|].
  assert (Hren :
    match env_platform env, w_fs w !! b with
    | Windows, Some _ =>
        (Raise FileExistsError,
         mkWorld (w_vendor w) (w_fs w) (w_faults w) (w_ticks w)
                 (w_log w ++ [EvRename p b false]))
    | _, _ =>
        (Ok tt,
         mkWorld (w_vendor w) (<[b := f]> (delete p (w_fs w)))
                 (w_faults w) (w_ticks w) (w_log w ++ [EvRename p b true]))
    end
    = (Ok tt,
       mkWorld (w_vendor w) (<[b := f]> (delete p (w_fs w)))
               (w_faults w) (w_ticks w) (w_log w ++ [EvRename p b true]))).
  { destruct Hok as [->| ->]; [reflexivity|].
    destruct (env_platform env); reflexivity. }
  rewrite Hren. clear Hren.
  assert (Hgoal :
    ∀ X Y : Result bool * World V,
      (match env_platform env, w_fs w !! b with
       | Windows, Some _ => X
       | _, _ => Y
       end) = Y).
  { intros X Y. destruct Hok as [->| ->]; [reflexivity|].
    destruct (env_platform env); reflexivity. }
  rewrite Hgoal. clear Hgoal.
  unfold ret at 1. unfold bind at 1 2. unfold write_file.
  cbn [w_faults w_fs w_log w_vendor w_ticks].
  destruct (default WriteOk (head (w_faults w))).
  - unfold ret at 1. unfold bind at 1. unfold path_exists.
    cbn [w_faults w_fs w_log w_vendor w_ticks].
    rewrite bool_decide_eq_true_2.
    2:{ rewrite lookup_insert_ne by assumption. rewrite lookup_insert_eq. eauto. }
    unfold bind, unlink. cbn [w_faults w_fs w_log w_vendor w_ticks].
    rewrite lookup_insert_ne by assumption. rewrite lookup_insert_eq.
    unfold ret. rewrite <- !app_assoc. reflexivity.
  - rewrite <- !app_assoc. reflexivity.
  - rewrite <- !app_assoc. reflexivity.
Qed.

Lemma update_symbol_skip symbol category timeframe days w E :
  w_fs w !! primary_path symbol category = Some (Parquet E) →
  is_recent (env_clock env (w_ticks w)) E = true →
  update_symbol env symbol category timeframe days false w
  = (Ok true, snd (now env w)).
Proof.
  intros HE Hrecent. unfold update_symbol. cbv zeta.
  rewrite (bind_ok _ _ _ _ _ (load_existing_data_parquet _ _ _ HE)).
  simpl negb. cbv iota.
  erewrite bind_ok
    by (erewrite bind_ok by reflexivity; rewrite Hrecent; reflexivity).
  reflexivity.
Qed.

Lemma update_symbol_fetch symbol category timeframe days force w E :
  w_fs w !! primary_path symbol category = Some (Parquet E) →
  (force = false → is_recent (env_clock env (w_ticks w)) E = false) →
  update_symbol env symbol category timeframe days force w =
    let '(r, w1) :=
      collect_recent_data env symbol timeframe days
        (if force then w else snd (now env w)) in
    match r with
    | Ok (Some (b :: N)) =>
        let merged_df := append_new_data E (b :: N) in
        if bool_decide (Z.of_nat (length merged_df) - Z.of_nat (length E) ≤ 0)
        then (Ok true, w1)
        else persist env merged_df (get_data_filepath symbol (Some category)) w1
    | Ok _ => (Ok false, w1)
    | Raise e => (Raise e, w1)
    end.
Proof.
  intros HE Hrecent. unfold update_symbol. cbv zeta.
  rewrite (bind_ok _ _ _ _ _ (load_existing_data_parquet _ _ _ HE)).
  destruct force; simpl negb; cbv iota.
  - erewrite bind_ok by reflexivity. cbv iota. unfold bind.
    destruct (collect_recent_data env symbol timeframe days w)
      as [[[[|b N]|]|e] w1]; try reflexivity;
      cbv zeta; case_bool_decide; reflexivity.
  - erewrite bind_ok
      by (erewrite bind_ok by reflexivity; rewrite (Hrecent eq_refl);
          reflexivity).
    cbv iota. unfold bind.
    destruct (collect_recent_data env symbol timeframe days _)
      as [[[[|b N]|]|e] w1]; try reflexivity;
      cbv zeta; case_bool_decide; reflexivity.
Qed.
End UpdateFacts.

Lemma fs_events_app evs1 evs2 :
  fs_events (evs1 ++ evs2) = fs_events evs1 ++ fs_events evs2.
Proof. unfold fs_events. apply List.filter_app. Qed.

Lemma update_symbol_persisted {V} env symbol category timeframe days force
    (w w' : World V) r :
  update_symbol env symbol category timeframe days force w = (r, w') →
  ∃ evs, w_log w' = w_log w ++ evs ∧ Persisted symbol category w w' r evs.
Proof.
  intros Hrun.
  assert (Hnone : ∀ w0 : World V, w0 = w →
            ∃ evs, w_log w0 = w_log w ++ evs
                   ∧ Persisted symbol category w w0 r evs).
  { intros w0 ->. exists []. rewrite app_nil_r. split; [reflexivity|].
    apply NothingWritten; reflexivity. }
  destruct (w_fs w !! primary_path symbol category) as [[E| |]|] eqn:Hfile.
  2,3,4: unfold update_symbol in Hrun; cbv zeta in Hrun;
         apply bind_inv in Hrun as [(a & w1 & H1 & H2)|(e & H1 & ->)];
         apply load_existing_data_inv in H1 as [-> H1];
         fold (primary_path symbol category) in H1;
         [destruct a as [existing|]; [congruence|]; injection H2 as <- <-|];
         apply Hnone; reflexivity.
  destruct (bool_decide (force = false
                         ∧ is_recent (env_clock env (w_ticks w)) E = true))
    eqn:Hskip.
  { apply bool_decide_eq_true in Hskip as [-> Hrecent].
    rewrite (update_symbol_skip env _ _ _ _ _ _ Hfile Hrecent) in Hrun.
    injection Hrun as <- <-. exists []. rewrite app_nil_r.
    split; [reflexivity|]. apply NothingWritten; reflexivity. }
  apply bool_decide_eq_false in Hskip.
  rewrite (update_symbol_fetch env _ _ _ _ force _ _ Hfile) in Hrun.
  2:{ intros ->. destruct (is_recent _ E); [|reflexivity].
      exfalso. apply Hskip. split; reflexivity. }
  set (w0 := if force then w else snd (now env w)) in *.
  assert (Hw0 : w_fs w0 = w_fs w ∧ w_log w0 = w_log w)
    by (subst w0; destruct force; split; reflexivity).
  destruct Hw0 as [Hfs0 Hlog0].
  destruct (collect_recent_data env symbol timeframe days w0) as [rf w1] eqn:Hf.
  apply collect_recent_data_vendor_step in Hf as (Hfs1 & _ & evs1 & Hlog1 & Hev1).
  rewrite Hfs0 in Hfs1. rewrite Hlog0 in Hlog1.
  assert (Hquiet : ∀ r0, (r, w') = (r0, w1) →
            ∃ evs, w_log w' = w_log w ++ evs
                   ∧ Persisted symbol category w w' r evs).
  { intros r0 [= -> ->]. exists evs1. split; [assumption|].
    apply NothingWritten; assumption. }
  destruct rf as [[[|b N]|]|e]; try (eapply Hquiet; symmetry; exact Hrun).
  cbv zeta in Hrun. case_bool_decide as Hrows;
    [eapply Hquiet; symmetry; exact Hrun|].
  rewrite <- Hfs1 in Hfile.
  rewrite (persist_spec env _ (get_data_filepath symbol (Some category))
             _ _ eq_refl Hfile) in Hrun.
  fold (primary_path symbol category) (backup_path symbol category) in Hrun.
  pose proof (primary_ne_backup symbol category) as Hpb.
  rewrite Hfs1 in Hfile.
  destruct (env_platform env) eqn:Hplat;
    [|destruct (w_fs w1 !! backup_path symbol category) eqn:Hb].
  2:{ injection Hrun as <- <-. eexists. split.
      - simpl. rewrite Hlog1, <- app_assoc. reflexivity.
      - apply RenameRefused; [|assumption|reflexivity].
        rewrite fs_events_app, Hev1. reflexivity. }
  all: cbv zeta in Hrun;
    destruct (default WriteOk (head (w_faults w1))) eqn:Hfault;
    injection Hrun as <- <-;
    (eexists; split; [simpl; rewrite Hlog1, <- app_assoc; reflexivity|]).
  all: first
    [ apply (Replaced _ _ _ _ _ _ E (b :: N));
        [assumption | rewrite fs_events_app, Hev1; reflexivity | reflexivity
        | simpl; rewrite lookup_delete_ne by (symmetry; assumption);
          apply lookup_insert_eq
        | simpl; apply lookup_delete_eq ]
    | eapply (WriteFailed _ _ _ _ _ _ E);
        [assumption | | rewrite fs_events_app, Hev1; reflexivity | reflexivity
        | simpl; rewrite ?lookup_insert_ne by assumption;
          apply lookup_insert_eq ]; discriminate ].
Qed.

(** The persistence step in full: a run whose merge has more rows than
    the dataset reaches it, and this is what it does. *)
Lemma update_symbol_persists {V} env symbol category timeframe days force
    (w w1 : World V) E N :
  w_fs w !! primary_path symbol category = Some (Parquet E) →
  (force = false → is_recent (env_clock env (w_ticks w)) E = false) →
  collect_recent_data env symbol timeframe days
    (if force then w else snd (now env w)) = (Ok (Some N), w1) →
  (length E < length (append_new_data E N))%nat →
  let p := primary_path symbol category in
  let b := backup_path symbol category in
  let renamed := <[b := Parquet E]> (delete p (w_fs w)) in
  ∃ evs1,
    w_log w1 = w_log w ++ evs1 ∧ fs_events evs1 = [] ∧
    update_symbol env symbol category timeframe days force w =
      match env_platform env, w_fs w !! b with
      | Windows, Some _ =>
          (Raise FileExistsError,
           mkWorld (w_vendor w1) (w_fs w) (w_faults w) (w_ticks w1)
                   (w_log w ++ evs1 ++ [EvRename p b false]))
      | _, _ =>
          match default WriteOk (head (w_faults w)) with
          | WriteOk =>
              (Ok true,
               mkWorld (w_vendor w1)
                       (delete b (<[p := Parquet (append_new_data E N)]> renamed))
                       (tail (w_faults w)) (w_ticks w1)
                       (w_log w ++ evs1 ++ [EvRename p b true; EvWrite p WriteOk;
                                            EvUnlink b]))
          | WriteFailsClean =>
              (Raise WriteError,
               mkWorld (w_vendor w1) renamed (tail (w_faults w)) (w_ticks w1)
                       (w_log w ++ evs1 ++ [EvRename p b true;
                                            EvWrite p WriteFailsClean]))
          | WriteFailsPartial =>
              (Raise WriteError,
               mkWorld (w_vendor w1) (<[p := Garbage]> renamed)
                       (tail (w_faults w)) (w_ticks w1)
                       (w_log w ++ evs1 ++ [EvRename p b true;
                                            EvWrite p WriteFailsPartial]))
          end
      end.
Proof.
  intros Hfile Hrecent Hfetch Hlen p b renamed.
  rewrite (update_symbol_fetch env _ _ _ _ force _ _ Hfile Hrecent), Hfetch.
  pose proof (collect_recent_data_vendor_step _ _ _ _ _ _ _ Hfetch)
    as (Hfs1 & Hfa1 & evs1 & Hlog1 & Hev1).
  assert (Hw0 : w_fs (if force then w else snd (now env w)) = w_fs w ∧
                w_faults (if force then w else snd (now env w)) = w_faults w ∧
                w_log (if force then w else snd (now env w)) = w_log w)
    by (destruct force; repeat split).
  destruct Hw0 as (Hfs0 & Hfa0 & Hlog0).
  rewrite Hfs0 in Hfs1. rewrite Hfa0 in Hfa1. rewrite Hlog0 in Hlog1.
  exists evs1. split; [exact Hlog1|]. split; [exact Hev1|].
  destruct N as [|n N].
  { exfalso.
    assert (length (append_new_data E []) ≤ length E)%nat
      by (apply append_new_data_no_new_rows; intros x Hx; inversion Hx).
    lia. }
  cbv zeta. rewrite bool_decide_eq_false_2 by lia.
  rewrite <- Hfs1 in Hfile.
  rewrite (persist_spec env _ (get_data_filepath symbol (Some category))
             _ _ eq_refl Hfile).
  fold (primary_path symbol category) (backup_path symbol category).
  fold p b. rewrite Hfs1, Hfa1, Hlog1. fold renamed.
  rewrite <- !app_assoc. reflexivity.
Qed.

(** ** C3 *)

(** C3 (backup, then replace).  In every run of [update_symbol] the
    changes to the file system are, in this order, the rename of the
    dataset file to its backup name, the write of the merged frame to the
    primary path and the removal of the backup, or a prefix of these: the
    backup is removed only after a write that went through.  In every run
    in which the write fails, the backup is still there afterwards and
    holds the dataset as it was before the run.

    The persistence step is reached by every run whose merge has more
    rows than the dataset, and there these changes do take place: the
    dataset is renamed to the backup name (unless, on Windows, a backup
    is in the way, in which case the run raises with the disk as it was);
    then the merged frame is written to the primary path; when the write
    goes through the backup is removed and the run returns [True], and
    when it fails the run raises with the dataset under the backup name
    and nothing, or a truncated file, at the primary path. *)
Theorem backup_then_replace {V} (env : Env) (symbol category : string)
    (timeframe : Timeframe) (days : Z) (force : bool) (w w' : World V)
    (r : Result bool) :
  update_symbol env symbol category timeframe days force w = (r, w') →
  let p := primary_path symbol category in
  let b := backup_path symbol category in
  ∃ evs,
    w_log w' = w_log w ++ evs ∧
    Persisted symbol category w w' r evs ∧
    (∀ path fault,
       EvWrite path fault ∈ evs → fault ≠ WriteOk →
       ∃ E, w_fs w !! p = Some (Parquet E) ∧ w_fs w' !! b = Some (Parquet E)) ∧
    (∀ path, EvUnlink path ∈ evs →
             path = b ∧ EvWrite p WriteOk ∈ evs) ∧
    (∀ E N w1,
       w_fs w !! p = Some (Parquet E) →
       (force = false → is_recent (env_clock env (w_ticks w)) E = false) →
       collect_recent_data env symbol timeframe days
         (if force then w else snd (now env w)) = (Ok (Some N), w1) →
       (length E < length (append_new_data E N))%nat →
       let renamed := <[b := Parquet E]> (delete p (w_fs w)) in
       match env_platform env, w_fs w !! b with
       | Windows, Some _ =>
           r = Raise FileExistsError ∧
           fs_events evs = [EvRename p b false] ∧
           w_fs w' = w_fs w
       | _, _ =>
           match default WriteOk (head (w_faults w)) with
           | WriteOk =>
               r = Ok true ∧
               fs_events evs
               = [EvRename p b true; EvWrite p WriteOk; EvUnlink b] ∧
               w_fs w'
               = delete b (<[p := Parquet (append_new_data E N)]> renamed)
           | WriteFailsClean =>
               r = Raise WriteError ∧
               fs_events evs
               = [EvRename p b true; EvWrite p WriteFailsClean] ∧
               w_fs w' = renamed
           | WriteFailsPartial =>
               r = Raise WriteError ∧
               fs_events evs
               = [EvRename p b true; EvWrite p WriteFailsPartial] ∧
               w_fs w' = <[p := Garbage]> renamed
           end
       end).
Proof.
  intros Hrun p b. subst p b.
  destruct (update_symbol_persisted env _ _ _ _ _ _ _ _ Hrun) as (evs & Hlog & HP).
  exists evs. split; [exact Hlog|]. split; [exact HP|].
  assert (Hfs : ∀ e, is_fs_event e = true → e ∈ evs → e ∈ fs_events evs).
  { intros e He Hin. apply list_elem_of_In, filter_In.
    split; [apply list_elem_of_In|]; assumption. }
  assert (Hback : ∀ e, e ∈ fs_events evs → e ∈ evs).
  { intros e Hin. apply list_elem_of_In, filter_In in Hin as [Hin _].
    apply list_elem_of_In. assumption. }
  split; [|split].
  - intros path fault Hin Hfault. apply (Hfs (EvWrite path fault) eq_refl) in Hin.
    destruct HP as [He _|He _ _|E m _ He _ _ _|E f HE _ He _ Hb];
      rewrite He in Hin.
    + apply elem_of_nil in Hin. contradiction.
    + apply list_elem_of_singleton in Hin. discriminate.
    + repeat (apply elem_of_cons in Hin as [Hin|Hin]; [congruence|]).
      apply elem_of_nil in Hin. contradiction.
    + eauto.
  - intros path Hin. apply (Hfs (EvUnlink path) eq_refl) in Hin.
    destruct HP as [He _|He _ _|E m _ He _ _ _|E f HE _ He _ Hb];
      rewrite He in Hin.
    + apply elem_of_nil in Hin. contradiction.
    + apply list_elem_of_singleton in Hin. discriminate.
    + split.
      * repeat (apply elem_of_cons in Hin as [Hin|Hin]; [congruence|]).
        apply elem_of_nil in Hin. contradiction.
      * apply Hback. rewrite He.
        apply list_elem_of_further, list_elem_of_here.
    + repeat (apply elem_of_cons in Hin as [Hin|Hin]; [congruence|]).
      apply elem_of_nil in Hin. contradiction.
  - intros E N w1 Hfile Hrecent Hfetch Hlen renamed. subst renamed.
    pose proof (update_symbol_persists env _ _ _ _ _ _ _ _ _
                  Hfile Hrecent Hfetch Hlen) as Hstep.
    cbv zeta in Hstep. destruct Hstep as (evs1 & _ & Hev1 & Heq).
    rewrite Hrun in Heq.
    assert (Hevs : ∀ (x : Result bool) v fs fa ti tl,
              (r, w') = (x, mkWorld v fs fa ti (w_log w ++ evs1 ++ tl)) →
              r = x ∧ fs_events evs = fs_events tl ∧ w_fs w' = fs).
    { intros x v fs fa ti tl [= -> ->]. cbn [w_log w_fs] in *.
      apply app_inv_head in Hlog. subst evs.
      rewrite fs_events_app, Hev1. auto. }
    destruct (env_platform env);
      [|destruct (w_fs w !! backup_path symbol category)].
    all: try (destruct (default WriteOk (head (w_faults w))));
      apply Hevs in Heq as (-> & -> & ->); repeat split.
Qed.

Section FetchLog.
Context {V : Vendor} (env : Env).
Implicit Types w : World V.

(** The first thing [find_symbol] does is to look a symbol up. *)
Lemma find_symbol_log symbol w r w1 :
  find_symbol symbol w = (r, w1) →
  ∃ a evs, w_log w1 = w_log w ++ EvSymbolInfo a :: evs.
Proof.
  unfold find_symbol.
  destruct (alternatives_nonempty symbol) as (a & alts & ->).
  cbn [find_symbol_in]. intros H.
  apply bind_inv in H as [(info & w0 & H1 & H2)|(e & H1 & _)];
    unfold mt5_symbol_info, call_vendor in H1;
    destruct (symbol_info V a (w_vendor w)) as [i v]; [|discriminate].
  injection H1 as <- <-.
  assert (Hk : vendor_step
                 (mkWorld v (w_fs w) (w_faults w) (w_ticks w)
                          (w_log w ++ [EvSymbolInfo a])) w1).
  { destruct i as [info|].
    - destruct (negb (si_visible info)).
      + revert H2. apply preserves_bind;
          [apply _ | apply preserves_call_vendor; reflexivity |].
        intros [|]; [apply preserves_ret; apply _
                    | apply find_symbol_in_vendor_step].
      + injection H2 as _ <-. reflexivity.
    - eapply find_symbol_in_vendor_step. exact H2. }
  destruct Hk as (_ & _ & evs & Hlog & _). simpl in Hlog.
  exists a, evs. rewrite Hlog, <- app_assoc. reflexivity.
Qed.

(** The fetch looks the symbol up and, when it resolves, asks for the
    most recent [bars_to_fetch days] bars. *)
Lemma collect_recent_data_log symbol timeframe days w r w1 :
  collect_recent_data env symbol timeframe days w = (r, w1) →
  ∃ a evs,
    w_log w1 = w_log w ++ EvSymbolInfo a :: evs ∧
    ∀ actual w0,
      find_symbol symbol w = (Ok (Some actual), w0) →
      EvCopyRatesFromPos actual timeframe 0 (bars_to_fetch days) ∈ evs.
Proof.
  unfold collect_recent_data. intros H.
  apply bind_inv in H as [(actual & w0 & H1 & H2)|(e & H1 & _)].
  - destruct (find_symbol_log _ _ _ _ H1) as (a & evs & Hlog).
    destruct actual as [actual|].
    + assert (Hlast : w_log w1 = w_log w0 ++
                [EvCopyRatesFromPos actual timeframe 0 (bars_to_fetch days)]).
      { unfold bind, now, mt5_copy_rates_from_pos, call_vendor in H2.
        simpl in H2.
        destruct (copy_rates_from_pos V actual timeframe 0 (bars_to_fetch days)
                    (w_vendor w0)) as [[[|r0 rs]|] v];
          injection H2 as _ <-; reflexivity. }
      exists a, (evs ++ [EvCopyRatesFromPos actual timeframe 0
                           (bars_to_fetch days)]).
      split.
      * rewrite Hlast, Hlog, <- app_assoc. reflexivity.
      * intros actual' w0' Hfind. rewrite H1 in Hfind.
        injection Hfind as <- _. apply elem_of_app. right.
        apply list_elem_of_here.
    + injection H2 as _ <-. exists a, evs. split; [assumption|].
      intros actual' w0' Hfind. rewrite H1 in Hfind. discriminate.
  - destruct (find_symbol_log _ _ _ _ H1) as (a & evs & Hlog).
    exists a, evs. split; [assumption|].
    intros actual' w0' Hfind. rewrite H1 in Hfind. discriminate.
Qed.
End FetchLog.

(** ** C7 *)

(** C7 (freshness skip).  For a dataset whose latest timestamp is less
    than twelve hours behind the clock reading, [update_symbol] without
    the force flag returns success, calls the vendor not at all and
    leaves the file system as it is.  With the force flag the fetch is
    run all the same: the vendor is asked for the symbol, and for the
    recent bars once the symbol resolves. *)
Theorem freshness_skip {V} (env : Env) (symbol category : string)
    (timeframe : Timeframe) (days : Z) (w : World V) (E : list Bar)
    (latest : Z) :
  w_fs w !! primary_path symbol category = Some (Parquet E) →
  key_max timestamp E = Some latest →
  env_clock env (w_ticks w) - microseconds latest < microseconds (12 * 3600) →
  (∃ w', update_symbol env symbol category timeframe days false w
         = (Ok true, w') ∧
         w_log w' = w_log w ∧ w_fs w' = w_fs w ∧ w_vendor w' = w_vendor w) ∧
  (∃ r w' a evs,
     update_symbol env symbol category timeframe days true w = (r, w') ∧
     w_log w' = w_log w ++ EvSymbolInfo a :: evs ∧
     ∀ actual w0,
       find_symbol symbol w = (Ok (Some actual), w0) →
       EvCopyRatesFromPos actual timeframe 0 (bars_to_fetch days) ∈ evs).
Proof.
  intros Hfile Hmax Hage. split.
  - eexists. split.
    + apply update_symbol_skip with (E := E); [assumption|].
      unfold is_recent. rewrite Hmax. apply bool_decide_eq_true. assumption.
    + repeat split.
  - destruct (update_symbol env symbol category timeframe days true w)
      as [r w'] eqn:Hrun.
    rewrite (update_symbol_fetch env _ _ _ _ true _ _ Hfile) in Hrun
      by discriminate.
    destruct (collect_recent_data env symbol timeframe days w)
      as [rf w1] eqn:Hf.
    pose proof Hf as Hstep.
    apply collect_recent_data_vendor_step in Hstep as (Hfs1 & _).
    apply collect_recent_data_log in Hf as (a & evs & Hlog & Hcall).
    assert (Hext : ∃ evs2, w_log w' = w_log w1 ++ evs2).
    { assert (Hsame : ∀ r0, (r0, w1) = (r, w') →
                ∃ evs2, w_log w' = w_log w1 ++ evs2).
      { intros r0 [= _ <-]. exists []. rewrite app_nil_r. reflexivity. }
      destruct rf as [[[|b N]|]|e]; try (eapply Hsame; exact Hrun).
      cbv zeta in Hrun. case_bool_decide; [eapply Hsame; exact Hrun|].
      rewrite <- Hfs1 in Hfile.
      rewrite (persist_spec env _ (get_data_filepath symbol (Some category))
                 _ _ eq_refl Hfile) in Hrun.
      destruct (env_platform env).
      - cbv zeta in Hrun.
        destruct (default WriteOk (head (w_faults w1)));
          injection Hrun as _ <-; eexists; reflexivity.
      - destruct (w_fs w1 !! path_str (with_suffix ".parquet.backup" _)).
        + injection Hrun as _ <-; eexists; reflexivity.
        + cbv zeta in Hrun.
          destruct (default WriteOk (head (w_faults w1)));
            injection Hrun as _ <-; eexists; reflexivity. }
    destruct Hext as (evs2 & Hlog2).
    exists r, w', a, (evs ++ evs2). split; [reflexivity|]. split.
    + rewrite Hlog2, Hlog, <- app_assoc. reflexivity.
    + intros actual w0 Hfind. apply elem_of_app. left. eauto.
Qed.

Section NoNewRows.
Context {V : Vendor} (env : Env).

(** A fetch that brings bars, none at a timestamp the dataset lacks, ends
    the update at once. *)
Lemma update_symbol_no_new_rows symbol category timeframe days force
    (w w1 : World V) E N :
  w_fs w !! primary_path symbol category = Some (Parquet E) →
  (force = false → is_recent (env_clock env (w_ticks w)) E = false) →
  collect_recent_data env symbol timeframe days
    (if force then w else snd (now env w)) = (Ok (Some N), w1) →
  N ≠ [] →
  (∀ b, b ∈ N → timestamp b ∈ timestamp <$> E) →
  update_symbol env symbol category timeframe days force w = (Ok true, w1).
Proof.
  intros Hfile Hrecent Hfetch HN Hsub.
  rewrite (update_symbol_fetch env _ _ _ _ force _ _ Hfile Hrecent), Hfetch.
  destruct N as [|b N]; [contradiction|]. cbv zeta.
  rewrite bool_decide_eq_true_2; [reflexivity|].
  pose proof (append_new_data_no_new_rows E (b :: N) Hsub). lia.
Qed.

(** A fetch that brings bars never makes the update return [False]. *)
Lemma update_symbol_fetched symbol category timeframe days force
    (w w1 : World V) E N :
  w_fs w !! primary_path symbol category = Some (Parquet E) →
  (force = false → is_recent (env_clock env (w_ticks w)) E = false) →
  collect_recent_data env symbol timeframe days
    (if force then w else snd (now env w)) = (Ok (Some N), w1) →
  N ≠ [] →
  ∃ r w',
    update_symbol env symbol category timeframe days force w = (r, w') ∧
    r ≠ Ok false ∧
    (default WriteOk (head (w_faults w)) = WriteOk →
     env_platform env = Posix ∨ w_fs w !! backup_path symbol category = None →
     r = Ok true).
Proof.
  intros Hfile Hrecent Hfetch HN.
  rewrite (update_symbol_fetch env _ _ _ _ force _ _ Hfile Hrecent), Hfetch.
  destruct N as [|b N]; [contradiction|]. cbv zeta.
  case_bool_decide as Hrows.
  { eexists _, _. split; [reflexivity|]. split; [discriminate|]. reflexivity. }
  apply collect_recent_data_vendor_step in Hfetch as (Hfs1 & Hq1 & _).
  assert (Hfs0 : ∀ w0 : World V, w0 = (if force then w else snd (now env w)) →
                   w_fs w0 = w_fs w ∧ w_faults w0 = w_faults w).
  { intros w0 ->. destruct force; split; reflexivity. }
  destruct (Hfs0 _ eq_refl) as [Hfs0' Hq0']. rewrite Hfs0' in Hfs1.
  rewrite Hq0' in Hq1. clear Hfs0 Hfs0' Hq0'.
  rewrite <- Hfs1 in Hfile.
  rewrite (persist_spec env _ (get_data_filepath symbol (Some category))
             _ _ eq_refl Hfile).
  fold (backup_path symbol category). rewrite Hfs1, Hq1.
  destruct (env_platform env) eqn:Hplat.
  - cbv zeta. destruct (default WriteOk (head (w_faults w))) eqn:Hfault;
      (eexists _, _; split; [reflexivity|]; split; [discriminate|]);
      intros; congruence.
  - destruct (w_fs w !! backup_path symbol category) eqn:Hb.
    + eexists _, _. split; [reflexivity|]. split; [discriminate|].
      intros _ [?|?]; congruence.
    + cbv zeta. destruct (default WriteOk (head (w_faults w))) eqn:Hfault;
        (eexists _, _; split; [reflexivity|]; split; [discriminate|]);
        intros; congruence.
Qed.
End NoNewRows.

(** ** C8 *)


(** ** C9 *)

(** C9 (refetched values are not persisted), as amended.  When the fetch
    returns at least one bar and every fetched timestamp already occurs
    in the existing dataset, the merged frame has no more rows than the
    existing one and [update_symbol] returns success without any change
    to the file system, with or without the force flag: whatever the
    fetched bars hold at those timestamps is not persisted. *)
Theorem refetched_values_not_persisted {V} (env : Env)
    (symbol category : string) (timeframe : Timeframe) (days : Z)
    (force : bool) (w w1 : World V) (E N : list Bar) :
  w_fs w !! primary_path symbol category = Some (Parquet E) →
  (force = false → is_recent (env_clock env (w_ticks w)) E = false) →
  collect_recent_data env symbol timeframe days
    (if force then w else snd (now env w)) = (Ok (Some N), w1) →
  N ≠ [] →
  (∀ b, b ∈ N → timestamp b ∈ timestamp <$> E) →
  (length (append_new_data E N) ≤ length E)%nat ∧
  update_symbol env symbol category timeframe days force w = (Ok true, w1) ∧
  w_fs w1 = w_fs w ∧
  ∃ evs, w_log w1 = w_log w ++ evs ∧ fs_events evs = [].
Proof.
  intros Hfile Hrecent Hfetch HN Hsub.
  split; [apply append_new_data_no_new_rows; assumption|].
  split; [eapply update_symbol_no_new_rows; eassumption|].
  apply collect_recent_data_vendor_step in Hfetch as (Hfs1 & _ & evs & Hlog & Hev).
  split.
  - rewrite Hfs1. destruct force; reflexivity.
  - exists evs. split; [|assumption].
    rewrite Hlog. destruct force; reflexivity.
Qed.



Lemma refetched_values_not_persisted_witness :
  let env := sample_env Posix in
  let w := update_world stored_dataset [Some [rate_at (8 * day + 60) 2]] [] in
  let w1 := snd (collect_recent_data env "EURUSD" TIMEFRAME_M1 7 w) in
  (length (append_new_data stored_dataset [bar_at (8 * day + 60) 2])
   ≤ length stored_dataset)%nat ∧
  update_symbol env "EURUSD" "fx" TIMEFRAME_M1 7 true w = (Ok true, w1) ∧
  w_fs w1 = w_fs w ∧
  ∃ evs, w_log w1 = w_log w ++ evs ∧ fs_events evs = [].
Proof.
  intros env w w1.
  apply (refetched_values_not_persisted env "EURUSD" "fx" TIMEFRAME_M1 7 true
           w w1 stored_dataset [bar_at (8 * day + 60) 2]).
  - vm_compute. reflexivity.
  - discriminate.
  - vm_compute. reflexivity.
  - discriminate.
  - intros b Hb. apply list_elem_of_singleton in Hb as ->.
    apply list_elem_of_further, list_elem_of_here.
Defined.

(** C9 fails as stated when the fetch comes back empty: every fetched
    timestamp is then in the dataset, there being none, and the update
    returns [False], also under the force flag. *)
Lemma refetched_values_counterexample :
  let env := sample_env Posix in
  let w := update_world stored_dataset [Some [rate_at (8 * day) 5]] [] in
  w_fs w !! primary_path "EURUSD" "fx" = Some (Parquet stored_dataset) ∧
  fst (collect_recent_data env "EURUSD" TIMEFRAME_M1 1 w) = Ok (Some []) ∧
  fst (update_symbol env "EURUSD" "fx" TIMEFRAME_M1 1 true w) = Ok false.
Proof. vm_compute. repeat split. Qed.

Lemma backup_then_replace_witness :
  let env := sample_env Posix in
  let w := update_world stored_dataset [Some [rate_at (9 * day) 2]]
             [WriteFailsPartial] in
  let run := update_symbol env "EURUSD" "fx" TIMEFRAME_M1 7 false w in
  let p := primary_path "EURUSD" "fx" in
  let b := backup_path "EURUSD" "fx" in
  ∃ evs,
    w_log (snd run) = w_log w ++ evs ∧
    Persisted "EURUSD" "fx" w (snd run) (fst run) evs ∧
    (∀ path fault,
       EvWrite path fault ∈ evs → fault ≠ WriteOk →
       ∃ E, w_fs w !! p = Some (Parquet E) ∧
            w_fs (snd run) !! b = Some (Parquet E)) ∧
    (∀ path, EvUnlink path ∈ evs → path = b ∧ EvWrite p WriteOk ∈ evs) ∧
    fst run = Raise WriteError ∧
    fs_events evs = [EvRename p b true; EvWrite p WriteFailsPartial] ∧
    w_fs (snd run)
    = <[p := Garbage]> (<[b := Parquet stored_dataset]> (delete p (w_fs w))).
Proof.
  intros env w run p b.
  destruct (backup_then_replace env "EURUSD" "fx" TIMEFRAME_M1 7 false w
              (snd run) (fst run))
    as (evs & Hlog & HP & Hwrite & Hunlink & Hstep);
    [vm_compute; reflexivity|].
  exists evs. split; [exact Hlog|]. split; [exact HP|].
  split; [exact Hwrite|]. split; [exact Hunlink|].
  apply (Hstep stored_dataset [bar_at (9 * day) 2]
           (snd (collect_recent_data env "EURUSD" TIMEFRAME_M1 7
                   (snd (now env w))))).
  - vm_compute. reflexivity.
  - intros _. vm_compute. reflexivity.
  - vm_compute. reflexivity.
  - vm_compute. lia.
Defined.

(** The run of the witness: the write fails half way, the update raises,
    and the disk holds the old dataset under the backup name. *)
Example failed_write_leaves_backup :
  let w := update_world stored_dataset [Some [rate_at (9 * day) 2]]
             [WriteFailsPartial] in
  let run := update_symbol (sample_env Posix) "EURUSD" "fx" TIMEFRAME_M1 7
               false w in
  fst run = Raise WriteError ∧
  w_fs (snd run) !! backup_path "EURUSD" "fx" = Some (Parquet stored_dataset) ∧
  w_fs (snd run) !! primary_path "EURUSD" "fx" = Some Garbage ∧
  fs_events (w_log (snd run))
  = [EvRename (primary_path "EURUSD" "fx") (backup_path "EURUSD" "fx") true;
     EvWrite (primary_path "EURUSD" "fx") WriteFailsPartial].
Proof. vm_compute. repeat split. Qed.

Lemma freshness_skip_witness :
  let env := sample_env Posix in
  let w := update_world fresh_dataset [Some [rate_at (10 * day) 2]] [] in
  (∃ w', update_symbol env "EURUSD" "fx" TIMEFRAME_M1 7 false w
         = (Ok true, w') ∧
         w_log w' = w_log w ∧ w_fs w' = w_fs w ∧ w_vendor w' = w_vendor w) ∧
  (∃ r w' a evs,
     update_symbol env "EURUSD" "fx" TIMEFRAME_M1 7 true w = (r, w') ∧
     w_log w' = w_log w ++ EvSymbolInfo a :: evs ∧
     ∀ actual w0,
       find_symbol "EURUSD" w = (Ok (Some actual), w0) →
       EvCopyRatesFromPos actual TIMEFRAME_M1 0 (bars_to_fetch 7) ∈ evs).
Proof.
  intros env w.
  apply (freshness_skip env "EURUSD" "fx" TIMEFRAME_M1 7 w fresh_dataset
           (10 * day - 3600)).
  - vm_compute. reflexivity.
  - vm_compute. reflexivity.
  - vm_compute. reflexivity.
Defined.

(** ** The quality checker *)

Section CheckerFacts.
Import check_data.


Lemma elem_of_warning (f : nat → Line) (n : nat) (line : Line) :
  line ∈ (if bool_decide (0 < n)%nat then [f n] else []) ↔
  line = f n ∧ (0 < n)%nat.
Proof.
  case_bool_decide; rewrite ?list_elem_of_singleton, ?elem_of_nil; tauto.
Qed.

(** ** C10 *)



(** A file with a repeated timestamp, a row of missing values and a gap
    of two and a half hours passes, with its three warnings; a file that
    a write left truncated does not parse, and fails. *)
Example checker_warnings_reported :
  check_file
    (Some (mkStored 4096
             (Some (mkFrame canonical_columns
                      [sample_row (Some 0) 1; sample_row (Some 0) 1;
                       sample_row None nan; sample_row (Some 9000) 2]))))
  = (true,
     [Header; Rows 4; DateRange (Some 0) (Some 9000); TimeSpan (Some 0);
      WarnDuplicates 1; WarnMissing 5; InfoLargeGaps 1; FileSize 4096;
      PriceRange (Some 1%float) (Some 2%float); Blank]) ∧
  check_file (Some (mkStored 17 None)) = (false, [ErrorReading; Blank]).
Proof. vm_compute. split; reflexivity. Qed.

(** The tally counts the symbols whose file [check_file] passes. *)
Lemma tally_counts disk base_dir symbols :
  tally disk base_dir symbols =
    (length symbols,
     length (List.filter
               (λ symbol, fst (check_file (disk !! data_file base_dir symbol)))
               symbols)).
Proof.
  unfold tally.
  assert (H : ∀ checked ok,
    foldl (λ '(checked, ok) symbol,
             (S checked,
              if fst (check_file (disk !! data_file base_dir symbol))
              then S ok else ok)) (checked, ok) symbols
    = ((checked + length symbols)%nat,
       (ok + length (List.filter
                  (λ symbol,
                     fst (check_file (disk !! data_file base_dir symbol)))
                  symbols))%nat)).
  { induction symbols as [|s l IH]; intros checked ok; simpl.
    - f_equal; lia.
    - rewrite IH.
      destruct (fst (check_file (disk !! data_file base_dir s)));
        simpl; f_equal; lia. }
  apply (H 0%nat 0%nat).
Qed.
End CheckerFacts.

(** ** More on frames *)

Section AscendingFrames.
Context {A : Type} (key : A → Z).

(** An ascending frame is determined by its rows at each key. *)
Lemma ascending_ext (l1 l2 : list A) :
  ascending key l1 → ascending key l2 →
  (∀ T, rows_at key T l1 = rows_at key T l2) → l1 = l2.
Proof.
  intros H1 H2 Hrows. apply (sorted_permutation_unique key); [assumption..|].
  apply NoDup_Permutation.
  - eapply NoDup_fmap_1, ascending_nodup. eassumption.
  - eapply NoDup_fmap_1, ascending_nodup. eassumption.
  - intros x. transitivity (x ∈ rows_at key (key x) l1).
    + rewrite rows_at_elem. tauto.
    + rewrite Hrows, rows_at_elem. tauto.
Qed.

Lemma rows_at_app T (l1 l2 : list A) :
  rows_at key T (l1 ++ l2) = rows_at key T l1 ++ rows_at key T l2.
Proof. apply filter_app. Qed.

Lemma rows_at_unique (l : list A) (x : A) :
  NoDup (key <$> l) → x ∈ l → rows_at key (key x) l = [x].
Proof.
  induction l as [|y l IH]; intros Hnd Hx.
  - apply elem_of_nil in Hx. contradiction.
  - rewrite fmap_cons in Hnd. apply NoDup_cons in Hnd as [Hy Hnd].
    rewrite rows_at_cons. apply elem_of_cons in Hx as [->|Hx].
    + rewrite decide_True by reflexivity. f_equal.
      apply rows_at_nil_iff. assumption.
    + rewrite decide_False; [auto|].
      intros Heq. apply Hy. rewrite Heq. apply list_elem_of_fmap_2. assumption.
Qed.
End AscendingFrames.

Lemma last_option_list {A} (o : option A) : last (option_list o) = o.
Proof. destruct o; reflexivity. Qed.

Lemma last_last_app {A} (l1 l2 : list A) :
  last (option_list (last l1) ++ l2) = last (l1 ++ l2).
Proof. rewrite !last_app, last_option_list. reflexivity. Qed.

Lemma elem_of_option_list_last {A} (l : list A) (x : A) :
  x ∈ option_list (last l) → x ∈ l.
Proof.
  destruct (last l) as [y|] eqn:E; simpl; [|intros H; inversion H].
  intros ->%list_elem_of_singleton.
  apply last_Some in E as [l' ->]. apply elem_of_app. right. left.
Qed.

Lemma append_new_data_elem (E N : list Bar) (b : Bar) :
  b ∈ append_new_data E N → b ∈ E ∨ b ∈ N.
Proof.
  intros Hb. apply elem_of_app.
  assert (Hb' : b ∈ rows_at timestamp (timestamp b) (append_new_data E N))
    by (apply rows_at_elem; auto).
  rewrite append_new_data_rows_at in Hb'.
  apply elem_of_option_list_last, rows_at_elem in Hb'. tauto.
Qed.

(** X10 (the merge selects rows).  Every row of the merge is a row of
    the existing frame or of the new one; the timestamps of the merge are
    exactly those of the two frames together; and the merge has at most
    as many rows as the two frames together. *)
Theorem append_new_data_selects_rows (E N : list Bar) :
  (∀ b, b ∈ append_new_data E N → b ∈ E ∨ b ∈ N) ∧
  (∀ T, T ∈ timestamp <$> append_new_data E N
        ↔ T ∈ timestamp <$> E ∨ T ∈ timestamp <$> N) ∧
  (length (append_new_data E N) ≤ length E + length N)%nat.
Proof.
  split; [|split].
  - apply append_new_data_elem.
  - apply append_new_data_timestamps.
  - unfold append_new_data. rewrite sort_values_length, <- length_app.
    apply sublist_length, drop_duplicates_last_sublist.
Qed.

(** X11 (what survives the merge).  When neither frame repeats a
    timestamp, every row of the new frame is in the merge, and so is
    every row of the existing frame whose timestamp the new frame does
    not hold. *)
Theorem append_new_data_keeps_rows (E N : list Bar) :
  NoDup (timestamp <$> E) → NoDup (timestamp <$> N) →
  (∀ n, n ∈ N → n ∈ append_new_data E N) ∧
  (∀ e, e ∈ E → timestamp e ∉ timestamp <$> N → e ∈ append_new_data E N).
Proof.
  intros HE HN. split.
  - intros n Hn. apply (rows_at_elem timestamp (timestamp n)).
    rewrite append_new_data_rows_at, rows_at_app.
    rewrite (rows_at_unique timestamp N n) by assumption.
    rewrite last_snoc. left.
  - intros e He Hfresh. apply (rows_at_elem timestamp (timestamp e)).
    rewrite append_new_data_rows_at, rows_at_app.
    rewrite (rows_at_unique timestamp E e) by assumption.
    apply rows_at_nil_iff in Hfresh. rewrite Hfresh. left.
Qed.

(** X12 (the count of new rows).  When neither frame repeats a
    timestamp, the merge has as many rows more than the existing frame
    as the new frame has rows with a timestamp that the existing frame
    does not hold: this is the [new_rows] that [update_symbol] reports
    and tests against zero. *)
Theorem append_new_data_new_rows (E N : list Bar) :
  NoDup (timestamp <$> E) → NoDup (timestamp <$> N) →
  length (append_new_data E N)
  = (length E
     + length (filter (λ n, timestamp n ∉ timestamp <$> E) N))%nat.
Proof.
  intros HE HN.
  set (fresh := filter (λ n, timestamp n ∉ timestamp <$> E) N).
  rewrite <- (length_fmap timestamp (append_new_data E N)).
  rewrite <- (length_fmap timestamp E), <- (length_fmap timestamp fresh).
  rewrite <- length_app. apply Permutation_length, NoDup_Permutation.
  - apply ascending_nodup, append_new_data_ascending.
  - apply NoDup_app. split; [assumption|]. split.
    + intros T HT [n [-> Hn]]%list_elem_of_fmap.
      apply list_elem_of_filter in Hn as [Hn _]. contradiction.
    + eapply sublist_NoDup; [exact HN|].
      apply fmap_sublist, sublist_filter.
  - intros T. rewrite append_new_data_timestamps, elem_of_app.
    split; (intros [HT|HT]; [left; assumption|]).
    + destruct (decide (T ∈ timestamp <$> E)) as [?|Hfresh]; [left; assumption|].
      right. apply list_elem_of_fmap in HT as [n [-> Hn]].
      apply list_elem_of_fmap_2, list_elem_of_filter. auto.
    + right. apply list_elem_of_fmap in HT as [n [-> Hn]].
      apply list_elem_of_fmap_2. apply list_elem_of_filter in Hn. tauto.
Qed.

(** X13 (merging in steps, merging again).  Merging two fetches one
    after the other gives the same frame as merging both at once, and
    merging a fetch that was merged already changes nothing. *)
Theorem append_new_data_replay (E N1 N2 : list Bar) :
  append_new_data (append_new_data E N1) N2 = append_new_data E (N1 ++ N2) ∧
  append_new_data (append_new_data E N1) N1 = append_new_data E N1.
Proof.
  split; apply (ascending_ext timestamp); try apply append_new_data_ascending.
  - intros T. rewrite !append_new_data_rows_at, !rows_at_app.
    rewrite append_new_data_rows_at, rows_at_app.
    rewrite last_last_app, app_assoc. reflexivity.
  - intros T. rewrite !append_new_data_rows_at, !rows_at_app.
    rewrite append_new_data_rows_at, rows_at_app, last_last_app.
    rewrite <- app_assoc, !last_app.
    destruct (last (rows_at timestamp T N1)); reflexivity.
Qed.

(** Two frames that share the timestamp 60. *)
Lemma append_new_data_keeps_rows_witness :
  let E := [bar_at 0 1; bar_at 60 1] in
  let N := [bar_at 60 2; bar_at 120 2] in
  (∀ n, n ∈ N → n ∈ append_new_data E N) ∧
  (∀ e, e ∈ E → timestamp e ∉ timestamp <$> N → e ∈ append_new_data E N).
Proof.
  intros E N.
  apply (append_new_data_keeps_rows E N);
    apply (bool_decide_unpack _); vm_compute; exact I.
Defined.

(** Three fetched bars, two of them new. *)
Lemma append_new_data_new_rows_witness :
  let E := [bar_at 0 1; bar_at 60 1] in
  let N := [bar_at 60 2; bar_at 120 2; bar_at 180 2] in
  length (append_new_data E N)
  = (length E + length (filter (λ n, timestamp n ∉ timestamp <$> E) N))%nat.
Proof.
  intros E N.
  apply (append_new_data_new_rows E N);
    apply (bool_decide_unpack _); vm_compute; exact I.
Defined.

(** ** More on the quality checker *)

Section CheckerReport.
Import check_data.

Lemma duplicated_count_zero (seen ts : list (option Z)) :
  duplicated_count seen ts = 0%nat ↔ NoDup ts ∧ ∀ t, t ∈ ts → t ∉ seen.
Proof.
  revert seen. induction ts as [|t ts IH]; intros seen; simpl.
  - split; [intros _; split; [constructor|]|reflexivity].
    intros t Ht. apply elem_of_nil in Ht. contradiction.
  - case_bool_decide as Hseen.
    + split; [discriminate|]. intros [_ H]. exfalso. apply (H t); [left|assumption].
    + rewrite IH, NoDup_cons. split.
      * intros [Hnd Hfresh]. split; [split; [|assumption]|].
        -- intros Ht. apply (Hfresh t Ht). left.
        -- intros x [->|Hx]%elem_of_cons; [assumption|].
           intros Hx'. apply (Hfresh x Hx). right. assumption.
      * intros [[Ht Hnd] Hfresh]. split; [assumption|].
        intros x Hx [->|Hx']%elem_of_cons; [contradiction|].
        apply (Hfresh x); [right|]; assumption.
Qed.

(** X26 (the duplicates warning).  For a file that parses and holds
    the [timestamp] column, the report of [check_file] has a line
    warning of duplicate timestamps if and only if some value of that
    column occurs twice, a missing value included. *)
Theorem duplicates_warning_iff (size : Z) (df : Frame) :
  has_column "timestamp" df = true →
  (∃ n, WarnDuplicates n ∈ snd (check_file (Some (mkStored size (Some df)))))
  ↔ ¬ NoDup (c_timestamp <$> rows df).
Proof.
  intros Hts.
  assert (Hdup : (0 < duplicated_count [] (c_timestamp <$> rows df))%nat
                 ↔ ¬ NoDup (c_timestamp <$> rows df)).
  { pose proof (duplicated_count_zero [] (c_timestamp <$> rows df)) as H.
    split.
    - intros Hpos Hnd. apply Nat.lt_irrefl with 0%nat.
      replace 0%nat with (duplicated_count [] (c_timestamp <$> rows df)) at 2;
        [assumption|].
      apply H. split; [assumption|]. intros t _. apply not_elem_of_nil.
    - intros Hnd. apply Nat.neq_0_lt_0. intros H0. apply Hnd, H, H0. }
  rewrite <- Hdup. clear Hdup.
  unfold check_file. simpl st_frame. cbv beta iota zeta. rewrite Hts.
  simpl negb. cbv iota.
  destruct (has_column "low" df && has_column "high" df); simpl negb; cbv iota;
    cbn [snd].
  all: split; [intros [n Hn]|intros Hpos; eexists].
  all: rewrite !elem_of_app, !elem_of_warning, !elem_of_cons, !elem_of_nil in *.
  all: try (intuition congruence).
  all: left; left; left; left; right; split; [reflexivity|assumption].
Qed.

#[local] Instance id_le_antisymm : AntiSymm eq (λ a b : Z, id a ≤ id b).
Proof. intros a b. unfold id. lia. Qed.

(** Sorting a column of values arranges it in one way only. *)
Lemma sort_values_id_perm (l l' : list Z) :
  l ≡ₚ l' → sort_values id l = sort_values id l'.
Proof.
  intros Hperm. apply (StronglySorted_unique (λ a b : Z, id a ≤ id b)).
  - apply (sort_values_sorted id).
  - apply (sort_values_sorted id).
  - rewrite !(sort_values_perm id). assumption.
Qed.

(** X27 (gaps do not depend on row order).  The number of large gaps
    [check_file] reports is computed on the sorted column: it is the same
    for any two arrangements of the same rows. *)
Theorem large_gap_count_order_independent (ts ts' : list (option Z)) :
  ts ≡ₚ ts' → large_gap_count ts = large_gap_count ts'.
Proof.
  intros Hperm. unfold large_gap_count. f_equal.
  apply sort_values_id_perm, omap_Permutation, Hperm.
Qed.

Lemma filter_length_all {A} (f : A → bool) (l : list A) :
  (length (List.filter f l) ≤ length l)%nat ∧
  (length (List.filter f l) = length l ↔ ∀ x, x ∈ l → f x = true).
Proof.
  induction l as [|x l [IHle IH]]; simpl.
  - split; [lia|]. split; [|reflexivity].
    intros _ x Hx. apply elem_of_nil in Hx. contradiction.
  - destruct (f x) eqn:Hfx; simpl.
    + split; [lia|]. rewrite Nat.succ_inj_wd, IH. split.
      * intros H y [->|Hy]%elem_of_cons; auto.
      * intros H y Hy. apply H. right. assumption.
    + split; [lia|]. split; [lia|].
      intros H. rewrite (H x) in Hfx by left. discriminate.
Qed.

(** X28 (the tallies of the checker).  [check_all_data] checks every
    configured symbol once; the files it counts as OK are at most the
    files it checked, and the overall figures agree if and only if the
    file of every configured symbol passes [check_file]. *)
Theorem check_all_data_tallies (disk : gmap string Stored) :
  let '((fx_checked, fx_ok), (idx_checked, idx_ok)) := check_all_data disk in
  fx_checked = length config.FX_SYMBOLS ∧
  idx_checked = length config.INDEX_SYMBOLS ∧
  (fx_ok ≤ fx_checked)%nat ∧ (idx_ok ≤ idx_checked)%nat ∧
  ((fx_ok + idx_ok = fx_checked + idx_checked)%nat ↔
   (∀ symbol, symbol ∈ config.FX_SYMBOLS →
      fst (check_file (disk !! data_file config.FX_DIR symbol)) = true) ∧
   (∀ symbol, symbol ∈ config.INDEX_SYMBOLS →
      fst (check_file (disk !! data_file config.INDICES_DIR symbol)) = true)).
Proof.
  unfold check_all_data. rewrite !tally_counts.
  destruct (filter_length_all
              (λ symbol, fst (check_file (disk !! data_file config.FX_DIR symbol)))
              config.FX_SYMBOLS) as [Hfx Hfx'].
  destruct (filter_length_all
              (λ symbol,
                 fst (check_file (disk !! data_file config.INDICES_DIR symbol)))
              config.INDEX_SYMBOLS) as [Hidx Hidx'].
  cbv beta in Hfx', Hidx'.
  split; [reflexivity|]. split; [reflexivity|]. split; [assumption|].
  split; [assumption|]. rewrite <- Hfx', <- Hidx'. lia.
Qed.
End CheckerReport.

(** A file whose two rows share a timestamp. *)
Lemma duplicates_warning_iff_witness :
  let df := check_data.mkFrame check_data.canonical_columns
              [check_data.sample_row (Some 0) 1;
               check_data.sample_row (Some 0) 2] in
  (∃ n, check_data.WarnDuplicates n
        ∈ snd (check_data.check_file
                 (Some (check_data.mkStored 4096 (Some df)))))
  ↔ ¬ NoDup (check_data.c_timestamp <$> check_data.rows df).
Proof.
  intros df. apply (duplicates_warning_iff 4096 df). vm_compute. reflexivity.
Defined.

(** Three rows in two orders. *)
Lemma large_gap_count_order_independent_witness :
  check_data.large_gap_count [Some 0; None; Some 9000]
  = check_data.large_gap_count [Some 9000; Some 0; None].
Proof.
  apply (large_gap_count_order_independent
           [Some 0; None; Some 9000] [Some 9000; Some 0; None]).
  exact (Permutation_app_comm [Some 0; None] [Some 9000]).
Defined.

(** ** Paths and names *)

Lemma string_app_assoc (a b c : string) : (a +:+ b) +:+ c = a +:+ (b +:+ c).
Proof.
  induction a as [|x a IH]; [reflexivity|].
  change (String x ((a +:+ b) +:+ c) = String x (a +:+ (b +:+ c))).
  rewrite IH. reflexivity.
Qed.

Lemma string_app_length (a b : string) :
  String.length (a +:+ b) = (String.length a + String.length b)%nat.
Proof.
  induction a as [|x a IH]; [reflexivity|].
  change (S (String.length (a +:+ b)) = S (String.length a + String.length b)).
  rewrite IH. reflexivity.
Qed.

(** Two strings that end in tails of one length have the same tail and
    the same front. *)
Lemma string_app_inj_tail (a b s t : string) :
  a +:+ s = b +:+ t → String.length s = String.length t → a = b ∧ s = t.
Proof.
  revert b. induction a as [|x a IH]; intros [|y b] H Hlen.
  - split; [reflexivity|exact H].
  - exfalso. apply (f_equal String.length) in H.
    rewrite !string_app_length in H. simpl in H. lia.
  - exfalso. apply (f_equal String.length) in H.
    rewrite !string_app_length in H. simpl in H. lia.
  - change (String x (a +:+ s) = String y (b +:+ t)) in H.
    injection H as -> H. destruct (IH b H Hlen) as [-> ->]. auto.
Qed.

Lemma data_file_path base_dir symbol :
  check_data.data_file base_dir symbol
  = path_str (mkPath base_dir (lower symbol +:+ "_1m") ".parquet").
Proof.
  unfold check_data.data_file, path_str. simpl.
  rewrite string_app_assoc. reflexivity.
Qed.

Lemma dirs_differ (x y : string) :
  config.FX_DIR +:+ x ≠ config.INDICES_DIR +:+ y.
Proof.
  change (String "d" (String "a" (String "t" (String "a" (String "/"
            (String "f" (String "x" x))))))
          ≠ String "d" (String "a" (String "t" (String "a" (String "/"
              (String "i" ("ndices" +:+ y))))))).
  discriminate.
Qed.

Lemma primary_path_inj s1 c1 s2 c2 :
  primary_path s1 c1 = primary_path s2 c2 →
  lower s1 = lower s2 ∧ (c1 = "fx"%string ↔ c2 = "fx"%string).
Proof.
  unfold primary_path, get_data_filepath, path_str. simpl.
  do 2 case_bool_decide; simpl; intros Heq.
  2: { exfalso. exact (dirs_differ _ _ Heq). }
  2: { exfalso. symmetry in Heq. exact (dirs_differ _ _ Heq). }
  all: do 2 apply append_inj_r in Heq.
  all: apply string_app_inj_tail in Heq as [Heq _]; [|reflexivity].
  all: apply string_app_inj_tail in Heq as [Heq _]; [|reflexivity].
  all: split; [assumption|tauto].
Qed.

Lemma backup_path_inj s1 c1 s2 c2 :
  backup_path s1 c1 = backup_path s2 c2 →
  lower s1 = lower s2 ∧ (c1 = "fx"%string ↔ c2 = "fx"%string).
Proof.
  unfold backup_path, with_suffix, get_data_filepath, path_str. simpl.
  do 2 case_bool_decide; simpl; intros Heq.
  2: { exfalso. exact (dirs_differ _ _ Heq). }
  2: { exfalso. symmetry in Heq. exact (dirs_differ _ _ Heq). }
  all: do 2 apply append_inj_r in Heq.
  all: apply string_app_inj_tail in Heq as [Heq _]; [|reflexivity].
  all: apply string_app_inj_tail in Heq as [Heq _]; [|reflexivity].
  all: split; [assumption|tauto].
Qed.

Lemma primary_ne_any_backup s1 c1 s2 c2 :
  primary_path s1 c1 ≠ backup_path s2 c2.
Proof.
  unfold primary_path, backup_path, get_data_filepath, path_str, with_suffix.
  simpl. intros Heq.
  assert (H' : ∀ d1 d2 x y : string,
            d1 +:+ "/" +:+ x +:+ ".parquet"
            = d2 +:+ "/" +:+ y +:+ ".parquet.backup" → False).
  { intros d1 d2 x y H.
    change ".parquet.backup"%string with (".parque" +:+ "t.backup")%string in H.
    rewrite <- !string_app_assoc in H.
    apply string_app_inj_tail in H as [_ H]; [discriminate|reflexivity]. }
  exact (H' _ _ _ _ Heq).
Qed.

(** X14 (one file per symbol).  Two symbols with plain names (ASCII
    letters, digits, dots, underscores and hyphens, as all configured
    names are) share a dataset file if and only if their names agree up
    to letter case and their categories select the same directory (the
    category ["fx"] or any other). *)
Theorem data_filepath_injective (s1 c1 s2 c2 : string) :
  plain_name s1 = true → plain_name s2 = true →
  primary_path s1 c1 = primary_path s2 c2
  ↔ lower s1 = lower s2 ∧ (c1 = "fx"%string ↔ c2 = "fx"%string).
Proof.
  intros _ _. split; [apply primary_path_inj|].
  intros [Hs Hc]. unfold primary_path, get_data_filepath. simpl. rewrite Hs.
  do 2 case_bool_decide; tauto || reflexivity.
Qed.

(** X15 (the checker reads what the pipeline writes).  The file
    [check_all_data] opens for a symbol in a directory is the file the
    collector and the updater write for this symbol under the category of
    that directory; and for a configured symbol the category
    [get_data_filepath] detects by itself is the one under which the
    batch scripts process it. *)
Theorem checker_reads_pipeline_paths :
  (∀ symbol, check_data.data_file config.FX_DIR symbol
             = primary_path symbol "fx") ∧
  (∀ symbol category, category ≠ "fx"%string →
     check_data.data_file config.INDICES_DIR symbol
     = primary_path symbol category) ∧
  (∀ symbol, symbol ∈ config.FX_SYMBOLS →
     path_str (get_data_filepath symbol None) = primary_path symbol "fx") ∧
  (∀ symbol, symbol ∈ config.INDEX_SYMBOLS →
     path_str (get_data_filepath symbol None) = primary_path symbol "indices").
Proof.
  split; [|split; [|split]].
  - intros symbol. apply data_file_path.
  - intros symbol category Hc. rewrite data_file_path.
    unfold primary_path, get_data_filepath. simpl.
    rewrite bool_decide_eq_false_2 by assumption. reflexivity.
  - intros symbol H. unfold primary_path, get_data_filepath, get_symbol_category.
    simpl. rewrite (bool_decide_eq_true_2 _ H). reflexivity.
  - intros symbol H. unfold primary_path, get_data_filepath, get_symbol_category.
    simpl. rewrite (bool_decide_eq_true_2 _ H).
    rewrite bool_decide_eq_false_2; [reflexivity|].
    unfold config.INDEX_SYMBOLS in H.
    repeat (apply elem_of_cons in H as [->|H]); [..|inversion H];
      vm_compute; intros Hd; apply (bool_decide_eq_true_1 _) in Hd || idtac;
      set_solver.
Qed.

(** X1 (timeframe fallback).  [get_timeframe_constant] returns the
    one-minute constant for ["M1"] and for every string that is not one
    of the nine names of its table, and for no other string: a timeframe
    that is unknown or misspelt (in lower case, say) silently becomes M1. *)
Theorem get_timeframe_constant_fallback (timeframe_str : string) :
  get_timeframe_constant timeframe_str = TIMEFRAME_M1
  ↔ timeframe_str = "M1"%string ∨ timeframe_str ∉ timeframe_names.
Proof.
  unfold get_timeframe_constant.
  destruct (decide (timeframe_str ∈ timeframe_names)) as [Hin|Hout].
  - unfold timeframe_names in Hin.
    repeat (apply elem_of_cons in Hin as [->|Hin]); [..|inversion Hin].
    all: split; [vm_compute; try discriminate; auto|].
    all: intros [H|H]; [try discriminate H; reflexivity|].
    all: exfalso; apply H; unfold timeframe_names; set_solver.
  - split; [auto|]. intros _.
    assert (Hnone : timeframe_map !! timeframe_str = None)
      by (apply not_elem_of_list_to_map_1; exact Hout).
    rewrite Hnone. reflexivity.
Qed.

(** Two spellings of a configured name, and a category that is not
    ["fx"] against the category ["indices"]. *)
Lemma data_filepath_injective_witness :
  primary_path "XAUUSD" "indices" = primary_path "xauusd" "metals"
  ↔ lower "XAUUSD" = lower "xauusd"
    ∧ ("indices"%string = "fx"%string ↔ "metals"%string = "fx"%string).
Proof.
  apply (data_filepath_injective "XAUUSD" "indices" "xauusd" "metals");
    vm_compute; reflexivity.
Defined.

(** ** Symbol resolution *)

Section Resolution.
Context {V : Vendor}.
Implicit Types w : World V.

Lemma alternatives_head symbol : ∃ rest, alternatives symbol = symbol :: rest.
Proof.
  unfold alternatives.
  destruct (config.SYMBOL_ALTERNATIVES !! symbol) as [l|] eqn:E; simpl;
    [|eauto].
  apply elem_of_list_to_map_2 in E.
  repeat (apply elem_of_cons in E as [[= -> ->]|E]; [eauto|]).
  apply elem_of_nil in E. contradiction.
Qed.

Lemma is_lookup_of_mono names names' e :
  names ⊆ names' → is_lookup_of names e → is_lookup_of names' e.
Proof. intros Hsub. destruct e; simpl; auto. Qed.

Lemma find_symbol_in_sound alts w :
  ∃ r w' evs,
    find_symbol_in alts w = (Ok r, w') ∧
    w_fs w' = w_fs w ∧ w_faults w' = w_faults w ∧ w_ticks w' = w_ticks w ∧
    w_log w' = w_log w ++ evs ∧
    Forall (is_lookup_of alts) evs ∧
    match r with
    | Some a => a ∈ alts ∧ EvSymbolInfo a ∈ evs
    | None => ∀ a, a ∈ alts → EvSymbolInfo a ∈ evs
    end.
Proof.
  revert w. induction alts as [|alt rest IH]; intros w.
  - exists None, w, []. rewrite app_nil_r. repeat split; auto.
    intros a Ha. apply elem_of_nil in Ha. contradiction.
  - assert (Hrest : ∀ w1 pre,
      w_fs w1 = w_fs w → w_faults w1 = w_faults w → w_ticks w1 = w_ticks w →
      w_log w1 = w_log w ++ EvSymbolInfo alt :: pre →
      Forall (is_lookup_of (alt :: rest)) pre →
      ∃ r w' evs,
        find_symbol_in rest w1 = (Ok r, w') ∧
        w_fs w' = w_fs w ∧ w_faults w' = w_faults w ∧ w_ticks w' = w_ticks w ∧
        w_log w' = w_log w ++ evs ∧
        Forall (is_lookup_of (alt :: rest)) evs ∧
        match r with
        | Some a => a ∈ alt :: rest ∧ EvSymbolInfo a ∈ evs
        | None => ∀ a, a ∈ alt :: rest → EvSymbolInfo a ∈ evs
        end).
    { intros w1 pre Hfs Hfa Hti Hlog Hpre.
      destruct (IH w1) as (r & w' & evs & Hrun & Hfs' & Hfa' & Hti' & Hlog' & Hevs & Hr).
      exists r, w', (EvSymbolInfo alt :: pre ++ evs).
      split; [exact Hrun|]. split; [congruence|]. split; [congruence|].
      split; [congruence|]. split.
      { rewrite Hlog', Hlog, <- app_assoc. reflexivity. }
      split.
      { constructor; [left|]. apply Forall_app. split; [assumption|].
        eapply Forall_impl; [exact Hevs|]. intros e.
        apply is_lookup_of_mono. set_solver. }
      destruct r as [a|].
      - destruct Hr as [Ha Hev]. split; [right; assumption|].
        right. apply elem_of_app. right. assumption.
      - intros a [->|Ha]%elem_of_cons; [left|].
        right. apply elem_of_app. right. auto. }
    cbn [find_symbol_in]. unfold bind at 1, mt5_symbol_info, call_vendor.
    destruct (symbol_info V alt (w_vendor w)) as [[info|] v].
    + destruct (negb (si_visible info)).
      * unfold bind at 1, mt5_symbol_select, call_vendor. cbn [w_vendor].
        destruct (symbol_select V alt true v) as [[|] v'].
        -- eexists _, _, [EvSymbolInfo alt; EvSymbolSelect alt].
           split; [reflexivity|]. cbn. rewrite <- app_assoc.
           repeat split; try reflexivity.
           ++ repeat constructor.
           ++ left.
           ++ left.
        -- apply (Hrest _ [EvSymbolSelect alt]); try reflexivity.
           ++ cbn. rewrite <- app_assoc. reflexivity.
           ++ repeat constructor.
      * eexists _, _, [EvSymbolInfo alt]. split; [reflexivity|]. cbn.
        repeat split; try reflexivity.
        -- repeat constructor.
        -- left.
        -- left.
    + apply (Hrest _ []); try reflexivity. constructor.
Qed.

(** X2 (symbol resolution is safe).  Whatever the terminal answers,
    [find_symbol] returns without raising; it leaves the file system, the
    pending write faults and the clock alone, and what it asks the
    terminal is only lookups and selections of alternatives of the
    symbol.  A name it returns is one of these alternatives and was
    looked up; when it returns [None], every alternative was looked up. *)
Theorem find_symbol_sound (symbol : string) (w : World V) :
  ∃ r w' evs,
    find_symbol symbol w = (Ok r, w') ∧
    w_fs w' = w_fs w ∧ w_faults w' = w_faults w ∧ w_ticks w' = w_ticks w ∧
    w_log w' = w_log w ++ evs ∧
    Forall (is_lookup_of (alternatives symbol)) evs ∧
    match r with
    | Some a => a ∈ alternatives symbol ∧ EvSymbolInfo a ∈ evs
    | None => ∀ a, a ∈ alternatives symbol → EvSymbolInfo a ∈ evs
    end.
Proof. apply find_symbol_in_sound. Qed.

Lemma find_symbol_in_stable info select alts w :
  stable_terminal V info select →
  ∃ w', find_symbol_in alts w
        = (Ok (List.find (resolves info select) alts), w') ∧
        w_vendor w' = w_vendor w.
Proof.
  intros [Hinfo Hselect]. revert w.
  induction alts as [|alt rest IH]; intros w.
  - eexists. split; reflexivity.
  - cbn [find_symbol_in List.find]. unfold resolves at 1.
    unfold bind at 1, mt5_symbol_info, call_vendor. rewrite Hinfo.
    destruct (info alt) as [i|].
    + destruct (negb (si_visible i)).
      * unfold bind at 1, mt5_symbol_select, call_vendor. cbn [w_vendor].
        rewrite Hselect. destruct (select alt).
        -- eexists. split; reflexivity.
        -- edestruct IH as (w' & -> & Hv). eexists. split; [reflexivity|].
           exact Hv.
      * eexists. split; reflexivity.
    + edestruct IH as (w' & -> & Hv). eexists. split; [reflexivity|]. exact Hv.
Qed.

(** X3 (first alternative that resolves).  Against a terminal whose
    symbol table stands still, [find_symbol] returns the first
    alternative, in the order of [SYMBOL_ALTERNATIVES], that the terminal
    knows and that is visible or can be added to the Market Watch, and
    [None] when there is none. *)
Theorem find_symbol_first_resolvable (info : string → option SymbolInfo)
    (select : string → bool) (symbol : string) (w : World V) :
  stable_terminal V info select →
  ∃ w', find_symbol symbol w
        = (Ok (List.find (resolves info select) (alternatives symbol)), w') ∧
        w_vendor w' = w_vendor w.
Proof. apply find_symbol_in_stable. Qed.

(** X4 (the requested name comes first).  When the terminal knows the
    requested name itself and shows it, [find_symbol] returns this very
    name after that single lookup: every configured symbol is the first
    of its own alternatives, and a symbol that is not configured has no
    other alternative. *)
Theorem find_symbol_primary_name (symbol : string) (w : World V)
    (info : SymbolInfo) (v : vstate V) :
  symbol_info V symbol (w_vendor w) = (Some info, v) →
  si_visible info = true →
  find_symbol symbol w
  = (Ok (Some symbol),
     mkWorld v (w_fs w) (w_faults w) (w_ticks w)
             (w_log w ++ [EvSymbolInfo symbol])).
Proof.
  intros Hinfo Hvis. unfold find_symbol.
  destruct (alternatives_head symbol) as [rest Hhead].
  unfold alternatives in Hhead. rewrite Hhead. cbn [find_symbol_in].
  unfold bind, mt5_symbol_info, call_vendor. rewrite Hinfo, Hvis. reflexivity.
Qed.
End Resolution.

(** A broker that lists the index as DJ30 only, hidden at first. *)
Lemma find_symbol_first_resolvable_witness :
  let info := λ s, if bool_decide (s = "DJ30"%string)
                   then Some (mkSymbolInfo s "Dow Jones" false) else None in
  let select := λ _ : string, true in
  let w := initial_world (V:=table_vendor info select) tt ∅ [] in
  ∃ w', find_symbol "US30" w
        = (Ok (List.find (resolves info select) (alternatives "US30")), w') ∧
        w_vendor w' = w_vendor w.
Proof.
  intros info select w.
  apply (find_symbol_first_resolvable (V:=table_vendor info select)
           info select "US30" w).
  split; intros; reflexivity.
Defined.

(** The scripted terminal shows every symbol. *)
Lemma find_symbol_primary_name_witness :
  let w := initial_world (V:=scripted_vendor) [] ∅ [] in
  find_symbol "EURUSD" w
  = (Ok (Some "EURUSD"%string),
     @mkWorld scripted_vendor [] (w_fs w) (w_faults w) (w_ticks w)
              (w_log w ++ [EvSymbolInfo "EURUSD"])).
Proof.
  intros w.
  apply (find_symbol_primary_name (V:=scripted_vendor) "EURUSD" w
           (mkSymbolInfo "EURUSD" "" true) []); reflexivity.
Defined.

(** ** More on the backfill *)

Section Backfill.
Context {V : Vendor}.
Implicit Types w : World V.

Lemma backfill_loop_requests attempts actual_symbol timeframe :
  ∀ earliest acc w r w',
    backfill_loop attempts actual_symbol timeframe earliest acc w = (r, w') →
    ∃ evs, w_log w' = w_log w ++ evs ∧ (rates_calls evs ≤ attempts)%nat.
Proof.
  induction attempts as [|n IH]; intros earliest acc w r w'; cbn [backfill_loop].
  - intros [= _ <-]. exists []. rewrite app_nil_r. split; [reflexivity|].
    unfold rates_calls. simpl. lia.
  - unfold bind at 1, mt5_copy_rates_from, call_vendor.
    destruct (copy_rates_from V actual_symbol timeframe (earliest - 60)
                config.MAX_BARS_PER_REQUEST (w_vendor w)) as [rates v].
    set (e := EvCopyRatesFrom actual_symbol timeframe (earliest - 60)
                config.MAX_BARS_PER_REQUEST).
    assert (Hone : ∀ w1 : World V,
              w_log w1 = w_log w ++ [e] →
              ∃ evs, w_log w1 = w_log w ++ evs ∧ (rates_calls evs ≤ S n)%nat).
    { intros w1 Hlog. exists [e]. split; [assumption|].
      unfold rates_calls. simpl. lia. }
    destruct rates as [[|r0 rs]|].
    + intros [= _ <-]. apply Hone. reflexivity.
    + case_bool_decide.
      * intros [= _ <-]. apply Hone. reflexivity.
      * intros Hrun. apply IH in Hrun as (evs & Hlog & Hcalls).
        exists (e :: evs). split.
        -- rewrite Hlog. cbn [w_log]. rewrite <- app_assoc. reflexivity.
        -- change (e :: evs) with ([e] ++ evs). rewrite rates_calls_app.
           change (rates_calls [e]) with 1%nat. lia.
    + intros [= _ <-]. apply Hone. reflexivity.
Qed.

Lemma lookups_no_rates names evs :
  Forall (is_lookup_of names) evs → rates_calls evs = 0%nat.
Proof.
  induction 1 as [|e evs He _ IH]; [reflexivity|].
  change (e :: evs) with ([e] ++ evs). rewrite rates_calls_app, IH.
  destruct e; simpl in He; try contradiction; reflexivity.
Qed.

Lemma collect_rates_requests symbol timeframe w :
  ∃ r w' evs,
    collect_rates symbol timeframe w = (r, w') ∧
    w_log w' = w_log w ++ evs ∧
    (rates_calls evs ≤ S config.MAX_HISTORICAL_ATTEMPTS)%nat.
Proof.
  unfold collect_rates.
  destruct (find_symbol_in_sound (alternatives symbol) w)
    as (a & w1 & evs1 & Hfind & _ & _ & _ & Hlog1 & Hevs1 & _).
  apply lookups_no_rates in Hevs1.
  rewrite (bind_ok _ _ _ _ _ Hfind).
  destruct a as [actual|].
  2: { eexists _, _, evs1. split; [reflexivity|]. split; [assumption|]. lia. }
  unfold bind at 1, mt5_symbol_info, call_vendor.
  destruct (symbol_info V actual (w_vendor w1)) as [[info|] v].
  2: { eexists _, _, (evs1 ++ [EvSymbolInfo actual]). split; [reflexivity|].
       cbn. rewrite Hlog1, <- app_assoc. split; [reflexivity|].
       rewrite rates_calls_app, Hevs1. unfold rates_calls. simpl. lia. }
  unfold bind at 1, mt5_copy_rates_from_pos, call_vendor. cbn [w_vendor].
  destruct (copy_rates_from_pos V actual timeframe 0
              config.MAX_BARS_PER_REQUEST v) as [rates v'].
  set (e := EvCopyRatesFromPos actual timeframe 0 config.MAX_BARS_PER_REQUEST).
  destruct rates as [[|r0 rs]|].
  1,3: eexists _, _, (evs1 ++ [EvSymbolInfo actual; e]); split; [reflexivity|];
       cbn; rewrite Hlog1, <- !app_assoc; split; [reflexivity|];
       rewrite rates_calls_app, Hevs1; unfold rates_calls; simpl; lia.
  cbn [w_fs w_faults w_ticks w_log].
  match goal with |- context [bind ?m ?k ?w0] =>
    destruct (m w0) as [r2 w2] eqn:Hloop end.
  pose proof Hloop as Hcalls.
  apply backfill_loop_requests in Hcalls as (evs2 & Hlog2 & Hcalls).
  cbn [w_log] in Hlog2.
  exists (match r2 with Ok x => Ok (Some x) | Raise x => Raise x end), w2,
         (evs1 ++ [EvSymbolInfo actual; e] ++ evs2).
  split.
  { unfold bind. rewrite Hloop. destruct r2; reflexivity. }
  split.
  { rewrite Hlog2, Hlog1, <- !app_assoc. reflexivity. }
  rewrite !rates_calls_app, Hevs1.
  change (rates_calls [EvSymbolInfo actual; e]) with 1%nat. lia.
Qed.

(** X5 (request budget).  Whatever the terminal answers,
    [collect_maximum_data] returns after at most
    [MAX_HISTORICAL_ATTEMPTS + 1] bar requests, and it changes nothing on
    disk. *)
Theorem collect_maximum_data_budget (symbol : string) (timeframe : Timeframe)
    (w : World V) :
  ∃ r w' evs,
    collect_maximum_data symbol timeframe w = (r, w') ∧
    w_log w' = w_log w ++ evs ∧
    (rates_calls evs ≤ S config.MAX_HISTORICAL_ATTEMPTS)%nat ∧
    fs_events evs = [] ∧ w_fs w' = w_fs w.
Proof.
  destruct (collect_rates_requests symbol timeframe w)
    as (r & w' & evs & Hrun & Hlog & Hcalls).
  exists (match r with Ok x => Ok (finalize <$> x) | Raise e => Raise e end),
         w', evs.
  assert (Hrun' : collect_maximum_data symbol timeframe w
                  = (match r with
                     | Ok x => Ok (finalize <$> x)
                     | Raise e => Raise e
                     end, w')).
  { unfold collect_maximum_data, bind. rewrite Hrun. destruct r; reflexivity. }
  split; [exact Hrun'|]. split; [exact Hlog|]. split; [exact Hcalls|].
  destruct (collect_maximum_data_vendor_step _ _ _ _ _ Hrun')
    as (Hfs & _ & evs' & Hlog' & Hnofs).
  rewrite Hlog in Hlog'. apply app_inv_head in Hlog'. subst evs'.
  split; assumption.
Qed.

Lemma collect_rates_structure symbol timeframe w w' all_rates :
  collect_rates symbol timeframe w = (Ok (Some all_rates), w') →
  ∃ older r0 rs actual st st',
    all_rates = older ++ r0 :: rs ∧
    Forall (λ x, time x < min_time r0 rs) older ∧
    copy_rates_from_pos V actual timeframe 0 config.MAX_BARS_PER_REQUEST st
    = (Some (r0 :: rs), st').
Proof.
  unfold collect_rates. intros H.
  apply bind_inv in H as [(a & w1 & _ & H)|(e & _ & [=])].
  destruct a as [actual|]; [|discriminate H].
  apply bind_inv in H as [(i & w2 & _ & H)|(e & _ & [=])].
  destruct i as [info|]; [|discriminate H].
  unfold bind at 1, mt5_copy_rates_from_pos, call_vendor in H.
  destruct (copy_rates_from_pos V actual timeframe 0
              config.MAX_BARS_PER_REQUEST (w_vendor w2)) as [rates v'] eqn:Hpos.
  destruct rates as [[|r0 rs]|]; try discriminate H.
  apply bind_inv in H as [(x & w3 & Hloop & H)|(e & _ & [=])].
  injection H as <- <-.
  apply backfill_loop_prepends in Hloop as (older & [= ->] & Holder).
  exists older, r0, rs, actual, (w_vendor w2), v'. auto.
Qed.

(** X6 (the backfill only reaches back).  A frame that
    [collect_maximum_data] returns is made of the answer to its first
    request, which is not empty, and of bars accepted from later
    requests, each strictly older than the earliest bar of that first
    answer.  So from that earliest time on, the row at a timestamp is the
    first row the first answer holds there; and the frame is never
    empty. *)
Theorem backfill_watermark (symbol : string) (timeframe : Timeframe)
    (w w' : World V) (df : list Bar) :
  collect_maximum_data symbol timeframe w = (Ok (Some df), w') →
  ∃ older r0 rs actual st st',
    copy_rates_from_pos V actual timeframe 0 config.MAX_BARS_PER_REQUEST st
    = (Some (r0 :: rs), st') ∧
    df = finalize (older ++ r0 :: rs) ∧
    Forall (λ x, time x < min_time r0 rs) older ∧
    (∀ T, min_time r0 rs ≤ T →
          rows_at timestamp T df
          = to_bar <$> take 1 (rows_at time T (r0 :: rs))) ∧
    df ≠ [].
Proof.
  intros H. apply collect_maximum_data_inv in H as (all_rates & H & ->).
  apply collect_rates_structure in H
    as (older & r0 & rs & actual & st & st' & -> & Holder & Hpos).
  exists older, r0, rs, actual, st, st'.
  split; [exact Hpos|]. split; [reflexivity|]. split; [exact Holder|]. split.
  - intros T HT. rewrite finalize_rows_at. unfold rows_at at 1.
    rewrite filter_app.
    replace (filter (λ a, time a = T) older) with (@nil Rate); [reflexivity|].
    symmetry. apply (rows_at_nil_iff time). intros [x [-> Hx]]%list_elem_of_fmap.
    apply (proj1 (Forall_forall _ _) Holder) in Hx. lia.
  - intros Hnil.
    assert (Hin : time r0 ∈ timestamp <$> finalize (older ++ r0 :: rs)).
    { apply finalize_timestamps. rewrite fmap_app, fmap_cons.
      apply elem_of_app. right. left. }
    rewrite Hnil in Hin. inversion Hin.
Qed.
End Backfill.

(** X7 (beyond the budget).  Against a terminal that hands out more
    than [MAX_HISTORICAL_ATTEMPTS] progressively older chunks,
    [collect_maximum_data] makes exactly [MAX_HISTORICAL_ATTEMPTS + 1]
    bar requests and returns the bars of the first
    [MAX_HISTORICAL_ATTEMPTS + 1] chunks; the chunks after these are
    never asked for. *)
Theorem backfill_budget_cap (chunks : list (list Rate))
    (stop : option (list Rate)) (rest : list (option (list Rate)))
    (symbol : string) (timeframe : Timeframe) (fs : gmap string File)
    (faults : list WriteFault) (ticks : nat) (log : list Event) :
  progressively_older chunks = true →
  no_rates stop = true →
  (config.MAX_HISTORICAL_ATTEMPTS < length chunks)%nat →
  ∃ evs,
    collect_maximum_data (V:=scripted_vendor) symbol timeframe
      (@mkWorld scripted_vendor ((Some <$> chunks) ++ stop :: rest)
                fs faults ticks log)
    = (Ok (Some (finalize
                   (concat (rev (take (S config.MAX_HISTORICAL_ATTEMPTS)
                                      chunks))))),
       @mkWorld scripted_vendor
         ((Some <$> drop (S config.MAX_HISTORICAL_ATTEMPTS) chunks)
          ++ stop :: rest)
         fs faults ticks (log ++ evs)) ∧
    rates_calls evs = S config.MAX_HISTORICAL_ATTEMPTS.
Proof.
  intros Hchain Hstop Hlen.
  destruct (collect_rates_scripted chunks stop rest symbol timeframe fs faults
              ticks log Hchain Hstop) as (evs & Hrun & Hcalls).
  exists evs. split.
  - unfold collect_maximum_data. rewrite (bind_ok _ _ _ _ _ Hrun).
    destruct chunks as [|c chunks]; [simpl in Hlen; lia|].
    unfold ret. cbn [fmap option_fmap option_map]. f_equal. f_equal.
    rewrite Nat.min_l by (rewrite length_cons in *; lia).
    rewrite drop_app_le by (rewrite length_fmap; unfold config.MAX_HISTORICAL_ATTEMPTS in *; simpl in *; lia).
    rewrite fmap_drop. reflexivity.
  - rewrite Hcalls. apply Nat.min_l. lia.
Qed.

(** The backfill of three sample chunks. *)
Lemma backfill_watermark_witness :
  let run := sample_run 3 in
  ∃ older r0 rs actual st st',
    copy_rates_from_pos scripted_vendor actual TIMEFRAME_M1 0
      config.MAX_BARS_PER_REQUEST st
    = (Some (r0 :: rs), st') ∧
    finalize (concat (rev (sample_chunks 3))) = finalize (older ++ r0 :: rs) ∧
    Forall (λ x, time x < min_time r0 rs) older ∧
    (∀ T, min_time r0 rs ≤ T →
          rows_at timestamp T (finalize (concat (rev (sample_chunks 3))))
          = to_bar <$> take 1 (rows_at time T (r0 :: rs))) ∧
    finalize (concat (rev (sample_chunks 3))) ≠ [].
Proof.
  intros run.
  apply (backfill_watermark (V:=scripted_vendor) "EURUSD" TIMEFRAME_M1
           (initial_world (V:=scripted_vendor)
              ((Some <$> sample_chunks 3) ++ [Some []]) ∅ [])
           (snd run) (finalize (concat (rev (sample_chunks 3))))).
  vm_compute. reflexivity.
Defined.

(** Twelve sample chunks: the twelfth is never asked for. *)
Lemma backfill_budget_cap_witness :
  ∃ evs,
    sample_run 12
    = (Ok (Some (finalize
                   (concat (rev (take (S config.MAX_HISTORICAL_ATTEMPTS)
                                      (sample_chunks 12)))))),
       @mkWorld scripted_vendor
         ((Some <$> drop (S config.MAX_HISTORICAL_ATTEMPTS) (sample_chunks 12))
          ++ [Some []])
         ∅ [] 0 ([] ++ evs)) ∧
    rates_calls evs = S config.MAX_HISTORICAL_ATTEMPTS.
Proof.
  apply (backfill_budget_cap (sample_chunks 12) (Some []) [] "EURUSD"
           TIMEFRAME_M1 ∅ [] 0%nat []).
  - vm_compute. reflexivity.
  - reflexivity.
  - vm_compute. lia.
Defined.

(** ** Saving and loading *)

Section SaveLoad.
Context {V : Vendor}.
Implicit Types w : World V.

Lemma write_file_ok p f w :
  Forall (λ x, x = WriteOk) (w_faults w) →
  write_file p f w
  = (Ok tt, mkWorld (w_vendor w) (<[p := f]> (w_fs w)) (tail (w_faults w))
                    (w_ticks w) (w_log w ++ [EvWrite p WriteOk])).
Proof.
  intros Hok. unfold write_file.
  destruct (w_faults w) as [|x faults]; [reflexivity|].
  apply Forall_cons in Hok as [-> _]. reflexivity.
Qed.

(** X8 (save, then load).  When no write fails, saving a frame in
    the format ["parquet"] or ["both"] at the path [get_data_filepath]
    gives for a symbol, and loading that path afterwards, returns the
    frame that was saved. *)
Theorem save_load_round_trip (df : list Bar) (symbol : string)
    (category : option string) (save_format : string) (w : World V) :
  save_format ∈ ["parquet"; "both"]%string →
  Forall (λ x, x = WriteOk) (w_faults w) →
  ∃ w1,
    save_dataframe df (get_data_filepath symbol category) save_format w
    = (Ok tt, w1) ∧
    load_existing_data (get_data_filepath symbol category) w1
    = (Ok (Some df), w1).
Proof.
  intros Hfmt Hok.
  set (fp := get_data_filepath symbol category).
  assert (Hp : path_str (with_suffix ".parquet" fp) = path_str fp)
    by (apply path_str_with_suffix_same; reflexivity).
  assert (Hc : path_str fp ≠ path_str (with_suffix ".csv" fp))
    by (apply path_str_with_suffix_ne; discriminate).
  unfold save_dataframe. rewrite Hp.
  rewrite (bool_decide_eq_true_2 _ Hfmt).
  apply elem_of_cons in Hfmt as [->|Hfmt].
  - rewrite (bind_ok _ _ _ _ _ (write_file_ok _ _ _ Hok)).
    eexists. split; [reflexivity|].
    apply load_existing_data_parquet. cbn [w_fs]. apply lookup_insert_eq.
  - apply list_elem_of_singleton in Hfmt as ->.
    rewrite (bind_ok _ _ _ _ _ (write_file_ok _ _ _ Hok)).
    rewrite bool_decide_eq_true_2 by set_solver.
    rewrite write_file_ok.
    2:{ cbn [w_faults]. destruct (w_faults w); [constructor|].
        apply Forall_cons in Hok as [_ Hok]. exact Hok. }
    eexists. split; [reflexivity|].
    apply load_existing_data_parquet. cbn [w_fs].
    rewrite lookup_insert_ne by (symmetry; exact Hc). apply lookup_insert_eq.
Qed.

(** X9 (unknown format).  With a format other than ["parquet"],
    ["csv"] and ["both"], [save_dataframe] writes nothing and returns
    normally: a misspelt format is not reported. *)
Theorem save_dataframe_unknown_format (df : list Bar) (filepath : Path)
    (save_format : string) (w : World V) :
  save_format ∉ ["parquet"; "csv"; "both"]%string →
  save_dataframe df filepath save_format w = (Ok tt, w).
Proof.
  intros Hfmt. unfold save_dataframe.
  rewrite !bool_decide_eq_false_2; [reflexivity|..];
    intros H; apply Hfmt; rewrite !elem_of_cons in *; tauto.
Qed.
End SaveLoad.

(** Saving in both formats on an empty disk. *)
Lemma save_load_round_trip_witness :
  let w := initial_world (V:=scripted_vendor) [] ∅ [] in
  ∃ w1,
    save_dataframe stored_dataset (get_data_filepath "US30" None) "both" w
    = (Ok tt, w1) ∧
    load_existing_data (get_data_filepath "US30" None) w1
    = (Ok (Some stored_dataset), w1).
Proof.
  intros w.
  apply (save_load_round_trip (V:=scripted_vendor) stored_dataset "US30" None
           "both" w).
  - right. left.
  - constructor.
Defined.

(** The format in upper case. *)
Lemma save_dataframe_unknown_format_witness :
  let w := initial_world (V:=scripted_vendor) [] ∅ [] in
  save_dataframe stored_dataset (get_data_filepath "US30" None) "PARQUET" w
  = (Ok tt, w).
Proof.
  intros w.
  apply (save_dataframe_unknown_format (V:=scripted_vendor) stored_dataset
           (get_data_filepath "US30" None) "PARQUET" w).
  apply (bool_decide_unpack _). vm_compute. exact I.
Defined.

(** ** More on the update of one symbol *)

Section UpdateCases.
Context {V : Vendor} (env : Env).
Implicit Types w : World V.

(** Without a parquet dataset at the primary path nothing happens. *)
Lemma update_symbol_no_dataset symbol category timeframe days force w :
  (∀ E, w_fs w !! primary_path symbol category ≠ Some (Parquet E)) →
  update_symbol env symbol category timeframe days force w
  = (match w_fs w !! primary_path symbol category with
     | Some _ => Raise ReadError
     | None => Ok false
     end, w).
Proof.
  intros Hno. unfold update_symbol. cbv zeta.
  destruct (load_existing_data (get_data_filepath symbol (Some category)) w)
    as [r0 w0] eqn:Hload.
  pose proof Hload as Hinv. apply load_existing_data_inv in Hinv as [-> Hinv].
  fold (primary_path symbol category) in Hinv.
  destruct r0 as [[E|]|e].
  - exfalso. exact (Hno E Hinv).
  - rewrite (bind_ok _ _ _ _ _ Hload), Hinv. reflexivity.
  - rewrite (bind_raise _ _ _ _ _ Hload). subst e.
    destruct (w_fs w !! primary_path symbol category) as [f|] eqn:Hf;
      [reflexivity|].
    apply load_existing_data_missing in Hf.
    unfold primary_path in Hf. rewrite Hf in Hload. discriminate.
Qed.

(** A run either leaves the disk alone or reaches the persistence step
    with a merge that has more rows than the dataset. *)
Lemma update_symbol_cases symbol category timeframe days force w r w' :
  update_symbol env symbol category timeframe days force w = (r, w') →
  (w_fs w' = w_fs w ∧ w_faults w' = w_faults w ∧
   match r with
   | Ok true => ∃ E, w_fs w !! primary_path symbol category = Some (Parquet E)
   | Ok false => True
   | Raise e => e = ReadError
   end) ∨
  (∃ E N w1,
     w_fs w !! primary_path symbol category = Some (Parquet E) ∧
     N ≠ [] ∧
     (length E < length (append_new_data E N))%nat ∧
     w_fs w1 = w_fs w ∧ w_faults w1 = w_faults w ∧
     persist env (append_new_data E N)
       (get_data_filepath symbol (Some category)) w1 = (r, w')).
Proof.
  intros Hrun.
  destruct (w_fs w !! primary_path symbol category) as [[E| |]|] eqn:Hfile.
  2,3,4: rewrite update_symbol_no_dataset in Hrun by (rewrite Hfile; congruence);
         rewrite Hfile in Hrun; injection Hrun as <- <-; left; auto.
  destruct (bool_decide (force = false
                         ∧ is_recent (env_clock env (w_ticks w)) E = true))
    eqn:Hskip.
  { apply bool_decide_eq_true in Hskip as [-> Hrecent].
    rewrite (update_symbol_skip env _ _ _ _ _ _ Hfile Hrecent) in Hrun.
    injection Hrun as <- <-. left. split; [reflexivity|].
    split; [reflexivity|]. eauto. }
  apply bool_decide_eq_false in Hskip.
  rewrite (update_symbol_fetch env _ _ _ _ force _ _ Hfile) in Hrun.
  2:{ intros ->. destruct (is_recent _ E); [|reflexivity].
      exfalso. apply Hskip. split; reflexivity. }
  set (w0 := if force then w else snd (now env w)) in *.
  assert (Hw0 : w_fs w0 = w_fs w ∧ w_faults w0 = w_faults w)
    by (subst w0; destruct force; split; reflexivity).
  destruct Hw0 as [Hfs0 Hfa0].
  destruct (collect_recent_data_total env symbol timeframe days w0)
    as (new_df & w1 & Hf).
  rewrite Hf in Hrun.
  apply collect_recent_data_vendor_step in Hf as (Hfs1 & Hfa1 & _).
  rewrite Hfs0 in Hfs1. rewrite Hfa0 in Hfa1.
  destruct new_df as [[|b N]|].
  1,3: injection Hrun as <- <-; left; auto.
  cbv zeta in Hrun. case_bool_decide as Hrows.
  - injection Hrun as <- <-. left. split; [assumption|]. split; [assumption|].
    eauto.
  - right. exists E, (b :: N), w1. split; [reflexivity|].
    split; [discriminate|]. split; [lia|]. auto.
Qed.

(** What the persistence step leaves at the two paths, and that it
    leaves every other path alone. *)
Lemma persist_outcome symbol category merged_df w f r w' :
  w_fs w !! primary_path symbol category = Some f →
  persist env merged_df (get_data_filepath symbol (Some category)) w = (r, w') →
  (∀ q, q ≠ primary_path symbol category → q ≠ backup_path symbol category →
        w_fs w' !! q = w_fs w !! q) ∧
  match r with
  | Ok true =>
      w_fs w' !! primary_path symbol category = Some (Parquet merged_df) ∧
      w_fs w' !! backup_path symbol category = None
  | Ok false => False
  | Raise WriteError =>
      w_fs w' !! backup_path symbol category = Some f ∧
      (w_fs w' !! primary_path symbol category = None ∨
       w_fs w' !! primary_path symbol category = Some Garbage)
  | Raise e =>
      e = FileExistsError ∧ env_platform env = Windows ∧ w_fs w' = w_fs w ∧
      is_Some (w_fs w !! backup_path symbol category)
  end ∧
  (env_platform env = Windows →
   is_Some (w_fs w !! backup_path symbol category) →
   w_fs w' = w_fs w ∧ r = Raise FileExistsError).
Proof.
  intros Hf Hrun.
  rewrite (persist_spec env _ (get_data_filepath symbol (Some category))
             _ _ eq_refl Hf) in Hrun.
  fold (primary_path symbol category) (backup_path symbol category) in Hrun.
  pose proof (primary_ne_backup symbol category) as Hpb.
  set (p := primary_path symbol category) in *.
  set (b := backup_path symbol category) in *.
  assert (Hcase : (env_platform env = Windows ∧ is_Some (w_fs w !! b)) ∨
                  (env_platform env = Posix ∨ w_fs w !! b = None)).
  { destruct (env_platform env); [right; left; reflexivity|].
    destruct (w_fs w !! b); [left; eauto | right; right; reflexivity]. }
  destruct Hcase as [[Hwin [f' Hb]]|Hok].
  { rewrite Hwin, Hb in Hrun. injection Hrun as <- <-. cbn [w_fs].
    split; [auto|]. split; [|auto]. rewrite Hb. eauto. }
  assert (Hnot : env_platform env = Windows → is_Some (w_fs w !! b) → False).
  { intros Hwin [f' Hb]. destruct Hok as [Hok|Hok]; congruence. }
  assert (Hbranch :
    (r, w') =
      let renamed := <[b := f]> (delete p (w_fs w)) in
      match default WriteOk (head (w_faults w)) with
      | WriteOk =>
          (Ok true,
           mkWorld (w_vendor w)
                   (delete b (<[p := Parquet merged_df]> renamed))
                   (tail (w_faults w)) (w_ticks w)
                   (w_log w ++ [EvRename p b true; EvWrite p WriteOk;
                                EvUnlink b]))
      | WriteFailsClean =>
          (Raise WriteError,
           mkWorld (w_vendor w) renamed (tail (w_faults w)) (w_ticks w)
                   (w_log w ++ [EvRename p b true;
                                EvWrite p WriteFailsClean]))
      | WriteFailsPartial =>
          (Raise WriteError,
           mkWorld (w_vendor w) (<[p := Garbage]> renamed)
                   (tail (w_faults w)) (w_ticks w)
                   (w_log w ++ [EvRename p b true;
                                EvWrite p WriteFailsPartial]))
      end).
  { rewrite <- Hrun. destruct Hok as [->| ->]; [reflexivity|].
    destruct (env_platform env); reflexivity. }
  clear Hrun. cbv zeta in Hbranch.
  destruct (default WriteOk (head (w_faults w)));
    injection Hbranch as -> ->; cbn [w_fs].
  - split; [|split].
    + intros q Hqp Hqb. rewrite lookup_delete_ne by congruence.
      rewrite lookup_insert_ne by congruence.
      rewrite lookup_insert_ne by congruence.
      apply lookup_delete_ne. congruence.
    + split; [|apply lookup_delete_eq].
      rewrite lookup_delete_ne by congruence. apply lookup_insert_eq.
    + intros Hwin Hb. destruct (Hnot Hwin Hb).
  - split; [|split].
    + intros q Hqp Hqb. rewrite lookup_insert_ne by congruence.
      apply lookup_delete_ne. congruence.
    + split; [apply lookup_insert_eq|]. left.
      rewrite lookup_insert_ne by congruence. apply lookup_delete_eq.
    + intros Hwin Hb. destruct (Hnot Hwin Hb).
  - split; [|split].
    + intros q Hqp Hqb. rewrite lookup_insert_ne by congruence.
      rewrite lookup_insert_ne by congruence.
      apply lookup_delete_ne. congruence.
    + split; [|right; apply lookup_insert_eq].
      rewrite lookup_insert_ne by congruence. apply lookup_insert_eq.
    + intros Hwin Hb. destruct (Hnot Hwin Hb).
Qed.

(** A run changes nothing beside the primary path and the backup path
    of its symbol. *)
Lemma update_symbol_frame symbol category timeframe days force w r w' q :
  update_symbol env symbol category timeframe days force w = (r, w') →
  q ≠ primary_path symbol category → q ≠ backup_path symbol category →
  w_fs w' !! q = w_fs w !! q.
Proof.
  intros Hrun Hqp Hqb.
  apply update_symbol_cases in Hrun
    as [(Hfs & _ & _)|(E & N & w1 & HE & _ & _ & Hfs1 & _ & Hrun)].
  - rewrite Hfs. reflexivity.
  - rewrite <- Hfs1 in HE.
    destruct (persist_outcome _ _ _ _ _ _ _ HE Hrun) as (Hframe & _).
    rewrite <- Hfs1. apply Hframe; assumption.
Qed.

Lemma update_symbol_success_dataset symbol category timeframe days force w w' :
  update_symbol env symbol category timeframe days force w = (Ok true, w') →
  has_dataset symbol category w'.
Proof.
  intros Hrun.
  apply update_symbol_cases in Hrun
    as [(Hfs & _ & E & HE)|(E & N & w1 & HE & _ & _ & Hfs1 & _ & Hrun)].
  - exists E. rewrite Hfs. assumption.
  - rewrite <- Hfs1 in HE.
    destruct (persist_outcome _ _ _ _ _ _ _ HE Hrun) as (_ & [Hp _] & _).
    eexists. exact Hp.
Qed.
End UpdateCases.

Section UpdateOutcomes.
Context {V : Vendor} (env : Env).
Implicit Types w : World V.

(** X18 (no dataset, no update).  When the primary path does not
    hold a dataset that parses, [update_symbol] does not succeed and
    changes nothing at all, not even the clock or the log: it returns
    [False] when the file is absent and raises the read error
    otherwise.  The updater never creates a dataset. *)
Theorem update_symbol_needs_dataset (symbol category : string)
    (timeframe : Timeframe) (days : Z) (force : bool) (w : World V) :
  (∀ E, w_fs w !! primary_path symbol category ≠ Some (Parquet E)) →
  ∃ r, update_symbol env symbol category timeframe days force w = (r, w) ∧
       (w_fs w !! primary_path symbol category = None → r = Ok false) ∧
       (is_Some (w_fs w !! primary_path symbol category) →
        r = Raise ReadError).
Proof.
  intros Hno. rewrite update_symbol_no_dataset by assumption.
  eexists. split; [reflexivity|].
  destruct (w_fs w !! primary_path symbol category) as [f|]; split.
  - discriminate.
  - reflexivity.
  - reflexivity.
  - intros [f Hf]. discriminate Hf.
Qed.

(** X19 (a successful update only grows the dataset).  After a run of
    [update_symbol] that returns [True], the primary path holds a
    dataset with every timestamp the dataset had before and at least as
    many rows: either the very same dataset, or one that is ascending and
    strictly longer, with no backup left. *)
Theorem update_symbol_grows_dataset (symbol category : string)
    (timeframe : Timeframe) (days : Z) (force : bool) (w w' : World V)
    (E : list Bar) :
  w_fs w !! primary_path symbol category = Some (Parquet E) →
  update_symbol env symbol category timeframe days force w = (Ok true, w') →
  ∃ D, w_fs w' !! primary_path symbol category = Some (Parquet D) ∧
       (∀ T, T ∈ timestamp <$> E → T ∈ timestamp <$> D) ∧
       (length E ≤ length D)%nat ∧
       (D = E ∨
        (ascending timestamp D ∧ (length E < length D)%nat ∧
         w_fs w' !! backup_path symbol category = None)).
Proof.
  intros HE Hrun.
  apply update_symbol_cases in Hrun
    as [(Hfs & _ & _)|(E' & N & w1 & HE' & _ & Hlen & Hfs1 & _ & Hrun)].
  - exists E. rewrite Hfs. split; [assumption|]. split; [auto|].
    split; [lia|]. left. reflexivity.
  - assert (E' = E) as -> by congruence.
    rewrite <- Hfs1 in HE.
    destruct (persist_outcome env _ _ _ _ _ _ _ HE Hrun) as (_ & [Hp Hb] & _).
    exists (append_new_data E N). split; [assumption|]. split.
    + intros T HT. apply append_new_data_timestamps. left. assumption.
    + split; [lia|]. right. split; [apply append_new_data_ascending|].
      split; assumption.
Qed.

(** X20 (other datasets are left alone).  Whatever a run of
    [update_symbol] does for one symbol, the dataset file and the backup
    file of a symbol with another name (up to letter case) or in the
    other directory are as they were; both names being plain (ASCII
    letters, digits, dots, underscores and hyphens, as all configured
    names are). *)
Theorem update_symbol_leaves_other_paths (symbol category : string)
    (timeframe : Timeframe) (days : Z) (force : bool) (w w' : World V)
    (r : Result bool) (symbol' category' : string) :
  plain_name symbol = true → plain_name symbol' = true →
  update_symbol env symbol category timeframe days force w = (r, w') →
  lower symbol' ≠ lower symbol
  ∨ ¬ (category' = "fx"%string ↔ category = "fx"%string) →
  w_fs w' !! primary_path symbol' category'
  = w_fs w !! primary_path symbol' category' ∧
  w_fs w' !! backup_path symbol' category'
  = w_fs w !! backup_path symbol' category'.
Proof.
  intros _ _ Hrun Hother.
  assert (Hpp : primary_path symbol' category' ≠ primary_path symbol category).
  { intros H%primary_path_inj. tauto. }
  assert (Hbb : backup_path symbol' category' ≠ backup_path symbol category).
  { intros H%backup_path_inj. tauto. }
  pose proof (primary_ne_any_backup symbol' category' symbol category) as Hpb.
  pose proof (primary_ne_any_backup symbol category symbol' category') as Hbp.
  split; eapply update_symbol_frame; eauto.
Qed.

(** X21 (a failed write is not undone).  After a run of
    [update_symbol] in which the write failed, the dataset as it was is
    at the backup path, the primary path holds no dataset that parses,
    and every further run for this symbol, whatever its arguments,
    changes nothing and does not succeed: the backup is never put
    back. *)
Theorem failed_write_not_recovered (symbol category : string)
    (timeframe : Timeframe) (days : Z) (force : bool) (w w' : World V) :
  update_symbol env symbol category timeframe days force w
  = (Raise WriteError, w') →
  ∃ E, w_fs w !! primary_path symbol category = Some (Parquet E) ∧
       w_fs w' !! backup_path symbol category = Some (Parquet E) ∧
       (∀ D, w_fs w' !! primary_path symbol category ≠ Some (Parquet D)) ∧
       ∀ env' timeframe' days' force',
         ∃ r, update_symbol env' symbol category timeframe' days' force' w'
              = (r, w') ∧ r ≠ Ok true.
Proof.
  intros Hrun.
  apply update_symbol_cases in Hrun
    as [(_ & _ & [=])|(E & N & w1 & HE & _ & _ & Hfs1 & _ & Hrun)].
  exists E. split; [assumption|].
  rewrite <- Hfs1 in HE.
  destruct (persist_outcome env _ _ _ _ _ _ _ HE Hrun) as (_ & [Hb Hp] & _).
  split; [assumption|].
  assert (Hno : ∀ D, w_fs w' !! primary_path symbol category ≠ Some (Parquet D))
    by (intros D; destruct Hp as [-> | ->]; discriminate).
  split; [assumption|].
  intros env' timeframe' days' force'.
  rewrite update_symbol_no_dataset by assumption.
  eexists. split; [reflexivity|].
  destruct (w_fs w' !! primary_path symbol category); discriminate.
Qed.

(** X22 (a stale backup on Windows).  On Windows, where [Path.rename]
    refuses an existing target, no run of [update_symbol] changes the
    disk as long as a backup file of the symbol exists; such a run
    returns, fails to read the dataset, or raises [FileExistsError], and
    never gets as far as the write. *)
Theorem windows_stale_backup_blocks (symbol category : string)
    (timeframe : Timeframe) (days : Z) (force : bool) (w w' : World V)
    (r : Result bool) :
  env_platform env = Windows →
  is_Some (w_fs w !! backup_path symbol category) →
  update_symbol env symbol category timeframe days force w = (r, w') →
  w_fs w' = w_fs w ∧
  (r = Ok true ∨ r = Ok false ∨ r = Raise ReadError
   ∨ r = Raise FileExistsError).
Proof.
  intros Hwin Hb Hrun.
  apply update_symbol_cases in Hrun
    as [(Hfs & _ & Hr)|(E & N & w1 & HE & _ & _ & Hfs1 & _ & Hrun)].
  - split; [assumption|]. destruct r as [[|]|e]; [auto..|].
    subst e. auto.
  - rewrite <- Hfs1 in HE, Hb.
    destruct (persist_outcome env _ _ _ _ _ _ _ HE Hrun) as (_ & _ & Hsame).
    destruct (Hsame Hwin Hb) as [Hfs ->]. split; [congruence|auto].
Qed.
End UpdateOutcomes.

(** An empty disk. *)
Lemma update_symbol_needs_dataset_witness :
  let w := initial_world (V:=scripted_vendor) [] ∅ [] in
  ∃ r, update_symbol (sample_env Posix) "EURUSD" "fx" TIMEFRAME_M1 7 false w
       = (r, w) ∧
       (w_fs w !! primary_path "EURUSD" "fx" = None → r = Ok false) ∧
       (is_Some (w_fs w !! primary_path "EURUSD" "fx") → r = Raise ReadError).
Proof.
  intros w.
  apply (update_symbol_needs_dataset (sample_env Posix) "EURUSD" "fx"
           TIMEFRAME_M1 7 false w).
  intros E. vm_compute. discriminate.
Defined.

(** An update that adds one bar. *)
Lemma update_symbol_grows_dataset_witness :
  let env := sample_env Posix in
  let w := update_world stored_dataset [Some [rate_at (9 * day) 2]] [] in
  let run := update_symbol env "EURUSD" "fx" TIMEFRAME_M1 7 false w in
  ∃ D, w_fs (snd run) !! primary_path "EURUSD" "fx" = Some (Parquet D) ∧
       (∀ T, T ∈ timestamp <$> stored_dataset → T ∈ timestamp <$> D) ∧
       (length stored_dataset ≤ length D)%nat ∧
       (D = stored_dataset ∨
        (ascending timestamp D ∧ (length stored_dataset < length D)%nat ∧
         w_fs (snd run) !! backup_path "EURUSD" "fx" = None)).
Proof.
  intros env w run.
  apply (update_symbol_grows_dataset env "EURUSD" "fx" TIMEFRAME_M1 7 false w
           (snd run) stored_dataset); vm_compute; reflexivity.
Defined.

(** The update of EURUSD and the files of GBPUSD. *)
Lemma update_symbol_leaves_other_paths_witness :
  let env := sample_env Posix in
  let w := initial_world (V:=scripted_vendor) [Some [rate_at (9 * day) 2]]
             (<[primary_path "GBPUSD" "fx" := Parquet fresh_dataset]>
                (sample_disk stored_dataset)) [] in
  let run := update_symbol env "EURUSD" "fx" TIMEFRAME_M1 7 false w in
  w_fs (snd run) !! primary_path "GBPUSD" "fx"
  = w_fs w !! primary_path "GBPUSD" "fx" ∧
  w_fs (snd run) !! backup_path "GBPUSD" "fx"
  = w_fs w !! backup_path "GBPUSD" "fx".
Proof.
  intros env w run.
  apply (update_symbol_leaves_other_paths env "EURUSD" "fx" TIMEFRAME_M1 7
           false w (snd run) (fst run) "GBPUSD" "fx").
  - vm_compute. reflexivity.
  - vm_compute. reflexivity.
  - vm_compute. reflexivity.
  - left. vm_compute. discriminate.
Defined.

(** An update whose write fails before anything is created. *)
Lemma failed_write_not_recovered_witness :
  let env := sample_env Posix in
  let w := update_world stored_dataset [Some [rate_at (9 * day) 2]]
             [WriteFailsClean] in
  let w' := snd (update_symbol env "EURUSD" "fx" TIMEFRAME_M1 7 false w) in
  ∃ E, w_fs w !! primary_path "EURUSD" "fx" = Some (Parquet E) ∧
       w_fs w' !! backup_path "EURUSD" "fx" = Some (Parquet E) ∧
       (∀ D, w_fs w' !! primary_path "EURUSD" "fx" ≠ Some (Parquet D)) ∧
       ∀ env' timeframe' days' force',
         ∃ r, update_symbol env' "EURUSD" "fx" timeframe' days' force' w'
              = (r, w') ∧ r ≠ Ok true.
Proof.
  intros env w w'.
  apply (failed_write_not_recovered env "EURUSD" "fx" TIMEFRAME_M1 7 false w w').
  vm_compute. reflexivity.
Defined.

(** An update on Windows with a backup left behind. *)
Lemma windows_stale_backup_blocks_witness :
  let env := sample_env Windows in
  let w := initial_world (V:=scripted_vendor) [Some [rate_at (9 * day) 2]]
             (disk_with_backup stored_dataset fresh_dataset) [] in
  let run := update_symbol env "EURUSD" "fx" TIMEFRAME_M1 7 false w in
  w_fs (snd run) = w_fs w ∧
  (fst run = Ok true ∨ fst run = Ok false ∨ fst run = Raise ReadError
   ∨ fst run = Raise FileExistsError).
Proof.
  intros env w run.
  apply (windows_stale_backup_blocks env "EURUSD" "fx" TIMEFRAME_M1 7 false w
           (snd run) (fst run)).
  - reflexivity.
  - vm_compute. eauto.
  - vm_compute. reflexivity.
Defined.

(** ** The recent-data fetch *)

Section RecentData.
Context {V : Vendor} (env : Env).
Implicit Types w : World V.

(** X16 (the window of the recent fetch).  Every bar that
    [collect_recent_data] returns is at most [days] days older than the
    first reading of the clock; the run reads the clock twice and makes
    one bar request. *)
Theorem collect_recent_data_window (symbol : string) (timeframe : Timeframe)
    (days : Z) (w w' : World V) (df : list Bar) :
  collect_recent_data env symbol timeframe days w = (Ok (Some df), w') →
  Forall (λ b, env_clock env (w_ticks w) - microseconds (days * 86400)
               ≤ microseconds (timestamp b)) df ∧
  w_ticks w' = S (S (w_ticks w)) ∧
  ∃ evs, w_log w' = w_log w ++ evs ∧ rates_calls evs = 1%nat.
Proof.
  unfold collect_recent_data.
  destruct (find_symbol_in_sound (alternatives symbol) w)
    as (a & w1 & evs1 & Hfind & _ & _ & Hticks & Hlog1 & Hevs1 & _).
  apply lookups_no_rates in Hevs1.
  rewrite (bind_ok _ _ _ _ _ Hfind).
  destruct a as [actual|]; [|discriminate].
  unfold bind, now, mt5_copy_rates_from_pos, call_vendor.
  cbn [w_vendor w_fs w_faults w_ticks w_log].
  destruct (copy_rates_from_pos V actual timeframe 0 (bars_to_fetch days)
              (w_vendor w1)) as [[[|r0 rs]|] v]; try discriminate.
  intros [= <- <-]. cbn [w_ticks w_log]. rewrite Hticks. split; [|split].
  - apply Forall_forall. intros b [r [-> Hr]]%list_elem_of_fmap.
    apply list_elem_of_filter in Hr as [Hr _]. exact Hr.
  - reflexivity.
  - eexists. split; [rewrite Hlog1, <- app_assoc; reflexivity|].
    rewrite rates_calls_app, Hevs1. reflexivity.
Qed.
End RecentData.

Lemma bars_to_fetch_table :
  forallb (λ n, let d := Z.of_nat n in
                (1008 * d + 99 <=? bars_to_fetch d)
                && (bars_to_fetch d <=? 1008 * d + 100))
          (seq 0 3661) = true.
Proof. vm_compute. reflexivity. Qed.

(** X17 (size of the recent request).  For a window of up to ten
    years the number of bars requested, [int(days * 24 * 60 * 0.7) + 100]
    in binary64, is [1008 * days + 100] or one less: the product with
    [0.7] can fall just short of the whole number, as it does for one
    day (1107 bars). *)
Theorem bars_to_fetch_range (days : Z) :
  0 ≤ days ≤ 3660 →
  1008 * days + 99 ≤ bars_to_fetch days ≤ 1008 * days + 100.
Proof.
  intros Hdays.
  pose proof (proj1 (forallb_forall _ _) bars_to_fetch_table (Z.to_nat days))
    as H.
  cbv beta zeta in H. rewrite Z2Nat.id in H by lia.
  assert (Hin : In (Z.to_nat days) (seq 0 3661)) by (apply in_seq; lia).
  apply H in Hin. apply andb_prop in Hin as [H1 H2]. lia.
Qed.

(** A one-week window on the sample clock: the bar of day 2 is dropped. *)
Lemma collect_recent_data_window_witness :
  let env := sample_env Posix in
  let w := update_world stored_dataset
             [Some [rate_at (2 * day) 1; rate_at (9 * day) 2]] [] in
  let run := collect_recent_data env "EURUSD" TIMEFRAME_M1 7 w in
  Forall (λ b, env_clock env (w_ticks w) - microseconds (7 * 86400)
               ≤ microseconds (timestamp b)) [bar_at (9 * day) 2] ∧
  w_ticks (snd run) = S (S (w_ticks w)) ∧
  ∃ evs, w_log (snd run) = w_log w ++ evs ∧ rates_calls evs = 1%nat.
Proof.
  intros env w run.
  apply (collect_recent_data_window env "EURUSD" TIMEFRAME_M1 7 w (snd run)
           [bar_at (9 * day) 2]).
  vm_compute. reflexivity.
Defined.

(** One day: 1107 bars. *)
Lemma bars_to_fetch_range_witness :
  1008 * 1 + 99 ≤ bars_to_fetch 1 ≤ 1008 * 1 + 100.
Proof. apply (bars_to_fetch_range 1). lia. Defined.

(** ** The batch scripts *)

Section BatchFacts.
Context {V : Vendor} (env : Env) (session : Session V).
Implicit Types w : World V.

(** What one pass of the collection loop does to the disk. *)
Lemma collect_symbol_inv symbol category timeframe w r w' :
  collect_symbol symbol category timeframe w = (r, w') →
  match r with
  | Ok true =>
      ∃ df, df ≠ [] ∧ ascending timestamp df ∧
            fst (collect_maximum_data symbol timeframe w) = Ok (Some df) ∧
            w_fs w' = <[primary_path symbol category := Parquet df]> (w_fs w)
  | Raise WriteError =>
      w_fs w' = w_fs w ∨
      w_fs w' = <[primary_path symbol category := Garbage]> (w_fs w)
  | _ => w_fs w' = w_fs w
  end.
Proof.
  unfold collect_symbol.
  destruct (collect_maximum_data symbol timeframe w) as [r0 w1] eqn:Hrun.
  pose proof (collect_maximum_data_vendor_step _ _ _ _ _ Hrun) as (Hfs & _).
  destruct r0 as [[[|b rest]|]|e].
  1,3: rewrite (bind_ok _ _ _ _ _ Hrun); intros [= <- <-]; exact Hfs.
  2: { rewrite (bind_raise _ _ _ _ _ Hrun). intros [= <- <-].
       destruct e; exact Hfs || (left; exact Hfs). }
  rewrite (bind_ok _ _ _ _ _ Hrun). cbv zeta.
  rewrite save_dataframe_parquet.
  rewrite (path_str_with_suffix_same ".parquet") by reflexivity.
  fold (primary_path symbol category).
  unfold bind, write_file, ret.
  destruct (default WriteOk (head (w_faults w1))); intros [= <- <-];
    cbn [w_fs]; rewrite Hfs.
  - exists (b :: rest). split; [discriminate|]. split; [|split; reflexivity].
    apply collect_maximum_data_inv in Hrun as (all_rates & _ & ->).
    apply finalize_ascending.
  - left. reflexivity.
  - right. reflexivity.
Qed.

(** X24 (collecting one symbol).  One pass of the loop of
    [collect_all_symbols] counts as a success exactly after it has
    written the frame of [collect_maximum_data], which is not empty and
    ascending, over whatever the primary path held, with no merge and no
    backup; a pass that fails left the disk alone, or, when the write
    itself broke, left at most a truncated file at that path. *)
Theorem collect_symbol_outcomes (symbol category : string)
    (timeframe : Timeframe) (w : World V) :
  ∃ r w',
    collect_symbol symbol category timeframe w = (r, w') ∧
    match r with
    | Ok true =>
        ∃ df, df ≠ [] ∧ ascending timestamp df ∧
              fst (collect_maximum_data symbol timeframe w) = Ok (Some df) ∧
              w_fs w' = <[primary_path symbol category := Parquet df]> (w_fs w)
    | Raise WriteError =>
        w_fs w' = w_fs w ∨
        w_fs w' = <[primary_path symbol category := Garbage]> (w_fs w)
    | _ => w_fs w' = w_fs w
    end.
Proof.
  destruct (collect_symbol symbol category timeframe w) as [r w'] eqn:Hrun.
  exists r, w'. split; [reflexivity|]. eapply collect_symbol_inv, Hrun.
Qed.

Lemma attempt_inv (m : M V bool) w :
  ∃ r w' ok, m w = (r, w') ∧ attempt m w = (Ok ok, w') ∧
             (ok = true ↔ r = Ok true).
Proof.
  unfold attempt. destruct (m w) as [[[|]|e] w']; eexists _, _, _;
    (split; [reflexivity|]); (split; [reflexivity|]);
    split; congruence.
Qed.

Lemma for_each_symbol_partition (step : string → M V bool)
    (symbols : list string) :
  ∀ success failed w,
  ∃ ok bad w',
    for_each_symbol step symbols success failed w
    = (Ok (success ++ ok, failed ++ bad), w') ∧
    ok ++ bad ≡ₚ symbols.
Proof.
  induction symbols as [|symbol rest IH]; intros success failed w.
  - exists [], [], w. rewrite !app_nil_r. repeat split; constructor.
  - cbn [for_each_symbol].
    destruct (attempt_inv (step symbol) w) as (r & w1 & ok & _ & Hstep & _).
    rewrite (bind_ok _ _ _ _ _ Hstep). destruct ok.
    + destruct (IH (success ++ [symbol]) failed w1)
        as (oks & bad & w' & -> & Hperm).
      exists (symbol :: oks), bad, w'. rewrite <- app_assoc.
      split; [reflexivity|]. simpl. rewrite Hperm. reflexivity.
    + destruct (IH success (failed ++ [symbol]) w1)
        as (oks & bad & w' & -> & Hperm).
      exists oks, (symbol :: bad), w'. rewrite <- app_assoc.
      split; [reflexivity|].
      rewrite <- Permutation_middle, Hperm. reflexivity.
Qed.

(** A property of the state that every pass keeps is kept by the loop. *)
Lemma for_each_symbol_keeps (step : string → M V bool) (P : World V → Prop)
    (symbols : list string) :
  (∀ symbol w r w', symbol ∈ symbols → step symbol w = (r, w') → P w → P w') →
  ∀ success failed w r w',
    for_each_symbol step symbols success failed w = (r, w') → P w → P w'.
Proof.
  induction symbols as [|symbol rest IH]; intros Hstep success failed w r w'.
  - intros [= _ <-]. auto.
  - cbn [for_each_symbol].
    destruct (attempt_inv (step symbol) w) as (r1 & w1 & ok & Hrun & Hatt & _).
    rewrite (bind_ok _ _ _ _ _ Hatt). intros Hloop HP.
    assert (HP1 : P w1) by (eapply Hstep; [left|exact Hrun|exact HP]).
    assert (Hstep' : ∀ symbol w r w',
              symbol ∈ rest → step symbol w = (r, w') → P w → P w')
      by (intros s ? ? ? Hs; apply Hstep; right; exact Hs).
    destruct ok; eapply (IH Hstep'); eassumption.
Qed.

(** Every symbol the loop reports as a success is [good] at the end,
    when a pass that succeeds makes its symbol good and a pass on
    another path keeps a symbol good. *)
Lemma for_each_symbol_good (step : string → M V bool) (category : string)
    (good : string → string → World V → Prop) (symbols0 : list string) :
  (∀ s s', s ∈ symbols0 → s' ∈ symbols0 →
           primary_path s category = primary_path s' category → s = s') →
  (∀ symbol w w', step symbol w = (Ok true, w') → good symbol category w') →
  (∀ symbol s w r w',
     step symbol w = (r, w') →
     primary_path s category ≠ primary_path symbol category →
     good s category w → good s category w') →
  ∀ symbols success failed w r w',
    NoDup symbols → symbols ⊆ symbols0 → success ⊆ symbols0 →
    (∀ s, s ∈ success → s ∉ symbols) →
    (∀ s, s ∈ success → good s category w) →
    for_each_symbol step symbols success failed w = (r, w') →
    ∃ ok bad, r = Ok (ok, bad) ∧ ∀ s, s ∈ ok → good s category w'.
Proof.
  intros Hinj Hmake Hkeep.
  induction symbols as [|symbol rest IH];
    intros success failed w r w' Hnd Hsub Hsucc Hdisj Hgood.
  - intros [= <- <-]. eauto.
  - cbn [for_each_symbol].
    destruct (attempt_inv (step symbol) w)
      as (r1 & w1 & ok & Hrun & Hatt & Hok).
    rewrite (bind_ok _ _ _ _ _ Hatt).
    apply NoDup_cons in Hnd as [Hfresh Hnd].
    assert (Hsym : symbol ∈ symbols0) by (apply Hsub; left).
    assert (Hrest : rest ⊆ symbols0) by (intros s Hs; apply Hsub; right; exact Hs).
    assert (Hgood1 : ∀ s, s ∈ success → good s category w1).
    { intros s Hs. eapply Hkeep; [exact Hrun| |apply Hgood, Hs].
      intros Heq. apply Hinj in Heq; [|apply Hsucc, Hs|exact Hsym].
      subst s. apply (Hdisj symbol Hs). left. }
    destruct ok.
    + assert (r1 = Ok true) as -> by (apply Hok; reflexivity).
      apply IH; try assumption.
      * intros s [Hs|Hs%list_elem_of_singleton]%elem_of_app;
          [apply Hsucc, Hs|subst s; exact Hsym].
      * intros s [Hs|Hs%list_elem_of_singleton]%elem_of_app.
        -- intros Hin. apply (Hdisj s Hs). right. exact Hin.
        -- subst s. exact Hfresh.
      * intros s [Hs|Hs%list_elem_of_singleton]%elem_of_app;
          [apply Hgood1, Hs|].
        subst s. eapply Hmake, Hrun.
    + apply IH; try assumption.
      intros s Hs Hin. apply (Hdisj s Hs). right. exact Hin.
Qed.

Lemma NoDup_fmap_inj_on {A B} (f : A → B) (l : list A) (x y : A) :
  NoDup (f <$> l) → x ∈ l → y ∈ l → f x = f y → x = y.
Proof.
  induction l as [|a l IH]; intros Hnd Hx Hy Heq.
  - apply elem_of_nil in Hx. contradiction.
  - rewrite fmap_cons in Hnd. apply NoDup_cons in Hnd as [Ha Hnd].
    apply elem_of_cons in Hx as [->|Hx]; apply elem_of_cons in Hy as [->|Hy].
    + reflexivity.
    + exfalso. apply Ha. rewrite Heq. apply list_elem_of_fmap_2. exact Hy.
    + exfalso. apply Ha. rewrite <- Heq. apply list_elem_of_fmap_2. exact Hx.
    + auto.
Qed.

Lemma configured_names_distinct :
  NoDup (lower <$> config.FX_SYMBOLS) ∧ NoDup (lower <$> config.INDEX_SYMBOLS).
Proof. split; apply (bool_decide_unpack _); vm_compute; exact I. Qed.

Lemma configured_paths_inj (symbols : list string) (category : string)
    (s s' : string) :
  NoDup (lower <$> symbols) → s ∈ symbols → s' ∈ symbols →
  primary_path s category = primary_path s' category → s = s'.
Proof.
  intros Hnd Hs Hs' [Heq _]%primary_path_inj.
  eapply NoDup_fmap_inj_on; eassumption.
Qed.

Lemma batch_accounts (step : string → string → M V bool)
    (good : string → string → World V → Prop) w :
  (∀ symbol category w w',
     step symbol category w = (Ok true, w') → good symbol category w') →
  (∀ symbol category s c w r w',
     step symbol category w = (r, w') →
     primary_path s c ≠ primary_path symbol category →
     good s c w → good s c w') →
  (∀ s c w w', w_fs w = w_fs w' → good s c w → good s c w') →
  accounts_for_every_symbol session good w
    ((_ <- now env ;;
      ok <- initialize_mt5 session ;;
      if negb ok then ret None
      else
        finally
          (guarded
             (_ <- call_session (account_info session) ;;
              fx <- for_each_symbol (λ symbol, step symbol "fx")
                      config.FX_SYMBOLS [] [] ;;
              idx <- for_each_symbol (λ symbol, step symbol "indices")
                       config.INDEX_SYMBOLS [] [] ;;
              _ <- now env ;;
              ret (Some (mkSummary (fst fx) (snd fx) (fst idx) (snd idx)))))
          (shutdown_mt5 session)) w).
Proof.
  intros Hmake Hkeep Hdisk.
  destruct configured_names_distinct as [Hfxnd Hidxnd].
  unfold accounts_for_every_symbol.
  unfold bind at 1. unfold now at 1.
  unfold bind at 1. unfold initialize_mt5, call_session at 1 2.
  unfold bind at 1. cbn [w_vendor w_fs w_faults w_ticks w_log].
  destruct (initialize session (w_vendor w)) as [[|] v] eqn:Hinit;
    cbn [negb fst].
  2:{ unfold bind, call_session, ret. cbn [w_vendor w_fs w_faults w_ticks w_log].
      destruct (last_error session v) as [code v'].
      eexists None, _. split; [reflexivity|]. cbn. auto. }
  unfold ret at 1. cbv beta iota. cbn [negb].
  unfold finally, guarded.
  unfold bind at 1. unfold call_session at 1.
  cbn [w_vendor w_fs w_faults w_ticks w_log].
  destruct (account_info session v) as [info v1].
  match goal with |- context [bind (for_each_symbol _ config.FX_SYMBOLS [] []) _ ?w0] =>
    set (w1 := w0) end.
  destruct (for_each_symbol_partition (λ symbol, step symbol "fx")
              config.FX_SYMBOLS [] [] w1)
    as (fx_ok & fx_bad & w2 & Hfx & Hfxp).
  rewrite (bind_ok _ _ _ _ _ Hfx).
  destruct (for_each_symbol_partition (λ symbol, step symbol "indices")
              config.INDEX_SYMBOLS [] [] w2)
    as (idx_ok & idx_bad & w3 & Hidx & Hidxp).
  rewrite (bind_ok _ _ _ _ _ Hidx).
  assert (Hfxgood : ∀ s, s ∈ fx_ok → good s "fx"%string w2).
  { destruct (for_each_symbol_good (λ symbol, step symbol "fx") "fx" good
                config.FX_SYMBOLS
                (λ s s', configured_paths_inj _ _ s s' Hfxnd)
                (λ symbol, Hmake symbol "fx"%string)
                (λ symbol s, Hkeep symbol "fx"%string s "fx"%string)
                config.FX_SYMBOLS [] [] w1
                (Ok ([] ++ fx_ok, [] ++ fx_bad)) w2)
      as (ok' & bad' & Heq & Hgood).
    - eapply NoDup_fmap_1, Hfxnd.
    - intros s Hs. exact Hs.
    - intros s Hs. inversion Hs.
    - intros s Hs. inversion Hs.
    - intros s Hs. inversion Hs.
    - exact Hfx.
    - injection Heq as <- _. exact Hgood. }
  assert (Hidxgood : ∀ s, s ∈ idx_ok → good s "indices"%string w3).
  { destruct (for_each_symbol_good (λ symbol, step symbol "indices") "indices"
                good config.INDEX_SYMBOLS
                (λ s s', configured_paths_inj _ _ s s' Hidxnd)
                (λ symbol, Hmake symbol "indices"%string)
                (λ symbol s, Hkeep symbol "indices"%string s "indices"%string)
                config.INDEX_SYMBOLS [] [] w2
                (Ok ([] ++ idx_ok, [] ++ idx_bad)) w3)
      as (ok' & bad' & Heq & Hgood).
    - eapply NoDup_fmap_1, Hidxnd.
    - intros s Hs. exact Hs.
    - intros s Hs. inversion Hs.
    - intros s Hs. inversion Hs.
    - intros s Hs. inversion Hs.
    - exact Hidx.
    - injection Heq as <- _. exact Hgood. }
  assert (Hfxkept : ∀ s, s ∈ fx_ok → good s "fx"%string w3).
  { intros s Hs.
    eapply (for_each_symbol_keeps (λ symbol, step symbol "indices")
              (λ w, good s "fx"%string w)); [|exact Hidx|apply Hfxgood, Hs].
    intros symbol wa r wb _ Hrun. eapply Hkeep; [exact Hrun|].
    intros [_ Hc]%primary_path_inj.
    assert ("indices"%string = "fx"%string) by (apply Hc; reflexivity).
    discriminate. }
  unfold bind, now, ret, shutdown_mt5, call_session.
  cbn [w_vendor w_fs w_faults w_ticks w_log fst snd].
  destruct (shutdown session (w_vendor w3)) as [[] v3].
  eexists (Some _), _. split; [reflexivity|].
  cbn [fx_success fx_failed idx_success idx_failed app].
  split; [reflexivity|]. split; [assumption|]. split; [assumption|].
  split.
  { unfold total_success, total_symbols.
    cbn [fx_success fx_failed idx_success idx_failed app].
    rewrite <- Hfxp, <- Hidxp, !length_app. lia. }
  split; intros s Hs.
  - eapply Hdisk; [|apply Hfxkept, Hs]. reflexivity.
  - eapply Hdisk; [|apply Hidxgood, Hs]. reflexivity.
Qed.

(** X23 (the weekly batch).  [update_all_symbols] never raises.  When
    the session does not open it reports nothing and leaves the disk and
    the log alone; otherwise it reports every configured symbol exactly
    once, as updated or as failed, whatever happened to the symbols
    before it, and every symbol reported as updated has a dataset that
    parses at its primary path when the run ends. *)
Theorem update_all_symbols_accounts (days : Z) (force : bool) (w : World V) :
  accounts_for_every_symbol session has_dataset w
    (update_all_symbols env session days force w).
Proof.
  apply (batch_accounts
           (λ symbol category,
              update_symbol env symbol category
                (get_timeframe_constant config.TIMEFRAME) days force)).
  - intros symbol category w0 w'. apply update_symbol_success_dataset.
  - intros symbol category s c w0 r w' Hrun Hne [D HD]. exists D.
    rewrite <- HD. eapply update_symbol_frame; [exact Hrun|exact Hne|].
    apply primary_ne_any_backup.
  - intros s c w0 w' Hfs [D HD]. exists D. rewrite <- Hfs. exact HD.
Qed.

(** X25 (the historical batch).  [collect_all_symbols] never raises.
    When the session does not open it reports nothing and leaves the disk
    and the log alone; otherwise it reports every configured symbol
    exactly once, as collected or as failed, and every symbol reported as
    collected has, when the run ends, a dataset at its primary path that
    is not empty and whose timestamps are unique and ascending. *)
Theorem collect_all_symbols_accounts (w : World V) :
  accounts_for_every_symbol session has_clean_dataset w
    (collect_all_symbols env session w).
Proof.
  apply (batch_accounts
           (λ symbol category,
              collect_symbol symbol category
                (get_timeframe_constant config.TIMEFRAME))).
  - intros symbol category w0 w' Hrun.
    apply collect_symbol_inv in Hrun as (df & Hne & Hasc & _ & Hfs).
    exists df. rewrite Hfs, lookup_insert_eq. auto.
  - intros symbol category s c w0 r w' Hrun Hne (df & Hdf & Hrest).
    exists df. split; [|exact Hrest]. rewrite <- Hdf.
    apply collect_symbol_inv in Hrun.
    destruct r as [[|]|[]];
      try (rewrite Hrun; reflexivity).
    + destruct Hrun as (df' & _ & _ & _ & ->). apply lookup_insert_ne.
      congruence.
    + destruct Hrun as [-> | ->]; [reflexivity|]. apply lookup_insert_ne.
      congruence.
  - intros s c w0 w' Hfs (df & Hdf & Hrest). exists df. rewrite <- Hfs. auto.
Qed.
End BatchFacts.

(** The weekly batch on a disk that holds the dataset of EURUSD only:
    one symbol is updated, the seven others have nothing to update. *)
Example update_all_symbols_run :
  fst (update_all_symbols (sample_env Posix) (scripted_session true) 7 false
         (update_world stored_dataset [Some [rate_at (9 * day) 2]] []))
  = Ok (Some (mkSummary ["EURUSD"]
                        ["USDJPY"; "GBPUSD"; "EURGBP"; "USDCAD"; "AUDNZD"]
                        [] ["US30"; "XAUUSD"]))%string.
Proof. vm_compute. reflexivity. Qed.

(** The historical batch against a terminal that holds bars for the first
    request only, and against a session that does not open. *)
Example collect_all_symbols_run :
  let run := collect_all_symbols (sample_env Posix) (scripted_session true)
               (update_world stored_dataset
                  [Some [rate_at 60 2; rate_at 0 1; rate_at 60 3]] []) in
  fst run
  = Ok (Some (mkSummary ["EURUSD"]
                        ["USDJPY"; "GBPUSD"; "EURGBP"; "USDCAD"; "AUDNZD"]
                        [] ["US30"; "XAUUSD"]))%string ∧
  w_fs (snd run) !! primary_path "EURUSD" "fx"
  = Some (Parquet [bar_at 0 1; bar_at 60 2]).
Proof. vm_compute. split; reflexivity. Qed.

Example session_refused :
  let w := update_world stored_dataset [Some [rate_at (9 * day) 2]] [] in
  update_all_symbols (sample_env Posix) (scripted_session false) 7 false w
  = (Ok None, @mkWorld scripted_vendor (w_vendor w) (w_fs w) (w_faults w) 1 []).
Proof. vm_compute. reflexivity. Qed.

(** ** tests/test_bar_quality.py *)

Section QualityTests.
Import test_bar_quality.

Lemma duplicated_sum_zero (seen ts : list Z) :
  duplicated_sum seen ts = 0%nat ↔ NoDup ts ∧ ∀ t, t ∈ ts → t ∉ seen.
Proof.
  revert seen. induction ts as [|t ts IH]; intros seen; simpl.
  - split; [intros _; split; [constructor|]|reflexivity].
    intros t Ht. apply elem_of_nil in Ht. contradiction.
  - case_bool_decide as Hseen.
    + split; [discriminate|]. intros [_ H]. exfalso. apply (H t); [left|assumption].
    + rewrite IH, NoDup_cons. split.
      * intros [Hnd Hfresh]. split; [split; [|assumption]|].
        -- intros Ht. apply (Hfresh t Ht). left.
        -- intros x [->|Hx]%elem_of_cons; [assumption|].
           intros Hx'. apply (Hfresh x Hx). right. assumption.
      * intros [[Ht Hnd] Hfresh]. split; [assumption|].
        intros x Hx [->|Hx']%elem_of_cons; [contradiction|].
        apply (Hfresh x); [right|]; assumption.
Qed.

Lemma is_monotonic_increasing_sorted {A} (key : A → Z) (l : list A) :
  is_monotonic_increasing (key <$> l) = true
  ↔ StronglySorted (λ a b, key a ≤ key b) l.
Proof.
  assert (Htrans : Transitive (λ a b : A, key a ≤ key b))
    by (intros a b c; apply Z.le_trans).
  split.
  - intros H. apply Sorted_StronglySorted; [assumption|].
    induction l as [|a [|b l] IH]; [constructor|repeat constructor|].
    change (bool_decide (key a ≤ key b)
            && is_monotonic_increasing (key <$> b :: l) = true) in H.
    apply andb_prop in H as [Hab H]. apply bool_decide_eq_true in Hab.
    constructor; [apply IH; exact H|constructor; exact Hab].
  - intros H%StronglySorted_Sorted.
    induction l as [|a [|b l] IH]; [reflexivity..|].
    apply Sorted_inv in H as [H Hhd]. apply HdRel_inv in Hhd.
    change (bool_decide (key a ≤ key b)
            && is_monotonic_increasing (key <$> b :: l) = true).
    rewrite bool_decide_eq_true_2 by assumption. apply IH. assumption.
Qed.

Lemma ascending_passes_timestamp_tests (df : list Bar) :
  ascending timestamp df →
  test_no_duplicate_timestamps df = true ∧ test_timestamps_are_sorted df = true.
Proof.
  intros H. unfold test_no_duplicate_timestamps, test_timestamps_are_sorted.
  rewrite bool_decide_eq_true, duplicated_sum_zero,
    is_monotonic_increasing_sorted.
  split; [split|].
  - apply ascending_nodup. assumption.
  - intros t _. apply not_elem_of_nil.
  - apply ascending_sorted. assumption.
Qed.

Lemma count_zero {A} (f : A → bool) (l : list A) :
  length (List.filter f l) = 0%nat ↔ ∀ x, x ∈ l → f x = false.
Proof.
  induction l as [|x l IH]; simpl.
  - split; [|reflexivity]. intros _ x Hx. apply elem_of_nil in Hx. contradiction.
  - destruct (f x) eqn:Hfx; simpl.
    + split; [discriminate|]. intros H. rewrite (H x) in Hfx by left. discriminate.
    + rewrite IH. split.
      * intros H y [->|Hy]%elem_of_cons; auto.
      * intros H y Hy. apply H. right. assumption.
Qed.

Lemma forallb_elem {A} (f : A → bool) (l : list A) :
  forallb f l = true ↔ ∀ x, x ∈ l → f x = true.
Proof.
  rewrite forallb_forall. split; intros H x Hx; apply H, list_elem_of_In, Hx.
Qed.

(** Each of these tests passes exactly when every row passes a test of
    its own. *)
Lemma row_tests_rowwise (test : list Bar → bool) :
  test ∈ row_tests →
  ∃ p : Bar → Prop, ∀ df, test df = true ↔ ∀ r, r ∈ df → p r.
Proof.
  unfold row_tests. intros H.
  repeat (apply elem_of_cons in H as [->|H]); [..|inversion H].
  - exists (λ r, 0 ≤ volume r). intros df.
    unfold test_volume_non_negative_integer_like. rewrite forallb_elem.
    split; intros Hdf r Hr.
    + eapply bool_decide_eq_true_1, Hdf, Hr.
    + apply bool_decide_eq_true_2, Hdf, Hr.
  - eexists. intros df. unfold test_high_gte_low, none_below.
    rewrite bool_decide_eq_true. apply count_zero.
  - eexists. intros df. unfold test_high_gte_open, none_below.
    rewrite bool_decide_eq_true. apply count_zero.
  - eexists. intros df. unfold test_high_gte_close, none_below.
    rewrite bool_decide_eq_true. apply count_zero.
  - eexists. intros df. unfold test_low_lte_open, none_below.
    rewrite bool_decide_eq_true. apply count_zero.
  - eexists. intros df. unfold test_low_lte_close, none_below.
    rewrite bool_decide_eq_true. apply count_zero.
  - exists (λ r, Forall (λ col : Bar → float, PrimFloat.eqb (col r) 0 = false)
                        [open; high; low; close]).
    intros df. unfold test_no_zero_prices, count_cells. rewrite forallb_elem.
    split.
    + intros Hdf r Hr. apply Forall_forall. intros col Hcol.
      specialize (Hdf col Hcol). apply bool_decide_eq_true in Hdf.
      apply (proj1 (count_zero _ _) Hdf r Hr).
    + intros Hdf col Hcol. apply bool_decide_eq_true, count_zero.
      intros r Hr. specialize (Hdf r Hr).
      apply (proj1 (Forall_forall _ _) Hdf col Hcol).
  - exists (λ r, Forall (λ col : Bar → float, PrimFloat.ltb (col r) 0 = false)
                        [open; high; low; close]).
    intros df. unfold test_no_negative_prices, count_cells. rewrite forallb_elem.
    split.
    + intros Hdf r Hr. apply Forall_forall. intros col Hcol.
      specialize (Hdf col Hcol). apply bool_decide_eq_true in Hdf.
      apply (proj1 (count_zero _ _) Hdf r Hr).
    + intros Hdf col Hcol. apply bool_decide_eq_true, count_zero.
      intros r Hr. specialize (Hdf r Hr).
      apply (proj1 (Forall_forall _ _) Hdf col Hcol).
Qed.

(** X30 (the merge passes the row tests).  Each of the tests on single
    rows (volume not negative, the five price relations, no zero and no
    negative price) that both the existing frame and the new frame pass
    is passed by their merge. *)
Theorem merge_preserves_row_tests (test : list Bar → bool) (E N : list Bar) :
  test ∈ row_tests → test E = true → test N = true →
  test (append_new_data E N) = true.
Proof.
  intros [p Hp]%row_tests_rowwise HE HN. apply Hp. intros r Hr.
  apply append_new_data_elem in Hr as [Hr|Hr].
  - apply (proj1 (Hp E) HE r Hr).
  - apply (proj1 (Hp N) HN r Hr).
Qed.

(** X29 (the timestamp tests are the invariant).  A frame passes
    [test_no_duplicate_timestamps] and [test_timestamps_are_sorted] if and
    only if its timestamps are unique and ascending; so every frame
    [append_new_data] or the backfill produces passes both tests, and
    the columns the backfill writes pass
    [test_required_columns_present]. *)
Theorem timestamp_tests_characterise_invariant :
  (∀ df, test_no_duplicate_timestamps df = true
         ∧ test_timestamps_are_sorted df = true
         ↔ ascending timestamp df) ∧
  (∀ E N, test_no_duplicate_timestamps (append_new_data E N) = true ∧
          test_timestamps_are_sorted (append_new_data E N) = true) ∧
  (∀ all_rates, test_no_duplicate_timestamps (finalize all_rates) = true ∧
                test_timestamps_are_sorted (finalize all_rates) = true) ∧
  test_required_columns_present final_columns = true.
Proof.
  split; [|split; [|split]].
  - intros df. split; [|apply ascending_passes_timestamp_tests].
    unfold test_no_duplicate_timestamps, test_timestamps_are_sorted.
    rewrite bool_decide_eq_true, duplicated_sum_zero,
      is_monotonic_increasing_sorted.
    intros [[Hnd _] Hs]. apply sorted_nodup_ascending; assumption.
  - intros E N. apply ascending_passes_timestamp_tests, append_new_data_ascending.
  - intros all_rates. apply ascending_passes_timestamp_tests, finalize_ascending.
  - reflexivity.
Qed.
End QualityTests.

(** The test [test_high_gte_low] on two frames of flat bars. *)
Lemma merge_preserves_row_tests_witness :
  test_bar_quality.test_high_gte_low
    (append_new_data [bar_at 0 1; bar_at 60 1] [bar_at 60 2; bar_at 120 2])
  = true.
Proof.
  apply (merge_preserves_row_tests test_bar_quality.test_high_gte_low
           [bar_at 0 1; bar_at 60 1] [bar_at 60 2; bar_at 120 2]).
  - unfold row_tests. right. left.
  - vm_compute. reflexivity.
  - vm_compute. reflexivity.
Defined.
